(** * Malvar-He-Cutler demosaicing of RGGB Bayer images (demosaic.c)

    A shallow embedding of the kernel engine of [demosaic.c] and the
    properties of its specification that concern it: the edge-safe pixel
    accessor, the four interpolation kernels, the pixel assemblers, the
    unoptimized (always bounds-checked) row functions and the optimized row
    functions with their unchecked inner loop, for the six output variants
    rgb16, rgb8, rgb16to8, mono16, mono8 and mono16to8.

    Conventions of the embedding.
    - [I32], [U16] and [U8] values are integers of [Z]; the wrap-around of
      a C operation is written out with [i32], [u16] and [u8].  C's [/] and
      [%] on [int] are [Z.quot] and [Z.rem]; [>>] is [Z.shiftr].  C defines
      [>>] for counts from 0 to 31 only: the embedding stands for the code
      where [0 <= rshift < 32], and the theorems that state what a call of
      a narrowing variant returns carry the hypothesis [rshift < 32]
      ([rshift >= 0] is asserted by the code).
    - A buffer is a list of samples; [bayer[i]] is [load bayer i].  C
      defines a read inside the buffer only: the embedding stands for the
      code where the buffer holds the [n_rows * n_cols] samples of the image
      and that number fits [I32] ([image_in_buffer]), so that every index
      the code computes is inside the list; the theorems that bound the
      samples read carry these hypotheses.
    - A pointer that may be [NULL] is an [option]; the assertions of the row
      functions are the only place where the source tests for [NULL] before
      a helper can be reached, the helpers therefore take the pointee.
    - [F64] is IEEE-754 binary64 as specified by [SpecFloat] (precision 53,
      [emax] 1024, rounding to nearest even). *)

From stdpp Require Import base list.
From Stdlib Require Import ZArith Lia Bool SpecFloat Reals Lra.

#[local] Open Scope Z_scope.

(** ** Sized integer types *)

Module CInt.

Definition I32_MIN : Z := - 2 ^ 31.
Definition I32_MAX : Z := 2 ^ 31 - 1.
Definition U16_MAX : Z := 2 ^ 16 - 1.
Definition U8_MAX : Z := 255.

(** Conversion to [I32], [U16], [U8]: reduction modulo the width. *)
Definition i32 (x : Z) : Z := (x + 2 ^ 31) mod 2 ^ 32 - 2 ^ 31.
Definition u16 (x : Z) : Z := x mod 2 ^ 16.
Definition u8 (x : Z) : Z := x mod 2 ^ 8.

Definition is_i32 (x : Z) : Prop := I32_MIN <= x <= I32_MAX.
Definition is_u16 (x : Z) : Prop := 0 <= x <= U16_MAX.
Definition is_u8 (x : Z) : Prop := 0 <= x <= U8_MAX.

Definition is_u16b (x : Z) : bool := (0 <=? x) && (x <=? U16_MAX).
Definition is_u8b (x : Z) : bool := (0 <=? x) && (x <=? U8_MAX).

(** [I32] arithmetic. *)
Definition add32 (a b : Z) : Z := i32 (a + b).
Definition sub32 (a b : Z) : Z := i32 (a - b).
Definition mul32 (a b : Z) : Z := i32 (a * b).
Definition neg32 (a : Z) : Z := i32 (- a).
(** [a % b] and [a / b] on [int]: truncation toward zero. *)
Definition rem32 (a b : Z) : Z := Z.rem a b.
Definition div32 (a b : Z) : Z := Z.quot a b.
(** [a >> n] on a non-negative [int], for a count [0 <= n < 32]; C leaves
    the shift by another count undefined, and [shr] says nothing about the
    code there. *)
Definition shr (a n : Z) : Z := Z.shiftr a n.

End CInt.
Export CInt.

Declare Scope c_scope.
Delimit Scope c_scope with C.
Notation "a [+] b" := (add32 a b) (at level 50, left associativity) : c_scope.
Notation "a [-] b" := (sub32 a b) (at level 50, left associativity) : c_scope.
Notation "a [*] b" := (mul32 a b) (at level 40, left associativity) : c_scope.
Notation "a [%] b" := (rem32 a b) (at level 40, left associativity) : c_scope.
Notation "a [>>] n" := (shr a n) (at level 50, left associativity) : c_scope.
#[local] Open Scope c_scope.

(** ** Data model (demosaic_types_pub.h) *)

Definition F64 : Type := spec_float.

(** luma coefficients for converting RGB to monochrome *)
Record demosaic_luma_coefs : Type := mk_coefs {
  coef_red : F64;
  coef_green : F64;
  coef_blue : F64
}.

(** arguments for the demosaicing operation *)
Record demosaic_args : Type := mk_args {
  n_rows : Z;        (* I32 *)
  n_cols : Z;        (* I32 *)
  max_val : Z;       (* U16 *)
  rshift : Z;        (* I32 *)
  coefs : demosaic_luma_coefs
}.

(** An rgb pixel; the fields are [U16] in [demosaic_pix_rgb16] and [U8] in
    [demosaic_pix_rgb8]. *)
Record demosaic_pix_rgb : Type := mk_pix {
  red : Z;
  green : Z;
  blue : Z
}.
Definition demosaic_pix_rgb16 : Type := demosaic_pix_rgb.
Definition demosaic_pix_rgb8 : Type := demosaic_pix_rgb.

(** The fields of [args] hold values of their C types. *)
Record args_typed (args : demosaic_args) : Prop := mk_args_typed {
  typed_n_rows : is_i32 (n_rows args);
  typed_n_cols : is_i32 (n_cols args);
  typed_max_val : is_u16 (max_val args);
  typed_rshift : is_i32 (rshift args)
}.

(** A buffer of [U16] (or [U8]) samples. *)
Definition buffer16 (bayer : list Z) : Prop := Forall is_u16 bayer.
Definition buffer8 (bayer : list Z) : Prop := Forall is_u8 bayer.

(** ** Buffer access *)

(** [bayer[i]], for an index inside the buffer.  Reading outside the buffer
    is undefined in C, and the 0 it yields here says nothing about the
    code: under [image_in_buffer] no index the code computes leaves the
    buffer. *)
Definition load (bayer : list Z) (i : Z) : Z :=
  if 0 <=? i then default 0 (bayer !! Z.to_nat i) else 0.

(** The flat index [(n_cols)*(row)+(col)], an [I32] expression. *)
Definition pix_index (n_cols row col : Z) : Z := n_cols [*] row [+] col.

(** [#define GET_PIX(bayer, n_cols, row, col) ((bayer)[(n_cols)*(row)+(col)])] *)
Definition GET_PIX (bayer : list Z) (n_cols row col : Z) : Z :=
  load bayer (pix_index n_cols row col).

(** [#define DM_LIMIT(x, min, max)
      ( ( (x) >= (max) ) ? (max) : ( ( (x) <= (min) ) ? (min) : (x) ) )] *)
Definition DM_LIMIT (x min max : Z) : Z :=
  if x >=? max then max else if x <=? min then min else x.

(** get pixel. if out of bounds, get closest pixel of same bayer color *)
Definition get_pixel16_safe (bayer : list Z) (n_rows n_cols row col : Z) : Z :=
  let row := if row <? 0 then (neg32 row) [%] 2 else row in
  let row := if row >=? n_rows then n_rows [-] 2 [+] (row [%] 2) else row in
  let col := if col <? 0 then (neg32 col) [%] 2 else col in
  let col := if col >=? n_cols then n_cols [-] 2 [+] (col [%] 2) else col in
  load bayer (n_cols [*] row [+] col).

Definition get_pixel8_safe (bayer : list Z) (n_rows n_cols row col : Z) : Z :=
  let row := if row <? 0 then (neg32 row) [%] 2 else row in
  let row := if row >=? n_rows then n_rows [-] 2 [+] (row [%] 2) else row in
  let col := if col <? 0 then (neg32 col) [%] 2 else col in
  let col := if col >=? n_cols then n_cols [-] 2 [+] (col [%] 2) else col in
  load bayer (n_cols [*] row [+] col).

(** ** Interpolation kernels

    Each kernel is one expression of the source, a sum of samples times
    constant weights evaluated in [I32]; the expression occurs once per safe
    helper (over [get_pixel16_safe] or [get_pixel8_safe]) and once per use in
    the inner loops of the optimized row functions (over [GET_PIX]), always
    with the same weights in the same order.  [pix row col] stands for the
    accessor with its first arguments applied. *)

Section Kernels.

Variable pix : Z -> Z -> Z.

(** Malvar Fig 2, G at R (or B) locations; divided by 8.
<<
     -1
     +2
 -1 +2 +4 +2 -1
     +2
     -1
>> *)
Definition green_sum (row col : Z) : Z :=
      pix (row [-] 2) (col [+] 0) [*] (-1)
  [+] pix (row [-] 1) (col [+] 0) [*] 2
  [+] pix (row [+] 0) (col [-] 2) [*] (-1)
  [+] pix (row [+] 0) (col [-] 1) [*] 2
  [+] pix (row [+] 0) (col [+] 0) [*] 4
  [+] pix (row [+] 0) (col [+] 1) [*] 2
  [+] pix (row [+] 0) (col [+] 2) [*] (-1)
  [+] pix (row [+] 1) (col [+] 0) [*] 2
  [+] pix (row [+] 2) (col [+] 0) [*] (-1).

(** R at green in R row, B column and B at green in B row, R column;
    divided by 16.
<<
     +1
  -2     -2
 -2 +8 +10 +8 -2
  -2     -2
     +1
>> *)
Definition row_sum (row col : Z) : Z :=
      pix (row [-] 2) (col [+] 0) [*] 1
  [+] pix (row [-] 1) (col [-] 1) [*] (-2)
  [+] pix (row [-] 1) (col [+] 1) [*] (-2)
  [+] pix (row [+] 0) (col [-] 2) [*] (-2)
  [+] pix (row [+] 0) (col [-] 1) [*] 8
  [+] pix (row [+] 0) (col [+] 0) [*] 10
  [+] pix (row [+] 0) (col [+] 1) [*] 8
  [+] pix (row [+] 0) (col [+] 2) [*] (-2)
  [+] pix (row [+] 1) (col [-] 1) [*] (-2)
  [+] pix (row [+] 1) (col [+] 1) [*] (-2)
  [+] pix (row [+] 2) (col [+] 0) [*] 1.

(** R at green in B row, R column and B at green in R row, B column;
    divided by 16.
<<
     -2
  -2 +8 -2
 +1   +10    +1
  -2 +8 -2
     -2
>> *)
Definition column_sum (row col : Z) : Z :=
      pix (row [-] 2) (col [+] 0) [*] (-2)
  [+] pix (row [-] 1) (col [-] 1) [*] (-2)
  [+] pix (row [-] 1) (col [+] 0) [*] 8
  [+] pix (row [-] 1) (col [+] 1) [*] (-2)
  [+] pix (row [+] 0) (col [-] 2) [*] 1
  [+] pix (row [+] 0) (col [+] 0) [*] 10
  [+] pix (row [+] 0) (col [+] 2) [*] 1
  [+] pix (row [+] 1) (col [-] 1) [*] (-2)
  [+] pix (row [+] 1) (col [+] 0) [*] 8
  [+] pix (row [+] 1) (col [+] 1) [*] (-2)
  [+] pix (row [+] 2) (col [+] 0) [*] (-2).

(** R at blue in B row, B column and B at red in R row, R column;
    divided by 16.
<<
     -3
  +4    +4
 -3   +12    -3
  +4    +4
     -3
>> *)
Definition opposite_sum (row col : Z) : Z :=
      pix (row [-] 2) (col [+] 0) [*] (-3)
  [+] pix (row [-] 1) (col [-] 1) [*] 4
  [+] pix (row [-] 1) (col [+] 1) [*] 4
  [+] pix (row [+] 0) (col [-] 2) [*] (-3)
  [+] pix (row [+] 0) (col [+] 0) [*] 12
  [+] pix (row [+] 0) (col [+] 2) [*] (-3)
  [+] pix (row [+] 1) (col [-] 1) [*] 4
  [+] pix (row [+] 1) (col [+] 1) [*] 4
  [+] pix (row [+] 2) (col [+] 0) [*] (-3).

End Kernels.

(** *** The kernels over an arithmetic

    The four expressions once more, over the operations of an arbitrary
    arithmetic.  Over the wrapping operations of [I32] they are the kernels
    above; over the checked operations below they tell whether any
    operation of the expression (a coordinate, a product, a partial sum)
    leaves the range of [I32]. *)

Section KernelExpressions.

Context {T : Type}.
Variables (add sub mul : T -> T -> T) (int : Z -> T) (pix : T -> T -> T).

#[local] Notation "a +! b" := (add a b) (at level 50, left associativity).
#[local] Notation "a -! b" := (sub a b) (at level 50, left associativity).
#[local] Notation "a *! b" := (mul a b) (at level 40, left associativity).

Definition green_sum_over (row col : T) : T :=
     pix (row -! int 2) (col +! int 0) *! int (-1)
  +! pix (row -! int 1) (col +! int 0) *! int 2
  +! pix (row +! int 0) (col -! int 2) *! int (-1)
  +! pix (row +! int 0) (col -! int 1) *! int 2
  +! pix (row +! int 0) (col +! int 0) *! int 4
  +! pix (row +! int 0) (col +! int 1) *! int 2
  +! pix (row +! int 0) (col +! int 2) *! int (-1)
  +! pix (row +! int 1) (col +! int 0) *! int 2
  +! pix (row +! int 2) (col +! int 0) *! int (-1).

Definition row_sum_over (row col : T) : T :=
     pix (row -! int 2) (col +! int 0) *! int 1
  +! pix (row -! int 1) (col -! int 1) *! int (-2)
  +! pix (row -! int 1) (col +! int 1) *! int (-2)
  +! pix (row +! int 0) (col -! int 2) *! int (-2)
  +! pix (row +! int 0) (col -! int 1) *! int 8
  +! pix (row +! int 0) (col +! int 0) *! int 10
  +! pix (row +! int 0) (col +! int 1) *! int 8
  +! pix (row +! int 0) (col +! int 2) *! int (-2)
  +! pix (row +! int 1) (col -! int 1) *! int (-2)
  +! pix (row +! int 1) (col +! int 1) *! int (-2)
  +! pix (row +! int 2) (col +! int 0) *! int 1.

Definition column_sum_over (row col : T) : T :=
     pix (row -! int 2) (col +! int 0) *! int (-2)
  +! pix (row -! int 1) (col -! int 1) *! int (-2)
  +! pix (row -! int 1) (col +! int 0) *! int 8
  +! pix (row -! int 1) (col +! int 1) *! int (-2)
  +! pix (row +! int 0) (col -! int 2) *! int 1
  +! pix (row +! int 0) (col +! int 0) *! int 10
  +! pix (row +! int 0) (col +! int 2) *! int 1
  +! pix (row +! int 1) (col -! int 1) *! int (-2)
  +! pix (row +! int 1) (col +! int 0) *! int 8
  +! pix (row +! int 1) (col +! int 1) *! int (-2)
  +! pix (row +! int 2) (col +! int 0) *! int (-2).

Definition opposite_sum_over (row col : T) : T :=
     pix (row -! int 2) (col +! int 0) *! int (-3)
  +! pix (row -! int 1) (col -! int 1) *! int 4
  +! pix (row -! int 1) (col +! int 1) *! int 4
  +! pix (row +! int 0) (col -! int 2) *! int (-3)
  +! pix (row +! int 0) (col +! int 0) *! int 12
  +! pix (row +! int 0) (col +! int 2) *! int (-3)
  +! pix (row +! int 1) (col -! int 1) *! int 4
  +! pix (row +! int 1) (col +! int 1) *! int 4
  +! pix (row +! int 2) (col +! int 0) *! int (-3).

End KernelExpressions.

(** Checked [I32] arithmetic: an operation whose exact result is not
    representable (a signed overflow, undefined in C) gives [None], and so
    does every operation on a [None]. *)
Definition is_i32b (x : Z) : bool := (I32_MIN <=? x) && (x <=? I32_MAX).

Definition checked (op : Z -> Z -> Z) (a b : option Z) : option Z :=
  match a, b with
  | Some x, Some y => if is_i32b (op x y) then Some (op x y) else None
  | _, _ => None
  end.

(** The sample at checked coordinates. *)
Definition sample_at (pix : Z -> Z -> Z) (row col : option Z) : option Z :=
  match row, col with
  | Some r, Some c => Some (pix r c)
  | _, _ => None
  end.

Definition green_sum_checked (pix : Z -> Z -> Z) (row col : Z) : option Z :=
  green_sum_over (checked Z.add) (checked Z.sub) (checked Z.mul) Some
    (sample_at pix) (Some row) (Some col).
Definition row_sum_checked (pix : Z -> Z -> Z) (row col : Z) : option Z :=
  row_sum_over (checked Z.add) (checked Z.sub) (checked Z.mul) Some
    (sample_at pix) (Some row) (Some col).
Definition column_sum_checked (pix : Z -> Z -> Z) (row col : Z) : option Z :=
  column_sum_over (checked Z.add) (checked Z.sub) (checked Z.mul) Some
    (sample_at pix) (Some row) (Some col).
Definition opposite_sum_checked (pix : Z -> Z -> Z) (row col : Z) : option Z :=
  opposite_sum_over (checked Z.add) (checked Z.sub) (checked Z.mul) Some
    (sample_at pix) (Some row) (Some col).

(** interpolate green value from a bayer pixel that is not green *)
Definition get_green16 (bayer : list Z) (args : demosaic_args) (row col : Z) : Z :=
  let n_rows := n_rows args in
  let n_cols := n_cols args in
  let max_val := i32 (max_val args) in
  let val := div32 (green_sum (get_pixel16_safe bayer n_rows n_cols) row col) 8 in
  u16 (DM_LIMIT val 0 max_val).

Definition get_green8 (bayer : list Z) (args : demosaic_args) (row col : Z) : Z :=
  let n_rows := n_rows args in
  let n_cols := n_cols args in
  let max_val := i32 (max_val args) in
  let val := div32 (green_sum (get_pixel8_safe bayer n_rows n_cols) row col) 8 in
  u8 (DM_LIMIT val 0 max_val).

(** interpolate red or blue value from a green bayer pixel value,
    using reds or blues from that row *)
Definition get_red_blue_from_row16 (bayer : list Z) (args : demosaic_args) (row col : Z) : Z :=
  let n_rows := n_rows args in
  let n_cols := n_cols args in
  let max_val := i32 (max_val args) in
  let val := div32 (row_sum (get_pixel16_safe bayer n_rows n_cols) row col) 16 in
  u16 (DM_LIMIT val 0 max_val).

(** The source casts to [U16] and returns a [U8]. *)
Definition get_red_blue_from_row8 (bayer : list Z) (args : demosaic_args) (row col : Z) : Z :=
  let n_rows := n_rows args in
  let n_cols := n_cols args in
  let max_val := i32 (max_val args) in
  let val := div32 (row_sum (get_pixel8_safe bayer n_rows n_cols) row col) 16 in
  u8 (u16 (DM_LIMIT val 0 max_val)).

(** interpolate red or blue value from a green bayer pixel,
    using reds or blues from that column *)
Definition get_red_blue_from_column16 (bayer : list Z) (args : demosaic_args) (row col : Z) : Z :=
  let n_rows := n_rows args in
  let n_cols := n_cols args in
  let max_val := i32 (max_val args) in
  let val := div32 (column_sum (get_pixel16_safe bayer n_rows n_cols) row col) 16 in
  u16 (DM_LIMIT val 0 max_val).

Definition get_red_blue_from_column8 (bayer : list Z) (args : demosaic_args) (row col : Z) : Z :=
  let n_rows := n_rows args in
  let n_cols := n_cols args in
  let max_val := i32 (max_val args) in
  let val := div32 (column_sum (get_pixel8_safe bayer n_rows n_cols) row col) 16 in
  u8 (u16 (DM_LIMIT val 0 max_val)).

(** get red or blue value from a blue or red bayer pixel, respectively
    using reds or blues from corners *)
Definition get_red_blue_from_opposite16 (bayer : list Z) (args : demosaic_args) (row col : Z) : Z :=
  let n_rows := n_rows args in
  let n_cols := n_cols args in
  let max_val := i32 (max_val args) in
  let val := div32 (opposite_sum (get_pixel16_safe bayer n_rows n_cols) row col) 16 in
  u16 (DM_LIMIT val 0 max_val).

Definition get_red_blue_from_opposite8 (bayer : list Z) (args : demosaic_args) (row col : Z) : Z :=
  let n_rows := n_rows args in
  let n_cols := n_cols args in
  let max_val := i32 (max_val args) in
  let val := div32 (opposite_sum (get_pixel8_safe bayer n_rows n_cols) row col) 16 in
  u8 (u16 (DM_LIMIT val 0 max_val)).

(** ** Pixel assemblers

    Each helper of the source fills [*output_pixel]; here it returns the
    pixel.  A value stored into a [U8] field is converted with [u8]. *)

(** get 16-bit rgb pixel from 16-bit bayer at red *)
Definition get_rgb16_at_red16 (bayer : list Z) (args : demosaic_args) (row col : Z)
  : demosaic_pix_rgb16 :=
  {| red := get_pixel16_safe bayer (n_rows args) (n_cols args) row col;
     green := get_green16 bayer args row col;
     blue := get_red_blue_from_opposite16 bayer args row col |}.

(** get 8-bit rgb pixel from 8-bit bayer at red *)
Definition get_rgb8_at_red8 (bayer : list Z) (args : demosaic_args) (row col : Z)
  : demosaic_pix_rgb8 :=
  {| red := get_pixel8_safe bayer (n_rows args) (n_cols args) row col;
     green := get_green8 bayer args row col;
     blue := get_red_blue_from_opposite8 bayer args row col |}.

(** get 8-bit rgb pixel from 16-bit bayer at red *)
Definition get_rgb8_at_red16 (bayer : list Z) (args : demosaic_args) (row col : Z)
  : demosaic_pix_rgb8 :=
  {| red := u8 (get_pixel16_safe bayer (n_rows args) (n_cols args) row col
                [>>] rshift args);
     green := u8 (get_green16 bayer args row col [>>] rshift args);
     blue := u8 (get_red_blue_from_opposite16 bayer args row col [>>] rshift args) |}.

(** get 16-bit rgb pixel from 16-bit bayer at green in red-green row *)
Definition get_rgb16_at_green_rg16 (bayer : list Z) (args : demosaic_args) (row col : Z)
  : demosaic_pix_rgb16 :=
  {| red := get_red_blue_from_row16 bayer args row col;
     green := get_pixel16_safe bayer (n_rows args) (n_cols args) row col;
     blue := get_red_blue_from_column16 bayer args row col |}.

(** get 8-bit rgb pixel from 8-bit bayer at green in red-green row *)
Definition get_rgb8_at_green_rg8 (bayer : list Z) (args : demosaic_args) (row col : Z)
  : demosaic_pix_rgb8 :=
  {| red := get_red_blue_from_row8 bayer args row col;
     green := get_pixel8_safe bayer (n_rows args) (n_cols args) row col;
     blue := get_red_blue_from_column8 bayer args row col |}.

(** get 8-bit rgb pixel from 16-bit bayer at green in red-green row *)
Definition get_rgb8_at_green_rg16 (bayer : list Z) (args : demosaic_args) (row col : Z)
  : demosaic_pix_rgb8 :=
  {| red := u8 (get_red_blue_from_row16 bayer args row col [>>] rshift args);
     green := u8 (get_pixel16_safe bayer (n_rows args) (n_cols args) row col
                  [>>] rshift args);
     blue := u8 (get_red_blue_from_column16 bayer args row col [>>] rshift args) |}.

(** get 16-bit rgb pixel from 16-bit bayer at green in green-blue row *)
Definition get_rgb16_at_green_gb16 (bayer : list Z) (args : demosaic_args) (row col : Z)
  : demosaic_pix_rgb16 :=
  {| red := get_red_blue_from_column16 bayer args row col;
     green := get_pixel16_safe bayer (n_rows args) (n_cols args) row col;
     blue := get_red_blue_from_row16 bayer args row col |}.

(** get 8-bit rgb pixel from 8-bit bayer at green in green-blue row *)
Definition get_rgb8_at_green_gb8 (bayer : list Z) (args : demosaic_args) (row col : Z)
  : demosaic_pix_rgb8 :=
  {| red := get_red_blue_from_column8 bayer args row col;
     green := get_pixel8_safe bayer (n_rows args) (n_cols args) row col;
     blue := get_red_blue_from_row8 bayer args row col |}.

(** get 8-bit rgb pixel from 16-bit bayer at green in green-blue row *)
Definition get_rgb8_at_green_gb16 (bayer : list Z) (args : demosaic_args) (row col : Z)
  : demosaic_pix_rgb8 :=
  {| red := u8 (get_red_blue_from_column16 bayer args row col [>>] rshift args);
     green := u8 (get_pixel16_safe bayer (n_rows args) (n_cols args) row col
                  [>>] rshift args);
     blue := u8 (get_red_blue_from_row16 bayer args row col [>>] rshift args) |}.

(** get 16-bit rgb pixel from 16-bit bayer at blue *)
Definition get_rgb16_at_blue16 (bayer : list Z) (args : demosaic_args) (row col : Z)
  : demosaic_pix_rgb16 :=
  {| red := get_red_blue_from_opposite16 bayer args row col;
     green := get_green16 bayer args row col;
     blue := get_pixel16_safe bayer (n_rows args) (n_cols args) row col |}.

(** get 8-bit rgb pixel from 8-bit bayer at blue *)
Definition get_rgb8_at_blue8 (bayer : list Z) (args : demosaic_args) (row col : Z)
  : demosaic_pix_rgb8 :=
  {| red := get_red_blue_from_opposite8 bayer args row col;
     green := get_green8 bayer args row col;
     blue := get_pixel8_safe bayer (n_rows args) (n_cols args) row col |}.

(** get 8-bit rgb pixel from 16-bit bayer at blue *)
Definition get_rgb8_at_blue16 (bayer : list Z) (args : demosaic_args) (row col : Z)
  : demosaic_pix_rgb8 :=
  {| red := u8 (get_red_blue_from_opposite16 bayer args row col [>>] rshift args);
     green := u8 (get_green16 bayer args row col [>>] rshift args);
     blue := u8 (get_pixel16_safe bayer (n_rows args) (n_cols args) row col
                 [>>] rshift args) |}.

(** ** Binary64 arithmetic and the luma mixer *)

Module F64ops.

Definition prec : Z := 53.
Definition emax : Z := 1024.

Definition add : F64 -> F64 -> F64 := SFadd prec emax.
Definition mul : F64 -> F64 -> F64 := SFmul prec emax.
Definition div : F64 -> F64 -> F64 := SFdiv prec emax.
Definition ltb : F64 -> F64 -> bool := SFltb.
Definition leb : F64 -> F64 -> bool := SFleb.

(** Conversion of an integer to [double]: exact below [2 ^ 53]. *)
Definition of_int (n : Z) : F64 := binary_normalize prec emax n 0 false.

(** Conversion of a [double] to an integer type: the fraction is
    discarded.  C leaves the conversion of a NaN, of an infinity and of a
    value outside the target type undefined; here the first two give 0 and
    the caller reduces the integer modulo the width of the target. *)
Definition to_int (x : F64) : Z :=
  match x with
  | S754_finite s m e => cond_Zopp s (Z.shiftl (Z.pos m) e)
  | _ => 0
  end.

(** The literals [0], [1] (and [1.0]), [0.5] and [0.000001]. *)
Definition zero : F64 := S754_zero false.
Definition one : F64 := S754_finite false 4503599627370496 (-52).
Definition half : F64 := S754_finite false 4503599627370496 (-53).
Definition millionth : F64 := S754_finite false 4722366482869645 (-72).

End F64ops.

(** [coefs_normed.red * red + coefs_normed.green * green
      + coefs_normed.blue * blue + 0.5], the expression every mono row
    function stores into [output_row[col]]; [red], [green] and [blue] are
    integers ([U16] or [U8] fields of [rgb], or [I32] locals) converted to
    [double]. *)
Definition luma (coefs_normed : demosaic_luma_coefs) (red green blue : Z) : F64 :=
  F64ops.add
    (F64ops.add
       (F64ops.add
          (F64ops.mul (coef_red coefs_normed) (F64ops.of_int red))
          (F64ops.mul (coef_green coefs_normed) (F64ops.of_int green)))
       (F64ops.mul (coef_blue coefs_normed) (F64ops.of_int blue)))
    F64ops.half.

(** The store of that [double] into a [U16] or [U8] element. *)
Definition luma16 (coefs_normed : demosaic_luma_coefs) (rgb : demosaic_pix_rgb) : Z :=
  u16 (F64ops.to_int (luma coefs_normed (red rgb) (green rgb) (blue rgb))).
Definition luma8 (coefs_normed : demosaic_luma_coefs) (rgb : demosaic_pix_rgb) : Z :=
  u8 (F64ops.to_int (luma coefs_normed (red rgb) (green rgb) (blue rgb))).

(** normalize coefficients:
<<
    F64 coef_sum = args->coefs.red + args->coefs.green + args->coefs.blue
            + 0.000001;
    coefs_normed.red = args->coefs.red / coef_sum;  (green, blue alike)
>> *)
Definition normalize_coefs (c : demosaic_luma_coefs) : demosaic_luma_coefs :=
  let coef_sum :=
    F64ops.add (F64ops.add (F64ops.add (coef_red c) (coef_green c)) (coef_blue c))
               F64ops.millionth in
  {| coef_red := F64ops.div (coef_red c) coef_sum;
     coef_green := F64ops.div (coef_green c) coef_sum;
     coef_blue := F64ops.div (coef_blue c) coef_sum |}.

(** [coef_sum = coefs_normed.red + coefs_normed.green + coefs_normed.blue] *)
Definition normed_sum (coefs_normed : demosaic_luma_coefs) : F64 :=
  F64ops.add (F64ops.add (coef_red coefs_normed) (coef_green coefs_normed))
             (coef_blue coefs_normed).

(** [0 <= c && c <= 1] *)
Definition coef_in_unit (c : F64) : bool :=
  F64ops.leb F64ops.zero c && F64ops.leb c F64ops.one.

(** ** The value of a [double]

    The real number a finite [double] stands for, and the classes of
    [double]s the row functions meet: their coefficients are not negative,
    and neither is anything computed from them. *)

Definition bpow (e : Z) : R := powerRZ 2 e.

Definition value (x : F64) : R :=
  match x with
  | S754_finite s m e => (IZR (cond_Zopp s (Z.pos m)) * bpow e)%R
  | _ => 0%R
  end.

(** A zero of either sign or a positive finite number. *)
Definition finite_nonneg (x : F64) : Prop :=
  match x with
  | S754_zero _ | S754_finite false _ _ => True
  | _ => False
  end.

(** As above, or [+infinity], or a NaN. *)
Definition not_negative (x : F64) : Prop :=
  match x with
  | S754_zero _ | S754_nan | S754_infinity false | S754_finite false _ _ => True
  | _ => False
  end.

(** As above, but for the negative zero: dividing a positive number by one
    of these does not give [-infinity]. *)
Definition divisor_class (x : F64) : Prop :=
  match x with
  | S754_zero false | S754_nan | S754_infinity false | S754_finite false _ _ => True
  | _ => False
  end.

Definition overflowed (x : F64) : Prop := x = S754_nan \/ x = S754_infinity false.

(** The mantissa fits the 53 bits of the format. *)
Definition bounded_mantissa (x : F64) : Prop :=
  match x with
  | S754_finite _ m _ => Z.pos m < 2 ^ 53
  | _ => True
  end.

(** What [binary_round_aux] makes of the mantissa and the exponent it has
    arrived at. *)
Definition pack (m e : Z) : F64 :=
  match m with
  | Z0 => S754_zero false
  | Z.pos q => if e <=? 971 then S754_finite false q e else S754_infinity false
  | Z.neg _ => S754_nan
  end.

(** The outcome of an operation on non-negative operands of exact result
    [y]: an overflow, or a finite non-negative [double] within the standard
    model of [y] (relative error [3 * 2 ^ -52], absolute error
    [3 * 2 ^ -1074]). *)
Definition rounds_to (r : F64) (y : R) : Prop :=
  (r = S754_infinity false /\ (bpow 971 <= y)%R) \/
  (finite_nonneg r /\
   (y - 3 * (y * bpow (-52) + bpow (-1074)) <= value r
    <= y + 3 * (y * bpow (-52) + bpow (-1074)))%R).

(** ** Assertions, the output row and loops

    A row function runs against the output row it was given: [None] when
    [output_row] is [NULL], the contents of the row otherwise.  It ends by
    returning ([Done]), by invoking the host's fatal-assertion handler
    ([Fatal]; the handler does not return control) or, in this embedding
    only, by exhausting the fuel of a loop. *)

Inductive outcome (A : Type) : Type :=
| Done (a : A)
| Fatal
| OutOfFuel.
Arguments Done {A} a.
Arguments Fatal {A}.
Arguments OutOfFuel {A}.

Section RowMonad.

Context {P : Type}.

Definition M (A : Type) : Type :=
  option (list P) -> outcome A * option (list P).

Definition ret {A : Type} (a : A) : M A := fun s => (Done a, s).

Definition bind {A B : Type} (m : M A) (k : A -> M B) : M B :=
  fun s =>
    match m s with
    | (Done a, s') => k a s'
    | (Fatal, s') => (Fatal, s')
    | (OutOfFuel, s') => (OutOfFuel, s')
    end.

(** [DEMOSAIC_ASSERT(test)], [DEMOSAIC_ASSERT_1], [DEMOSAIC_ASSERT_2] and
    [DEMOSAIC_ASSERT_DBL_1]: the diagnostic arguments do not matter. *)
Definition DEMOSAIC_ASSERT (test : bool) : M unit :=
  fun s => (if test then Done tt else Fatal, s).

(** [DEMOSAIC_ASSERT(p != NULL)] for an input pointer, giving the pointee. *)
Definition ASSERT_NOT_NULL {A : Type} (p : option A) : M A :=
  fun s => match p with Some a => (Done a, s) | None => (Fatal, s) end.

(** [DEMOSAIC_ASSERT(output_row != NULL)] *)
Definition ASSERT_OUTPUT_NOT_NULL : M unit :=
  fun s => match s with Some _ => (Done tt, s) | None => (Fatal, s) end.

(** [out[col] = v]; a store outside the row is undefined in C and leaves
    the row as it is here. *)
Definition write (out : list P) (col : Z) (v : P) : list P :=
  if 0 <=? col then <[Z.to_nat col := v]> out else out.

(** [output_row[col] = v] *)
Definition store (col : Z) (v : P) : M unit :=
  fun s => (Done tt, (fun out => write out col v) <$> s).

(** [while (test col) { col = body col }] *)
Fixpoint while (fuel : nat) (test : Z -> bool) (body : Z -> M Z) (col : Z) : M Z :=
  if test col then
    match fuel with
    | O => fun s => (OutOfFuel, s)
    | S fuel => bind (body col) (while fuel test body)
    end
  else ret col.

(** The body of every column loop: the pixel at [col], [++col], the pixel
    at [col], [++col]. *)
Definition two_pixels (first second : Z -> P) (col : Z) : M Z :=
  bind (store col (first col)) (fun _ =>
  let col := col [+] 1 in
  bind (store col (second col)) (fun _ =>
  let col := col [+] 1 in
  ret col)).

End RowMonad.

Notation "x <- m ;; k" := (bind m (fun x => k))
  (at level 100, m at next level, right associativity) : c_scope.
Notation "m ;; k" := (bind m (fun _ => k))
  (at level 100, right associativity) : c_scope.

(** assert dimensions are properly sized *)
Definition demosaic_malvar_assert_proper_dimensions {P : Type}
    (args : demosaic_args) : M (P := P) unit :=
  (* assert at least 2x2 image *)
  DEMOSAIC_ASSERT (n_cols args >=? 2) ;;
  DEMOSAIC_ASSERT (n_rows args >=? 2) ;;
  (* assert even number of rows and columns *)
  DEMOSAIC_ASSERT (n_cols args [%] 2 =? 0) ;;
  DEMOSAIC_ASSERT (n_rows args [%] 2 =? 0).

(** assert coefficients are in [0,1], normalize coefficients, assert that
    the normalized sum is below [1.0]; gives [coefs_normed]. *)
Definition demosaic_normalize_coefs {P : Type}
    (args : demosaic_args) : M (P := P) demosaic_luma_coefs :=
  DEMOSAIC_ASSERT (coef_in_unit (coef_red (coefs args))) ;;
  DEMOSAIC_ASSERT (coef_in_unit (coef_green (coefs args))) ;;
  DEMOSAIC_ASSERT (coef_in_unit (coef_blue (coefs args))) ;;
  let coefs_normed := normalize_coefs (coefs args) in
  let coef_sum := normed_sum coefs_normed in
  DEMOSAIC_ASSERT (F64ops.ltb coef_sum F64ops.one) ;;
  ret coefs_normed.

(** ** Unoptimized row functions *)

(** demosaic 16 bit bayer to 16 bit rgb, without optimizations *)
Definition demosaic_malvar_row_rgb16_unoptimized
    (bayer : option (list Z)) (args : option demosaic_args) (row : Z)
  : M (P := demosaic_pix_rgb16) unit :=
  (* assert pointers not null *)
  bayer <- ASSERT_NOT_NULL bayer ;;
  args <- ASSERT_NOT_NULL args ;;
  ASSERT_OUTPUT_NOT_NULL ;;
  (* assert even rows and columns, at least 2x2 *)
  demosaic_malvar_assert_proper_dimensions args ;;
  (* assert row is in image *)
  DEMOSAIC_ASSERT ((0 <=? row) && (row <? n_rows args)) ;;
  let n_cols := n_cols args in
  let col := 0 in
  if row [%] 2 =? 0 then (* red-green row *)
    while (Z.to_nat n_cols) (fun col => col <? n_cols)
      (two_pixels (fun col => get_rgb16_at_red16 bayer args row col)
                  (fun col => get_rgb16_at_green_rg16 bayer args row col)) col ;;
    ret tt
  else (* green-blue row *)
    while (Z.to_nat n_cols) (fun col => col <? n_cols)
      (two_pixels (fun col => get_rgb16_at_green_gb16 bayer args row col)
                  (fun col => get_rgb16_at_blue16 bayer args row col)) col ;;
    ret tt.

(** demosaic 8 bit bayer to 8 bit rgb, without optimizations *)
Definition demosaic_malvar_row_rgb8_unoptimized
    (bayer : option (list Z)) (args : option demosaic_args) (row : Z)
  : M (P := demosaic_pix_rgb8) unit :=
  bayer <- ASSERT_NOT_NULL bayer ;;
  args <- ASSERT_NOT_NULL args ;;
  ASSERT_OUTPUT_NOT_NULL ;;
  demosaic_malvar_assert_proper_dimensions args ;;
  DEMOSAIC_ASSERT ((0 <=? row) && (row <? n_rows args)) ;;
  (* assert max val is 255 or less *)
  DEMOSAIC_ASSERT (max_val args <=? U8_MAX) ;;
  let n_cols := n_cols args in
  let col := 0 in
  if row [%] 2 =? 0 then
    while (Z.to_nat n_cols) (fun col => col <? n_cols)
      (two_pixels (fun col => get_rgb8_at_red8 bayer args row col)
                  (fun col => get_rgb8_at_green_rg8 bayer args row col)) col ;;
    ret tt
  else
    while (Z.to_nat n_cols) (fun col => col <? n_cols)
      (two_pixels (fun col => get_rgb8_at_green_gb8 bayer args row col)
                  (fun col => get_rgb8_at_blue8 bayer args row col)) col ;;
    ret tt.

(** demosaic 16 bit bayer to 8 bit rgb, without optimizations *)
Definition demosaic_malvar_row_rgb16to8_unoptimized
    (bayer : option (list Z)) (args : option demosaic_args) (row : Z)
  : M (P := demosaic_pix_rgb8) unit :=
  bayer <- ASSERT_NOT_NULL bayer ;;
  args <- ASSERT_NOT_NULL args ;;
  ASSERT_OUTPUT_NOT_NULL ;;
  demosaic_malvar_assert_proper_dimensions args ;;
  DEMOSAIC_ASSERT ((0 <=? row) && (row <? n_rows args)) ;;
  (* assert shift is not negative *)
  DEMOSAIC_ASSERT (rshift args >=? 0) ;;
  (* assert max val can be shifted to 8 bits *)
  DEMOSAIC_ASSERT ((max_val args [>>] rshift args) <=? U8_MAX) ;;
  let n_cols := n_cols args in
  let col := 0 in
  if row [%] 2 =? 0 then
    while (Z.to_nat n_cols) (fun col => col <? n_cols)
      (two_pixels (fun col => get_rgb8_at_red16 bayer args row col)
                  (fun col => get_rgb8_at_green_rg16 bayer args row col)) col ;;
    ret tt
  else
    while (Z.to_nat n_cols) (fun col => col <? n_cols)
      (two_pixels (fun col => get_rgb8_at_green_gb16 bayer args row col)
                  (fun col => get_rgb8_at_blue16 bayer args row col)) col ;;
    ret tt.

(** demosaic 16 bit bayer to 16 bit mono, without optimizations *)
Definition demosaic_malvar_row_mono16_unoptimized
    (bayer : option (list Z)) (args : option demosaic_args) (row : Z)
  : M (P := Z) unit :=
  bayer <- ASSERT_NOT_NULL bayer ;;
  args <- ASSERT_NOT_NULL args ;;
  ASSERT_OUTPUT_NOT_NULL ;;
  demosaic_malvar_assert_proper_dimensions args ;;
  DEMOSAIC_ASSERT ((0 <=? row) && (row <? n_rows args)) ;;
  coefs_normed <- demosaic_normalize_coefs args ;;
  let ncol := n_cols args in
  let col := 0 in
  if row [%] 2 =? 0 then
    while (Z.to_nat ncol) (fun col => col <? ncol)
      (two_pixels
         (fun col => luma16 coefs_normed (get_rgb16_at_red16 bayer args row col))
         (fun col => luma16 coefs_normed (get_rgb16_at_green_rg16 bayer args row col)))
      col ;;
    ret tt
  else
    while (Z.to_nat ncol) (fun col => col <? ncol)
      (two_pixels
         (fun col => luma16 coefs_normed (get_rgb16_at_green_gb16 bayer args row col))
         (fun col => luma16 coefs_normed (get_rgb16_at_blue16 bayer args row col)))
      col ;;
    ret tt.

(** demosaic 8 bit bayer to 8 bit mono, without optimizations *)
Definition demosaic_malvar_row_mono8_unoptimized
    (bayer : option (list Z)) (args : option demosaic_args) (row : Z)
  : M (P := Z) unit :=
  bayer <- ASSERT_NOT_NULL bayer ;;
  args <- ASSERT_NOT_NULL args ;;
  ASSERT_OUTPUT_NOT_NULL ;;
  demosaic_malvar_assert_proper_dimensions args ;;
  DEMOSAIC_ASSERT ((0 <=? row) && (row <? n_rows args)) ;;
  DEMOSAIC_ASSERT (max_val args <=? U8_MAX) ;;
  coefs_normed <- demosaic_normalize_coefs args ;;
  let ncol := n_cols args in
  let col := 0 in
  if row [%] 2 =? 0 then
    while (Z.to_nat ncol) (fun col => col <? ncol)
      (two_pixels
         (fun col => luma8 coefs_normed (get_rgb8_at_red8 bayer args row col))
         (fun col => luma8 coefs_normed (get_rgb8_at_green_rg8 bayer args row col)))
      col ;;
    ret tt
  else
    while (Z.to_nat ncol) (fun col => col <? ncol)
      (two_pixels
         (fun col => luma8 coefs_normed (get_rgb8_at_green_gb8 bayer args row col))
         (fun col => luma8 coefs_normed (get_rgb8_at_blue8 bayer args row col)))
      col ;;
    ret tt.

(** demosaic 16 bit bayer to 8 bit mono, without optimizations; the source
    asserts the dimensions twice and the coefficient ranges before the
    shift. *)
Definition demosaic_malvar_row_mono16to8_unoptimized
    (bayer : option (list Z)) (args : option demosaic_args) (row : Z)
  : M (P := Z) unit :=
  bayer <- ASSERT_NOT_NULL bayer ;;
  args <- ASSERT_NOT_NULL args ;;
  ASSERT_OUTPUT_NOT_NULL ;;
  demosaic_malvar_assert_proper_dimensions args ;;
  demosaic_malvar_assert_proper_dimensions args ;;
  DEMOSAIC_ASSERT ((0 <=? row) && (row <? n_rows args)) ;;
  DEMOSAIC_ASSERT (coef_in_unit (coef_red (coefs args))) ;;
  DEMOSAIC_ASSERT (coef_in_unit (coef_green (coefs args))) ;;
  DEMOSAIC_ASSERT (coef_in_unit (coef_blue (coefs args))) ;;
  DEMOSAIC_ASSERT (rshift args >=? 0) ;;
  DEMOSAIC_ASSERT ((max_val args [>>] rshift args) <=? U8_MAX) ;;
  let coefs_normed := normalize_coefs (coefs args) in
  let coef_sum := normed_sum coefs_normed in
  DEMOSAIC_ASSERT (F64ops.ltb coef_sum F64ops.one) ;;
  let ncol := n_cols args in
  let col := 0 in
  if row [%] 2 =? 0 then
    while (Z.to_nat ncol) (fun col => col <? ncol)
      (two_pixels
         (fun col => luma8 coefs_normed (get_rgb8_at_red16 bayer args row col))
         (fun col => luma8 coefs_normed (get_rgb8_at_green_rg16 bayer args row col)))
      col ;;
    ret tt
  else
    while (Z.to_nat ncol) (fun col => col <? ncol)
      (two_pixels
         (fun col => luma8 coefs_normed (get_rgb8_at_green_gb16 bayer args row col))
         (fun col => luma8 coefs_normed (get_rgb8_at_blue16 bayer args row col)))
      col ;;
    ret tt.

(** ** Optimized row functions

    The inner loop of an optimized row function computes the three channels
    of a pixel in place, from [GET_PIX] samples: the sample of the pixel's own
    colour goes through [native] (the identity, or [>> rshift]) and the
    kernel quotients through [interp] (the clamp, with the conversion of the
    store).  The four blocks below are the four pixel phases; the source
    repeats them in each of the six functions. *)

Section InnerLoop.

Variables (native interp : Z -> Z) (bayer : list Z) (ncol row : Z).

(** red pixel (red-green row, even column) *)
Definition inner_at_red (col : Z) : demosaic_pix_rgb :=
  let green := div32 (green_sum (GET_PIX bayer ncol) row col) 8 in
  let blue := div32 (opposite_sum (GET_PIX bayer ncol) row col) 16 in
  {| red := native (GET_PIX bayer ncol row col);
     green := interp green;
     blue := interp blue |}.

(** green pixel (red-green row, odd column) *)
Definition inner_at_green_rg (col : Z) : demosaic_pix_rgb :=
  let red := div32 (row_sum (GET_PIX bayer ncol) row col) 16 in
  let blue := div32 (column_sum (GET_PIX bayer ncol) row col) 16 in
  {| red := interp red;
     green := native (GET_PIX bayer ncol row col);
     blue := interp blue |}.

(** green pixel (green-blue row, even column) *)
Definition inner_at_green_gb (col : Z) : demosaic_pix_rgb :=
  let red := div32 (column_sum (GET_PIX bayer ncol) row col) 16 in
  let blue := div32 (row_sum (GET_PIX bayer ncol) row col) 16 in
  {| red := interp red;
     green := native (GET_PIX bayer ncol row col);
     blue := interp blue |}.

(** blue pixel (green-blue row, odd column) *)
Definition inner_at_blue (col : Z) : demosaic_pix_rgb :=
  let red := div32 (opposite_sum (GET_PIX bayer ncol) row col) 16 in
  let green := div32 (green_sum (GET_PIX bayer ncol) row col) 8 in
  {| red := interp red;
     green := interp green;
     blue := native (GET_PIX bayer ncol row col) |}.

End InnerLoop.

(** [(x >= max_val) ? max_val_rshift : (x <= 0) ? 0 : (x >> rshift)] *)
Definition limit_rshift (x max_val max_val_rshift rshift : Z) : Z :=
  if x >=? max_val then max_val_rshift
  else if x <=? 0 then 0
  else x [>>] rshift.

(** Demosaic 16 bit bayer row to 16 bit rgb row.
    If the row is at the top or bottom, use the unoptimized function,
    which ensures that sampling past the image edges does not occur.
    Otherwise, use safe functions at left and right edges, and unsafe macros
    in image interior, where edge testing is known to be unnecessary. *)
Definition demosaic_malvar_row_rgb16
    (bayer : option (list Z)) (args : option demosaic_args) (row : Z)
  : M (P := demosaic_pix_rgb16) unit :=
  args' <- ASSERT_NOT_NULL args ;;
  (* if this row is one of the two top or bottom rows, use safe functions *)
  if (row <? 2) || (row >=? n_rows args' [-] 2) then
    demosaic_malvar_row_rgb16_unoptimized bayer args row
  else
  (* else middle row, can be optimized *)
  let args := args' in
  ASSERT_OUTPUT_NOT_NULL ;;
  bayer <- ASSERT_NOT_NULL bayer ;;
  demosaic_malvar_assert_proper_dimensions args ;;
  DEMOSAIC_ASSERT ((0 <=? row) && (row <? n_rows args)) ;;
  let ncol := n_cols args in
  let max_val := max_val args in
  let native := fun x => x in
  let interp := fun v => u16 (DM_LIMIT v 0 max_val) in
  if row [%] 2 =? 0 then (* red-green row *)
    (* at left edge, use safe helpers *)
    store 0 (get_rgb16_at_red16 bayer args row 0) ;;
    store 1 (get_rgb16_at_green_rg16 bayer args row 1) ;;
    let col := 2 in
    while (Z.to_nat ncol) (fun col => col <? ncol [-] 2)
      (two_pixels (inner_at_red native interp bayer ncol row)
                  (inner_at_green_rg native interp bayer ncol row)) col ;;
    (* at right edge, use safe helpers *)
    store (ncol [-] 2) (get_rgb16_at_red16 bayer args row (ncol [-] 2)) ;;
    store (ncol [-] 1) (get_rgb16_at_green_rg16 bayer args row (ncol [-] 1))
  else (* green-blue row *)
    store 0 (get_rgb16_at_green_gb16 bayer args row 0) ;;
    store 1 (get_rgb16_at_blue16 bayer args row 1) ;;
    let col := 2 in
    while (Z.to_nat ncol) (fun col => col <? ncol [-] 2)
      (two_pixels (inner_at_green_gb native interp bayer ncol row)
                  (inner_at_blue native interp bayer ncol row)) col ;;
    store (ncol [-] 2) (get_rgb16_at_green_gb16 bayer args row (ncol [-] 2)) ;;
    store (ncol [-] 1) (get_rgb16_at_blue16 bayer args row (ncol [-] 1)).

(** demosaic 8 bit bayer to 8 bit rgb *)
Definition demosaic_malvar_row_rgb8
    (bayer : option (list Z)) (args : option demosaic_args) (row : Z)
  : M (P := demosaic_pix_rgb8) unit :=
  args' <- ASSERT_NOT_NULL args ;;
  if (row <? 2) || (row >=? n_rows args' [-] 2) then
    demosaic_malvar_row_rgb8_unoptimized bayer args row
  else
  let args := args' in
  ASSERT_OUTPUT_NOT_NULL ;;
  bayer <- ASSERT_NOT_NULL bayer ;;
  demosaic_malvar_assert_proper_dimensions args ;;
  DEMOSAIC_ASSERT ((0 <=? row) && (row <? n_rows args)) ;;
  (* assert max val is 255 or less *)
  DEMOSAIC_ASSERT (max_val args <=? U8_MAX) ;;
  let ncol := n_cols args in
  let max_val := max_val args in
  let native := fun x => x in
  let interp := fun v => u8 (DM_LIMIT v 0 max_val) in
  if row [%] 2 =? 0 then
    store 0 (get_rgb8_at_red8 bayer args row 0) ;;
    store 1 (get_rgb8_at_green_rg8 bayer args row 1) ;;
    let col := 2 in
    while (Z.to_nat ncol) (fun col => col <? ncol [-] 2)
      (two_pixels (inner_at_red native interp bayer ncol row)
                  (inner_at_green_rg native interp bayer ncol row)) col ;;
    store (ncol [-] 2) (get_rgb8_at_red8 bayer args row (ncol [-] 2)) ;;
    store (ncol [-] 1) (get_rgb8_at_green_rg8 bayer args row (ncol [-] 1))
  else
    store 0 (get_rgb8_at_green_gb8 bayer args row 0) ;;
    store 1 (get_rgb8_at_blue8 bayer args row 1) ;;
    let col := 2 in
    while (Z.to_nat ncol) (fun col => col <? ncol [-] 2)
      (two_pixels (inner_at_green_gb native interp bayer ncol row)
                  (inner_at_blue native interp bayer ncol row)) col ;;
    store (ncol [-] 2) (get_rgb8_at_green_gb8 bayer args row (ncol [-] 2)) ;;
    store (ncol [-] 1) (get_rgb8_at_blue8 bayer args row (ncol [-] 1)).

(** demosaic 16 bit bayer to 8 bit rgb *)
Definition demosaic_malvar_row_rgb16to8
    (bayer : option (list Z)) (args : option demosaic_args) (row : Z)
  : M (P := demosaic_pix_rgb8) unit :=
  args' <- ASSERT_NOT_NULL args ;;
  if (row <? 2) || (row >=? n_rows args' [-] 2) then
    demosaic_malvar_row_rgb16to8_unoptimized bayer args row
  else
  let args := args' in
  ASSERT_OUTPUT_NOT_NULL ;;
  bayer <- ASSERT_NOT_NULL bayer ;;
  demosaic_malvar_assert_proper_dimensions args ;;
  DEMOSAIC_ASSERT ((0 <=? row) && (row <? n_rows args)) ;;
  (* assert shift is not negative *)
  DEMOSAIC_ASSERT (rshift args >=? 0) ;;
  (* assert max val can be shifted to 8 bits *)
  DEMOSAIC_ASSERT ((max_val args [>>] rshift args) <=? U8_MAX) ;;
  let ncol := n_cols args in
  let max_val := max_val args in
  let rshift := rshift args in
  let max_val_rshift := u8 (max_val [>>] rshift) in
  let native := fun x => u8 (x [>>] rshift) in
  let interp := fun v => u8 (limit_rshift v max_val max_val_rshift rshift) in
  if row [%] 2 =? 0 then
    store 0 (get_rgb8_at_red16 bayer args row 0) ;;
    store 1 (get_rgb8_at_green_rg16 bayer args row 1) ;;
    let col := 2 in
    while (Z.to_nat ncol) (fun col => col <? ncol [-] 2)
      (two_pixels (inner_at_red native interp bayer ncol row)
                  (inner_at_green_rg native interp bayer ncol row)) col ;;
    store (ncol [-] 2) (get_rgb8_at_red16 bayer args row (ncol [-] 2)) ;;
    store (ncol [-] 1) (get_rgb8_at_green_rg16 bayer args row (ncol [-] 1))
  else
    store 0 (get_rgb8_at_green_gb16 bayer args row 0) ;;
    store 1 (get_rgb8_at_blue16 bayer args row 1) ;;
    let col := 2 in
    while (Z.to_nat ncol) (fun col => col <? ncol [-] 2)
      (two_pixels (inner_at_green_gb native interp bayer ncol row)
                  (inner_at_blue native interp bayer ncol row)) col ;;
    store (ncol [-] 2) (get_rgb8_at_green_gb16 bayer args row (ncol [-] 2)) ;;
    store (ncol [-] 1) (get_rgb8_at_blue16 bayer args row (ncol [-] 1)).

(** demosaic 16 bit bayer to 16 bit monochromatic; [red], [green] and
    [blue] are [I32] locals in the inner loop. *)
Definition demosaic_malvar_row_mono16
    (bayer : option (list Z)) (args : option demosaic_args) (row : Z)
  : M (P := Z) unit :=
  args' <- ASSERT_NOT_NULL args ;;
  if (row <? 2) || (row >=? n_rows args' [-] 2) then
    demosaic_malvar_row_mono16_unoptimized bayer args row
  else
  let args := args' in
  ASSERT_OUTPUT_NOT_NULL ;;
  bayer <- ASSERT_NOT_NULL bayer ;;
  demosaic_malvar_assert_proper_dimensions args ;;
  DEMOSAIC_ASSERT ((0 <=? row) && (row <? n_rows args)) ;;
  coefs_normed <- demosaic_normalize_coefs args ;;
  let ncol := n_cols args in
  let max_val := max_val args in
  let native := fun x => x in
  let interp := fun v => DM_LIMIT v 0 max_val in
  if row [%] 2 =? 0 then
    store 0 (luma16 coefs_normed (get_rgb16_at_red16 bayer args row 0)) ;;
    store 1 (luma16 coefs_normed (get_rgb16_at_green_rg16 bayer args row 1)) ;;
    let col := 2 in
    while (Z.to_nat ncol) (fun col => col <? ncol [-] 2)
      (two_pixels
         (fun col => luma16 coefs_normed (inner_at_red native interp bayer ncol row col))
         (fun col => luma16 coefs_normed (inner_at_green_rg native interp bayer ncol row col)))
      col ;;
    store (ncol [-] 2)
          (luma16 coefs_normed (get_rgb16_at_red16 bayer args row (ncol [-] 2))) ;;
    store (ncol [-] 1)
          (luma16 coefs_normed (get_rgb16_at_green_rg16 bayer args row (ncol [-] 1)))
  else
    store 0 (luma16 coefs_normed (get_rgb16_at_green_gb16 bayer args row 0)) ;;
    store 1 (luma16 coefs_normed (get_rgb16_at_blue16 bayer args row 1)) ;;
    let col := 2 in
    while (Z.to_nat ncol) (fun col => col <? ncol [-] 2)
      (two_pixels
         (fun col => luma16 coefs_normed (inner_at_green_gb native interp bayer ncol row col))
         (fun col => luma16 coefs_normed (inner_at_blue native interp bayer ncol row col)))
      col ;;
    store (ncol [-] 2)
          (luma16 coefs_normed (get_rgb16_at_green_gb16 bayer args row (ncol [-] 2))) ;;
    store (ncol [-] 1)
          (luma16 coefs_normed (get_rgb16_at_blue16 bayer args row (ncol [-] 1))).

(** demosaic 8 bit bayer to 8 bit monochromatic *)
Definition demosaic_malvar_row_mono8
    (bayer : option (list Z)) (args : option demosaic_args) (row : Z)
  : M (P := Z) unit :=
  args' <- ASSERT_NOT_NULL args ;;
  if (row <? 2) || (row >=? n_rows args' [-] 2) then
    demosaic_malvar_row_mono8_unoptimized bayer args row
  else
  let args := args' in
  ASSERT_OUTPUT_NOT_NULL ;;
  bayer <- ASSERT_NOT_NULL bayer ;;
  demosaic_malvar_assert_proper_dimensions args ;;
  DEMOSAIC_ASSERT ((0 <=? row) && (row <? n_rows args)) ;;
  DEMOSAIC_ASSERT (max_val args <=? U8_MAX) ;;
  coefs_normed <- demosaic_normalize_coefs args ;;
  let ncol := n_cols args in
  let max_val := max_val args in
  let native := fun x => x in
  let interp := fun v => DM_LIMIT v 0 max_val in
  if row [%] 2 =? 0 then
    store 0 (luma8 coefs_normed (get_rgb8_at_red8 bayer args row 0)) ;;
    store 1 (luma8 coefs_normed (get_rgb8_at_green_rg8 bayer args row 1)) ;;
    let col := 2 in
    while (Z.to_nat ncol) (fun col => col <? ncol [-] 2)
      (two_pixels
         (fun col => luma8 coefs_normed (inner_at_red native interp bayer ncol row col))
         (fun col => luma8 coefs_normed (inner_at_green_rg native interp bayer ncol row col)))
      col ;;
    store (ncol [-] 2)
          (luma8 coefs_normed (get_rgb8_at_red8 bayer args row (ncol [-] 2))) ;;
    store (ncol [-] 1)
          (luma8 coefs_normed (get_rgb8_at_green_rg8 bayer args row (ncol [-] 1)))
  else
    store 0 (luma8 coefs_normed (get_rgb8_at_green_gb8 bayer args row 0)) ;;
    store 1 (luma8 coefs_normed (get_rgb8_at_blue8 bayer args row 1)) ;;
    let col := 2 in
    while (Z.to_nat ncol) (fun col => col <? ncol [-] 2)
      (two_pixels
         (fun col => luma8 coefs_normed (inner_at_green_gb native interp bayer ncol row col))
         (fun col => luma8 coefs_normed (inner_at_blue native interp bayer ncol row col)))
      col ;;
    store (ncol [-] 2)
          (luma8 coefs_normed (get_rgb8_at_green_gb8 bayer args row (ncol [-] 2))) ;;
    store (ncol [-] 1)
          (luma8 coefs_normed (get_rgb8_at_blue8 bayer args row (ncol [-] 1))).

(** demosaic 16 bit bayer to 8 bit monochromatic; in the inner loop [red],
    [green] and [blue] are [I32] locals, at the edges they are the [U8]
    fields of [rgb]. *)
Definition demosaic_malvar_row_mono16to8
    (bayer : option (list Z)) (args : option demosaic_args) (row : Z)
  : M (P := Z) unit :=
  args' <- ASSERT_NOT_NULL args ;;
  if (row <? 2) || (row >=? n_rows args' [-] 2) then
    demosaic_malvar_row_mono16to8_unoptimized bayer args row
  else
  let args := args' in
  ASSERT_OUTPUT_NOT_NULL ;;
  bayer <- ASSERT_NOT_NULL bayer ;;
  demosaic_malvar_assert_proper_dimensions args ;;
  DEMOSAIC_ASSERT ((0 <=? row) && (row <? n_rows args)) ;;
  DEMOSAIC_ASSERT (coef_in_unit (coef_red (coefs args))) ;;
  DEMOSAIC_ASSERT (coef_in_unit (coef_green (coefs args))) ;;
  DEMOSAIC_ASSERT (coef_in_unit (coef_blue (coefs args))) ;;
  DEMOSAIC_ASSERT (rshift args >=? 0) ;;
  DEMOSAIC_ASSERT ((max_val args [>>] rshift args) <=? U8_MAX) ;;
  let coefs_normed := normalize_coefs (coefs args) in
  let coef_sum := normed_sum coefs_normed in
  DEMOSAIC_ASSERT (F64ops.ltb coef_sum F64ops.one) ;;
  let ncol := n_cols args in
  let max_val := max_val args in
  let rshift := rshift args in
  let max_val_rshift := u8 (max_val [>>] rshift) in
  let native := fun x => x [>>] rshift in
  let interp := fun v => limit_rshift v max_val max_val_rshift rshift in
  if row [%] 2 =? 0 then
    store 0 (luma8 coefs_normed (get_rgb8_at_red16 bayer args row 0)) ;;
    store 1 (luma8 coefs_normed (get_rgb8_at_green_rg16 bayer args row 1)) ;;
    let col := 2 in
    while (Z.to_nat ncol) (fun col => col <? ncol [-] 2)
      (two_pixels
         (fun col => luma8 coefs_normed (inner_at_red native interp bayer ncol row col))
         (fun col => luma8 coefs_normed (inner_at_green_rg native interp bayer ncol row col)))
      col ;;
    store (ncol [-] 2)
          (luma8 coefs_normed (get_rgb8_at_red16 bayer args row (ncol [-] 2))) ;;
    store (ncol [-] 1)
          (luma8 coefs_normed (get_rgb8_at_green_rg16 bayer args row (ncol [-] 1)))
  else
    store 0 (luma8 coefs_normed (get_rgb8_at_green_gb16 bayer args row 0)) ;;
    store 1 (luma8 coefs_normed (get_rgb8_at_blue16 bayer args row 1)) ;;
    let col := 2 in
    while (Z.to_nat ncol) (fun col => col <? ncol [-] 2)
      (two_pixels
         (fun col => luma8 coefs_normed (inner_at_green_gb native interp bayer ncol row col))
         (fun col => luma8 coefs_normed (inner_at_blue native interp bayer ncol row col)))
      col ;;
    store (ncol [-] 2)
          (luma8 coefs_normed (get_rgb8_at_green_gb16 bayer args row (ncol [-] 2))) ;;
    store (ncol [-] 1)
          (luma8 coefs_normed (get_rgb8_at_blue16 bayer args row (ncol [-] 1))).

(** ** Whole-image functions

    A whole-image function hands each call of its row function the address
    [&output[row * args->n_cols]]: the output buffer from that element on.
    The row function runs against that part of the buffer and what it stores
    lands in the buffer. *)

(** [&output[off]], for a buffer that may be [NULL].  An address outside the
    buffer is undefined in C; here a negative offset gives an empty row. *)
Definition row_pointer {P : Type} (output : option (list P)) (off : Z)
  : option (list P) :=
  (fun out => if 0 <=? off then drop (Z.to_nat off) out else []) <$> output.

(** [f(..., &output[off])]: the call of a row function on a part of the
    output buffer. *)
Definition with_row_at {P A : Type} (off : Z) (f : M (P := P) A) : M (P := P) A :=
  fun output =>
    let '(r, row) := f (row_pointer output off) in
    (r, match output, row with
        | Some out, Some row =>
            Some (if 0 <=? off then take (Z.to_nat off) out ++ row else out)
        | _, _ => output
        end).

(** demosaic 16 bit bayer to 16 bit rgb *)
Definition demosaic_malvar_rgb16
    (bayer : option (list Z)) (args : option demosaic_args)
  : M (P := demosaic_pix_rgb16) unit :=
  args' <- ASSERT_NOT_NULL args ;;
  (* assert even rows and columns, at least 2x2 *)
  demosaic_malvar_assert_proper_dimensions args' ;;
  while (Z.to_nat (n_rows args')) (fun row => row <? n_rows args')
    (fun row =>
       with_row_at (row [*] n_cols args') (demosaic_malvar_row_rgb16 bayer args row) ;;
       ret (row [+] 1)) 0 ;;
  ret tt.

(** demosaic 8 bit bayer to 8 bit rgb *)
Definition demosaic_malvar_rgb8
    (bayer : option (list Z)) (args : option demosaic_args)
  : M (P := demosaic_pix_rgb8) unit :=
  args' <- ASSERT_NOT_NULL args ;;
  demosaic_malvar_assert_proper_dimensions args' ;;
  (* assert max val is 255 or less *)
  DEMOSAIC_ASSERT (max_val args' <=? U8_MAX) ;;
  while (Z.to_nat (n_rows args')) (fun row => row <? n_rows args')
    (fun row =>
       with_row_at (row [*] n_cols args') (demosaic_malvar_row_rgb8 bayer args row) ;;
       ret (row [+] 1)) 0 ;;
  ret tt.

(** demosaic 16 bit bayer to 8 bit rgb *)
Definition demosaic_malvar_rgb16to8
    (bayer : option (list Z)) (args : option demosaic_args)
  : M (P := demosaic_pix_rgb8) unit :=
  args' <- ASSERT_NOT_NULL args ;;
  demosaic_malvar_assert_proper_dimensions args' ;;
  while (Z.to_nat (n_rows args')) (fun row => row <? n_rows args')
    (fun row =>
       with_row_at (row [*] n_cols args') (demosaic_malvar_row_rgb16to8 bayer args row) ;;
       ret (row [+] 1)) 0 ;;
  ret tt.

(** demosaic 16 bit bayer to 16 bit mono *)
Definition demosaic_malvar_mono16
    (bayer : option (list Z)) (args : option demosaic_args)
  : M (P := Z) unit :=
  args' <- ASSERT_NOT_NULL args ;;
  demosaic_malvar_assert_proper_dimensions args' ;;
  while (Z.to_nat (n_rows args')) (fun row => row <? n_rows args')
    (fun row =>
       with_row_at (row [*] n_cols args') (demosaic_malvar_row_mono16 bayer args row) ;;
       ret (row [+] 1)) 0 ;;
  ret tt.

(** demosaic 8 bit bayer to 8 bit mono *)
Definition demosaic_malvar_mono8
    (bayer : option (list Z)) (args : option demosaic_args)
  : M (P := Z) unit :=
  args' <- ASSERT_NOT_NULL args ;;
  demosaic_malvar_assert_proper_dimensions args' ;;
  (* assert max val is 255 or less *)
  DEMOSAIC_ASSERT (max_val args' <=? U8_MAX) ;;
  while (Z.to_nat (n_rows args')) (fun row => row <? n_rows args')
    (fun row =>
       with_row_at (row [*] n_cols args') (demosaic_malvar_row_mono8 bayer args row) ;;
       ret (row [+] 1)) 0 ;;
  ret tt.

(** demosaic 16 bit bayer to 8 bit mono *)
Definition demosaic_malvar_mono16to8
    (bayer : option (list Z)) (args : option demosaic_args)
  : M (P := Z) unit :=
  args' <- ASSERT_NOT_NULL args ;;
  demosaic_malvar_assert_proper_dimensions args' ;;
  while (Z.to_nat (n_rows args')) (fun row => row <? n_rows args')
    (fun row =>
       with_row_at (row [*] n_cols args') (demosaic_malvar_row_mono16to8 bayer args row) ;;
       ret (row [+] 1)) 0 ;;
  ret tt.

(** The loops of the unit test ([do_demosaicing]) that build the reference
    images row by row:
<<
    for (int row = 0; row < args->n_rows; row++) {
        demosaic_malvar_row_rgb16_unoptimized(bayer16, args, row,
                &image_out_rgb16_unopt[row * args->n_cols]);
    }
>>
    The test passes buffers it has allocated and the address of its
    arguments. *)
Definition unoptimized_rows {P : Type}
    (row_unoptimized : option (list Z) -> option demosaic_args -> Z -> M (P := P) unit)
    (bayer : list Z) (args : demosaic_args) : M (P := P) unit :=
  while (Z.to_nat (n_rows args)) (fun row => row <? n_rows args)
    (fun row =>
       with_row_at (row [*] n_cols args)
         (row_unoptimized (Some bayer) (Some args) row) ;;
       ret (row [+] 1)) 0 ;;
  ret tt.

(** ** Specification-level definitions

    The definitions below follow the words of the specification; the
    theorems compare them with the functions above. *)

(** The remapping of an out-of-range coordinate as the specification words
    it: if [x < 0], [(-x) mod 2]; if [x >= n], [n - 2 + (x mod 2)]. *)
Definition remap_spec (n x : Z) : Z :=
  if x <? 0 then (- x) mod 2
  else if x >=? n then n - 2 + x mod 2
  else x.

(** The index [get_pixel16_safe] and [get_pixel8_safe] read at. *)
Definition safe_index (n_rows n_cols row col : Z) : Z :=
  let row := if row <? 0 then (neg32 row) [%] 2 else row in
  let row := if row >=? n_rows then n_rows [-] 2 [+] (row [%] 2) else row in
  let col := if col <? 0 then (neg32 col) [%] 2 else col in
  let col := if col >=? n_cols then n_cols [-] 2 [+] (col [%] 2) else col in
  n_cols [*] row [+] col.

(** A kernel as the specification gives it: weights placed at offsets. *)
Definition tap : Type := (Z * Z * Z)%type.

Definition green_taps : list tap :=
  [(-2, 0, -1); (-1, 0, 2); (0, -2, -1); (0, -1, 2); (0, 0, 4); (0, 1, 2);
   (0, 2, -1); (1, 0, 2); (2, 0, -1)].

Definition row_taps : list tap :=
  [(-2, 0, 1); (-1, -1, -2); (-1, 1, -2); (0, -2, -2); (0, -1, 8); (0, 0, 10);
   (0, 1, 8); (0, 2, -2); (1, -1, -2); (1, 1, -2); (2, 0, 1)].

Definition column_taps : list tap :=
  [(-2, 0, -2); (-1, -1, -2); (-1, 0, 8); (-1, 1, -2); (0, -2, 1); (0, 0, 10);
   (0, 2, 1); (1, -1, -2); (1, 0, 8); (1, 1, -2); (2, 0, -2)].

Definition opposite_taps : list tap :=
  [(-2, 0, -3); (-1, -1, 4); (-1, 1, 4); (0, -2, -3); (0, 0, 12); (0, 2, -3);
   (1, -1, 4); (1, 1, 4); (2, 0, -3)].

(** The weighted sum of the samples under the taps, in unbounded integers;
    the coordinates of a tap are the [I32] sums the code computes. *)
Definition weighted_sum (pix : Z -> Z -> Z) (taps : list tap) (row col : Z) : Z :=
  foldr (fun '(dr, dc, w) acc => w * pix (row [+] dr) (col [+] dc) + acc) 0 taps.

(** The clamping policy in the words of the specification. *)
Definition clamp_spec (value max_val : Z) : Z :=
  if decide (value >= max_val) then max_val
  else if decide (value <= 0) then 0
  else value.

(** One axis of the remapping done by the code. *)
Definition safe_coord (n x : Z) : Z :=
  let x := if x <? 0 then (neg32 x) [%] 2 else x in
  let x := if x >=? n then n [-] 2 [+] (x [%] 2) else x in
  x.

(** An [I32] accumulator that never wraps: it is the exact weighted sum,
    which lies strictly inside the range of [I32]. *)
Definition no_overflow (wrapped exact : Z) : Prop :=
  wrapped = exact /\ I32_MIN < exact < I32_MAX.

(** The six output variants. *)
Inductive variant : Type := rgb16 | rgb8 | rgb16to8 | mono16 | mono8 | mono16to8.

(** Valid arguments (section 4.1 of the specification): at least 2 columns
    and 2 rows, both even; [max_val <= 255] for the variants with 8-bit
    input; [rshift >= 0] and [max_val >> rshift <= 255] for the narrowing
    variants; for the mono variants each luma coefficient in [0, 1] and the
    sum of the normalized coefficients below [1.0]. *)
Definition proper_dimensions (args : demosaic_args) : bool :=
  (n_cols args >=? 2) && (n_rows args >=? 2)
  && (n_cols args [%] 2 =? 0) && (n_rows args [%] 2 =? 0).

Definition max_val_is_8bit (args : demosaic_args) : bool :=
  max_val args <=? U8_MAX.

(** [args->rshift >= 0] and [(args->max_val >> args->rshift) <= U8_MAX]; the
    second test is the code's for [rshift < 32] only (see [shr]). *)
Definition shift_to_8bit (args : demosaic_args) : bool :=
  (rshift args >=? 0) && ((max_val args [>>] rshift args) <=? U8_MAX).

Definition valid_coefs (args : demosaic_args) : bool :=
  coef_in_unit (coef_red (coefs args))
  && coef_in_unit (coef_green (coefs args))
  && coef_in_unit (coef_blue (coefs args))
  && F64ops.ltb (normed_sum (normalize_coefs (coefs args))) F64ops.one.

Definition valid_args (v : variant) (args : demosaic_args) : bool :=
  proper_dimensions args &&
  match v with
  | rgb16 => true
  | rgb8 => max_val_is_8bit args
  | rgb16to8 => shift_to_8bit args
  | mono16 => valid_coefs args
  | mono8 => max_val_is_8bit args && valid_coefs args
  | mono16to8 => shift_to_8bit args && valid_coefs args
  end.

(** The output row after a row function has run: the elements at the
    columns [lo <= col < hi] are [pixel col], the others are as before. *)
Definition fill_range {P : Type} (pixel : Z -> P) (lo hi : Z) (out : list P) : list P :=
  imap (fun i x =>
          if (lo <=? Z.of_nat i) && (Z.of_nat i <? hi) then pixel (Z.of_nat i) else x)
       out.

(** The pixel of a column by the parity of the column. *)
Definition phase {P : Type} (first second : Z -> P) (col : Z) : P :=
  if Z.even col then first col else second col.

(** The pixel of a column of an interior row: the two columns at either
    edge come from the safe helpers, the others from the inner loop. *)
Definition edge_or_inner {P : Type} (safe inner : Z -> P) (n col : Z) : P :=
  if (col <? 2) || (n - 2 <=? col) then safe col else inner col.

(** The pixel of the four Bayer phases: (even row, even column) is red,
    (even, odd) green in a red-green row, (odd, even) green in a green-blue
    row, (odd, odd) blue. *)
Definition by_phase {P : Type} (at_red at_green_rg at_green_gb at_blue : Z -> Z -> P)
    (row col : Z) : P :=
  if row [%] 2 =? 0 then phase (at_red row) (at_green_rg row) col
  else phase (at_green_gb row) (at_blue row) col.

(** The pixels the safe helpers give, per variant. *)
Definition safe_rgb16 (bayer : list Z) (args : demosaic_args) : Z -> Z -> demosaic_pix_rgb16 :=
  by_phase (get_rgb16_at_red16 bayer args) (get_rgb16_at_green_rg16 bayer args)
           (get_rgb16_at_green_gb16 bayer args) (get_rgb16_at_blue16 bayer args).

Definition safe_rgb8 (bayer : list Z) (args : demosaic_args) : Z -> Z -> demosaic_pix_rgb8 :=
  by_phase (get_rgb8_at_red8 bayer args) (get_rgb8_at_green_rg8 bayer args)
           (get_rgb8_at_green_gb8 bayer args) (get_rgb8_at_blue8 bayer args).

Definition safe_rgb16to8 (bayer : list Z) (args : demosaic_args) : Z -> Z -> demosaic_pix_rgb8 :=
  by_phase (get_rgb8_at_red16 bayer args) (get_rgb8_at_green_rg16 bayer args)
           (get_rgb8_at_green_gb16 bayer args) (get_rgb8_at_blue16 bayer args).

(** The pixels the inner loop gives. *)
Definition inner_pixel (native interp : Z -> Z) (bayer : list Z) (ncol : Z)
  : Z -> Z -> demosaic_pix_rgb :=
  by_phase (inner_at_red native interp bayer ncol)
           (inner_at_green_rg native interp bayer ncol)
           (inner_at_green_gb native interp bayer ncol)
           (inner_at_blue native interp bayer ncol).

(** The samples the mono variants store: the luma of the pixel. *)
Definition safe_mono16 (bayer : list Z) (args : demosaic_args) : Z -> Z -> Z :=
  let coefs_normed := normalize_coefs (coefs args) in
  by_phase (fun row col => luma16 coefs_normed (get_rgb16_at_red16 bayer args row col))
           (fun row col => luma16 coefs_normed (get_rgb16_at_green_rg16 bayer args row col))
           (fun row col => luma16 coefs_normed (get_rgb16_at_green_gb16 bayer args row col))
           (fun row col => luma16 coefs_normed (get_rgb16_at_blue16 bayer args row col)).

Definition safe_mono8 (bayer : list Z) (args : demosaic_args) : Z -> Z -> Z :=
  let coefs_normed := normalize_coefs (coefs args) in
  by_phase (fun row col => luma8 coefs_normed (get_rgb8_at_red8 bayer args row col))
           (fun row col => luma8 coefs_normed (get_rgb8_at_green_rg8 bayer args row col))
           (fun row col => luma8 coefs_normed (get_rgb8_at_green_gb8 bayer args row col))
           (fun row col => luma8 coefs_normed (get_rgb8_at_blue8 bayer args row col)).

Definition safe_mono16to8 (bayer : list Z) (args : demosaic_args) : Z -> Z -> Z :=
  let coefs_normed := normalize_coefs (coefs args) in
  by_phase (fun row col => luma8 coefs_normed (get_rgb8_at_red16 bayer args row col))
           (fun row col => luma8 coefs_normed (get_rgb8_at_green_rg16 bayer args row col))
           (fun row col => luma8 coefs_normed (get_rgb8_at_green_gb16 bayer args row col))
           (fun row col => luma8 coefs_normed (get_rgb8_at_blue16 bayer args row col)).

Definition inner_mono (to_sample : demosaic_pix_rgb -> Z) (native interp : Z -> Z)
    (bayer : list Z) (ncol : Z) : Z -> Z -> Z :=
  by_phase (fun row col => to_sample (inner_at_red native interp bayer ncol row col))
           (fun row col => to_sample (inner_at_green_rg native interp bayer ncol row col))
           (fun row col => to_sample (inner_at_green_gb native interp bayer ncol row col))
           (fun row col => to_sample (inner_at_blue native interp bayer ncol row col)).

(** The conversions of the inner loops, per variant. *)
Definition interp_rgb16 (args : demosaic_args) (v : Z) : Z :=
  u16 (DM_LIMIT v 0 (max_val args)).
Definition interp_rgb8 (args : demosaic_args) (v : Z) : Z :=
  u8 (DM_LIMIT v 0 (max_val args)).
Definition native_rgb16to8 (args : demosaic_args) (x : Z) : Z :=
  u8 (x [>>] rshift args).
Definition interp_rgb16to8 (args : demosaic_args) (v : Z) : Z :=
  u8 (limit_rshift v (max_val args) (u8 (max_val args [>>] rshift args)) (rshift args)).
Definition interp_mono (args : demosaic_args) (v : Z) : Z :=
  DM_LIMIT v 0 (max_val args).
Definition native_mono16to8 (args : demosaic_args) (x : Z) : Z :=
  x [>>] rshift args.
Definition interp_mono16to8 (args : demosaic_args) (v : Z) : Z :=
  limit_rshift v (max_val args) (u8 (max_val args [>>] rshift args)) (rshift args).

(** The row each optimized function leaves behind on an interior row. *)
Definition optimized_rgb16 (bayer : list Z) (args : demosaic_args) (row : Z)
  : Z -> demosaic_pix_rgb16 :=
  edge_or_inner (safe_rgb16 bayer args row)
    (inner_pixel (fun x => x) (interp_rgb16 args) bayer (n_cols args) row)
    (n_cols args).

Definition optimized_rgb8 (bayer : list Z) (args : demosaic_args) (row : Z)
  : Z -> demosaic_pix_rgb8 :=
  edge_or_inner (safe_rgb8 bayer args row)
    (inner_pixel (fun x => x) (interp_rgb8 args) bayer (n_cols args) row)
    (n_cols args).

Definition optimized_rgb16to8 (bayer : list Z) (args : demosaic_args) (row : Z)
  : Z -> demosaic_pix_rgb8 :=
  edge_or_inner (safe_rgb16to8 bayer args row)
    (inner_pixel (native_rgb16to8 args) (interp_rgb16to8 args) bayer (n_cols args) row)
    (n_cols args).

Definition optimized_mono16 (bayer : list Z) (args : demosaic_args) (row : Z)
  : Z -> Z :=
  edge_or_inner (safe_mono16 bayer args row)
    (inner_mono (luma16 (normalize_coefs (coefs args))) (fun x => x) (interp_mono args)
                bayer (n_cols args) row)
    (n_cols args).

Definition optimized_mono8 (bayer : list Z) (args : demosaic_args) (row : Z)
  : Z -> Z :=
  edge_or_inner (safe_mono8 bayer args row)
    (inner_mono (luma8 (normalize_coefs (coefs args))) (fun x => x) (interp_mono args)
                bayer (n_cols args) row)
    (n_cols args).

Definition optimized_mono16to8 (bayer : list Z) (args : demosaic_args) (row : Z)
  : Z -> Z :=
  edge_or_inner (safe_mono16to8 bayer args row)
    (inner_mono (luma8 (normalize_coefs (coefs args))) (native_mono16to8 args)
                (interp_mono16to8 args) bayer (n_cols args) row)
    (n_cols args).

(** The buffer holds the image, and the samples of the image can be
    indexed in [I32]: under these two conditions every read of the code is
    inside the buffer. *)
Definition image_in_buffer (bayer : list Z) (args : demosaic_args) : Prop :=
  n_rows args * n_cols args <= I32_MAX /\
  n_rows args * n_cols args <= Z.of_nat (length bayer).

(** The invariant of the Bayer buffer: no sample exceeds [max_val]. *)
Definition samples_within_max (bayer : list Z) (args : demosaic_args) : Prop :=
  Forall (fun s => s <= max_val args) bayer.

(** Every sample, shifted right by [rshift], fits 8 bits; this follows from
    the invariant above when [max_val >> rshift <= 255]. *)
Definition samples_shift_to_8bit (bayer : list Z) (args : demosaic_args) : Prop :=
  Forall (fun s => s [>>] rshift args <= U8_MAX) bayer.

(** The pixel of a narrowing variant as the specification gives it: each
    interpolated channel is the quotient of its kernel, clamped to
    [0, max_val] and then shifted right by [rshift]; the channel of the
    pixel's own colour is the sample, shifted and stored in 8 bits.  At a
    red pixel green comes from the green kernel and blue from the opposite
    kernel; at a green pixel of a red-green row red comes from the row
    kernel and blue from the column kernel, and the other way round in a
    green-blue row; at a blue pixel red comes from the opposite kernel and
    green from the green kernel. *)
Definition narrowed_pixel (bayer : list Z) (args : demosaic_args)
  : Z -> Z -> demosaic_pix_rgb :=
  let pix := get_pixel16_safe bayer (n_rows args) (n_cols args) in
  let clamp_shift := fun v => clamp_spec v (max_val args) [>>] rshift args in
  let own := fun row col => u8 (pix row col [>>] rshift args) in
  by_phase
    (fun row col =>
       mk_pix (own row col)
              (clamp_shift (Z.quot (green_sum pix row col) 8))
              (clamp_shift (Z.quot (opposite_sum pix row col) 16)))
    (fun row col =>
       mk_pix (clamp_shift (Z.quot (row_sum pix row col) 16))
              (own row col)
              (clamp_shift (Z.quot (column_sum pix row col) 16)))
    (fun row col =>
       mk_pix (clamp_shift (Z.quot (column_sum pix row col) 16))
              (own row col)
              (clamp_shift (Z.quot (row_sum pix row col) 16)))
    (fun row col =>
       mk_pix (clamp_shift (Z.quot (opposite_sum pix row col) 16))
              (clamp_shift (Z.quot (green_sum pix row col) 8))
              (own row col)).

(** The channel of a pixel's own Bayer colour: red at red pixels, green at
    green pixels, blue at blue pixels. *)
Definition own_channel (row col : Z) (p : demosaic_pix_rgb) : Z :=
  by_phase (fun _ _ => red p) (fun _ _ => green p)
           (fun _ _ => green p) (fun _ _ => blue p) row col.

(** The colour of the Bayer sample at a position of a constant-colour image:
    every 2 x 2 block is [R G / G B]. *)
Definition bayer_color (R G B : Z) (row col : Z) : Z :=
  by_phase (fun _ _ => R) (fun _ _ => G) (fun _ _ => G) (fun _ _ => B) row col.

Definition constant_color (bayer : list Z) (args : demosaic_args) (R G B : Z) : Prop :=
  forall row col : Z,
    0 <= row < n_rows args -> 0 <= col < n_cols args ->
    GET_PIX bayer (n_cols args) row col = bayer_color R G B row col.

(** The same as a decidable check over the rows and columns. *)
Definition constant_colorb (bayer : list Z) (args : demosaic_args) (R G B : Z) : bool :=
  forallb (fun row =>
    forallb (fun col =>
      GET_PIX bayer (n_cols args) (Z.of_nat row) (Z.of_nat col)
      =? bayer_color R G B (Z.of_nat row) (Z.of_nat col))
      (seq 0 (Z.to_nat (n_cols args))))
    (seq 0 (Z.to_nat (n_rows args))).

(** The pixel the inner loop computes on a single-colour image, in terms of
    the conversions of the variant. *)
Definition constant_pixel (native interp : Z -> Z) (R G B : Z) : Z -> Z -> demosaic_pix_rgb :=
  by_phase (fun _ _ => mk_pix (native R) (interp G) (interp B))
           (fun _ _ => mk_pix (interp R) (native G) (interp B))
           (fun _ _ => mk_pix (interp R) (native G) (interp B))
           (fun _ _ => mk_pix (interp R) (interp G) (native B)).

(** A 6 x 6 image of the single colour (R, G, B) = (1000, 2000, 3000). *)
Definition single_color_bayer : list Z :=
  [ 1000; 2000; 1000; 2000; 1000; 2000;
    2000; 3000; 2000; 3000; 2000; 3000;
    1000; 2000; 1000; 2000; 1000; 2000;
    2000; 3000; 2000; 3000; 2000; 3000;
    1000; 2000; 1000; 2000; 1000; 2000;
    2000; 3000; 2000; 3000; 2000; 3000 ].

(** The violations every row function rejects: a null pointer, fewer than
    two rows (zero rows in particular), an odd number of rows, fewer than two
    columns, an odd number of columns, a row outside the image. *)
Definition common_violation (bayer : option (list Z)) (args : option demosaic_args)
    (row : Z) {P : Type} (output_row : option (list P)) : Prop :=
  bayer = None \/ args = None \/ output_row = None \/
  exists a, args = Some a /\
    (n_rows a < 2 \/ Z.rem (n_rows a) 2 <> 0 \/
     n_cols a < 2 \/ Z.rem (n_cols a) 2 <> 0 \/
     row < 0 \/ row >= n_rows a).

(** Every channel of a pixel lies in [0, bound]. *)
Definition pixel_within (bound : Z) (p : demosaic_pix_rgb) : Prop :=
  0 <= red p <= bound /\ 0 <= green p <= bound /\ 0 <= blue p <= bound.

(** What a call that did not end in the fatal handler was given. *)
Definition accepted (v : variant) (bayer : option (list Z)) (args : option demosaic_args)
    (row : Z) {P : Type} (output_row : option (list P)) : Prop :=
  exists b a out,
    bayer = Some b /\ args = Some a /\ output_row = Some out /\
    valid_args v a = true /\ 0 <= row < n_rows a.

(** The output buffer after the rows [lo <= row < hi] have been written:
    the element [row * n_cols + col] is [pixel row col], the others are as
    before. *)
Definition fill_rows {P : Type} (pixel : Z -> Z -> P) (n_cols lo hi : Z)
    (out : list P) : list P :=
  imap (fun i x =>
          if (lo * n_cols <=? Z.of_nat i) && (Z.of_nat i <? hi * n_cols)
          then pixel (Z.of_nat i / n_cols) (Z.of_nat i mod n_cols) else x)
       out.

(** [out'] is [out] with an image of [n_rows] by [n_cols] pixels written at
    its start: as long as [out], [pixel row col] at [row * n_cols + col],
    and from [n_rows * n_cols] on what [out] has. *)
Definition image_written {P : Type} (pixel : Z -> Z -> P) (n_rows n_cols : Z)
    (out out' : list P) : Prop :=
  length out' = length out /\
  (forall row col, 0 <= row < n_rows -> 0 <= col < n_cols ->
     out' !! Z.to_nat (row * n_cols + col) = Some (pixel row col)) /\
  (forall i : nat, n_rows * n_cols <= Z.of_nat i -> out' !! i = out !! i).

(** What a whole-image function ends in the fatal handler for: a [NULL]
    pointer, or arguments its assertions refuse. *)
Definition rejected (v : variant) (bayer : option (list Z)) (args : option demosaic_args)
    {P : Type} (output : option (list P)) : Prop :=
  bayer = None \/ args = None \/ output = None \/
  exists a, args = Some a /\ valid_args v a = false.

(** A coefficient the assertion [0 <= c && c <= 1] refuses: a NaN, an
    infinity, a negative number, or a number above 1. *)
Definition coef_out_of_unit (c : F64) : Prop :=
  match c with
  | S754_nan | S754_infinity _ | S754_finite true _ _ => True
  | S754_finite false _ _ => bounded_mantissa c /\ (1 < value c)%R
  | S754_zero _ => False
  end.

(** The arguments of the transposed image: rows and columns exchanged. *)
Definition transposed_args (args : demosaic_args) : demosaic_args :=
  {| n_rows := n_cols args; n_cols := n_rows args; max_val := max_val args;
     rshift := rshift args; coefs := coefs args |}.

(** ** Concrete inputs *)

(** A 6 x 6 image of 12-bit samples and its arguments; the luma
    coefficients are 1/4, 1/2 and 1/8. *)
Definition sample_bayer : list Z :=
  [ 100; 200; 110; 210; 120; 220;
    300; 400; 310; 410; 320; 420;
    130; 230; 140; 240; 150; 250;
    330; 430; 340; 440; 350; 450;
    160; 260; 170; 270; 180; 280;
    360; 460; 370; 470; 380; 480 ].

Definition sample_args : demosaic_args :=
  {| n_rows := 6; n_cols := 6; max_val := 4095; rshift := 4;
     coefs := {| coef_red := S754_finite false 4503599627370496 (-54);
                 coef_green := F64ops.half;
                 coef_blue := S754_finite false 4503599627370496 (-55) |} |}.

(** A 6 x 6 image whose red samples are 65535, above [max_val = 4095],
    and whose other samples are 0; the luma coefficients are 1/64, 1/2 and
    1/2. *)
Definition overexposed_bayer : list Z :=
  [ 65535; 0; 65535; 0; 65535; 0;
    0; 0; 0; 0; 0; 0;
    65535; 0; 65535; 0; 65535; 0;
    0; 0; 0; 0; 0; 0;
    65535; 0; 65535; 0; 65535; 0;
    0; 0; 0; 0; 0; 0 ].

Definition overexposed_args : demosaic_args :=
  {| n_rows := 6; n_cols := 6; max_val := 4095; rshift := 4;
     coefs := {| coef_red := S754_finite false 4503599627370496 (-58);
                 coef_green := F64ops.half;
                 coef_blue := F64ops.half |} |}.

(** A 6 x 6 image whose samples are all 1020, above [max_val = 1000]; the
    shift is 2. *)
Definition bright_bayer : list Z := replicate 36 1020.

Definition bright_args : demosaic_args :=
  mk_args 6 6 1000 2 (coefs sample_args).

(** The [double] 2. *)
Definition two : F64 := S754_finite false 4503599627370496 (-51).

(** [sample_bayer] with its last row set to 4095. *)
Definition sample_bayer_other_last_row : list Z :=
  take 30 sample_bayer ++ replicate 6 4095.

(** [sample_bayer] with rows and columns exchanged. *)
Definition sample_bayer_transposed : list Z :=
  [ 100; 300; 130; 330; 160; 360;
    200; 400; 230; 430; 260; 460;
    110; 310; 140; 340; 170; 370;
    210; 410; 240; 440; 270; 470;
    120; 320; 150; 350; 180; 380;
    220; 420; 250; 450; 280; 480 ].

(** [sample_args] with the luma coefficients 0, 0 and 0. *)
Definition zero_coefs_args : demosaic_args :=
  mk_args 6 6 4095 4 (mk_coefs F64ops.zero F64ops.zero F64ops.zero).

(** An 8-bit 6 x 6 image, the halves of the samples of [sample_bayer], and
    its arguments: [max_val = 255] and no shift. *)
Definition sample_bayer_8bit : list Z :=
  [  50; 100;  55; 105;  60; 110;
    150; 200; 155; 205; 160; 210;
     65; 115;  70; 120;  75; 125;
    165; 215; 170; 220; 175; 225;
     80; 130;  85; 135;  90; 140;
    180; 230; 185; 235; 190; 240 ].

Definition sample_args_8bit : demosaic_args :=
  mk_args 6 6 255 0 (coefs sample_args).

(** ** The literals of binary64 *)

Example millionth_is_quotient :
  F64ops.millionth = F64ops.div (F64ops.of_int 1) (F64ops.of_int 1000000).
Proof. vm_compute. reflexivity. Qed.

Example one_is_of_int : F64ops.one = F64ops.of_int 1.
Proof. vm_compute. reflexivity. Qed.

Example half_is_quotient : F64ops.half = F64ops.div (F64ops.of_int 1) (F64ops.of_int 2).
Proof. vm_compute. reflexivity. Qed.

(** ** Integer lemmas *)

Lemma i32_small (x : Z) : is_i32 x -> i32 x = x.
Proof.
  unfold is_i32, I32_MIN, I32_MAX, i32. intros H.
  rewrite Z.mod_small; lia.
Qed.

Lemma i32_is_i32 (x : Z) : is_i32 (i32 x).
Proof.
  unfold is_i32, I32_MIN, I32_MAX, i32.
  pose proof (Z.mod_pos_bound (x + 2 ^ 31) (2 ^ 32) ltac:(lia)). lia.
Qed.

Lemma u16_small (x : Z) : is_u16 x -> u16 x = x.
Proof. unfold is_u16, U16_MAX, u16. intros H. apply Z.mod_small. lia. Qed.

Lemma u8_small (x : Z) : is_u8 x -> u8 x = x.
Proof. unfold is_u8, U8_MAX, u8. intros H. apply Z.mod_small. lia. Qed.

Lemma u8_u16 (x : Z) : u8 (u16 x) = u8 x.
Proof.
  unfold u8, u16. change (2 ^ 16) with 65536. change (2 ^ 8) with 256.
  Z.to_euclidean_division_equations. lia.
Qed.

Lemma is_u16_is_i32 (x : Z) : is_u16 x -> is_i32 x.
Proof. unfold is_u16, is_i32, U16_MAX, I32_MIN, I32_MAX. lia. Qed.

Lemma is_u8_is_u16 (x : Z) : is_u8 x -> is_u16 x.
Proof. unfold is_u16, is_u8, U16_MAX, U8_MAX. lia. Qed.

Lemma DM_LIMIT_range (x max : Z) : 0 <= max -> 0 <= DM_LIMIT x 0 max <= max.
Proof.
  unfold DM_LIMIT. intros H. rewrite Z.geb_leb.
  destruct (Z.leb_spec max x), (Z.leb_spec x 0); lia.
Qed.

Lemma DM_LIMIT_clamp_spec (x max : Z) : DM_LIMIT x 0 max = clamp_spec x max.
Proof.
  unfold DM_LIMIT, clamp_spec. rewrite Z.geb_leb.
  destruct (Z.leb_spec max x), (Z.leb_spec x 0);
    repeat case_decide; lia.
Qed.

Lemma DM_LIMIT_id (x max : Z) : 0 <= x <= max -> DM_LIMIT x 0 max = x.
Proof.
  unfold DM_LIMIT. intros H. rewrite Z.geb_leb.
  destruct (Z.leb_spec max x), (Z.leb_spec x 0); lia.
Qed.

Lemma shr_nonneg (a n : Z) : 0 <= a -> 0 <= a [>>] n.
Proof. intros H. unfold shr. apply Z.shiftr_nonneg. exact H. Qed.

Lemma shr_mono (a b n : Z) : a <= b -> a [>>] n <= b [>>] n.
Proof.
  intros H. unfold shr. destruct (Z.le_gt_cases 0 n) as [Hn|Hn].
  - rewrite !Z.shiftr_div_pow2 by lia. apply Z.div_le_mono; [|exact H].
    apply Z.pow_pos_nonneg; lia.
  - rewrite !Z.shiftr_mul_pow2 by lia.
    apply Z.mul_le_mono_nonneg_r; [|exact H]. apply Z.pow_nonneg. lia.
Qed.

(** ** The buffer *)

Lemma load_u16 (bayer : list Z) (i : Z) : buffer16 bayer -> is_u16 (load bayer i).
Proof.
  intros Hb. unfold load. destruct (0 <=? i); [|unfold is_u16, U16_MAX; lia].
  destruct (bayer !! Z.to_nat i) as [x|] eqn:E; simpl.
  - unfold buffer16 in Hb. rewrite Forall_lookup in Hb. eauto.
  - unfold is_u16, U16_MAX; lia.
Qed.

Lemma load_u8 (bayer : list Z) (i : Z) : buffer8 bayer -> is_u8 (load bayer i).
Proof.
  intros Hb. unfold load. destruct (0 <=? i); [|unfold is_u8, U8_MAX; lia].
  destruct (bayer !! Z.to_nat i) as [x|] eqn:E; simpl.
  - unfold buffer8 in Hb. rewrite Forall_lookup in Hb. eauto.
  - unfold is_u8, U8_MAX; lia.
Qed.

Lemma buffer8_buffer16 (bayer : list Z) : buffer8 bayer -> buffer16 bayer.
Proof.
  unfold buffer8, buffer16. intros H.
  eapply Forall_impl; [exact H|]. intros x. apply is_u8_is_u16.
Qed.

(** ** The edge-safe accessor *)

Lemma get_pixel16_safe_index (bayer : list Z) (n_rows n_cols row col : Z) :
  get_pixel16_safe bayer n_rows n_cols row col
  = load bayer (safe_index n_rows n_cols row col).
Proof. reflexivity. Qed.

Lemma get_pixel8_safe_index (bayer : list Z) (n_rows n_cols row col : Z) :
  get_pixel8_safe bayer n_rows n_cols row col
  = load bayer (safe_index n_rows n_cols row col).
Proof. reflexivity. Qed.

Lemma safe_index_coord (n_rows n_cols row col : Z) :
  safe_index n_rows n_cols row col
  = pix_index n_cols (safe_coord n_rows row) (safe_coord n_cols col).
Proof. reflexivity. Qed.

Lemma safe_coord_spec (n x : Z) :
  is_i32 n -> is_i32 x -> 2 <= n -> safe_coord n x = remap_spec n x.
Proof.
  unfold safe_coord, remap_spec, neg32, sub32, add32, rem32, is_i32,
    I32_MIN, I32_MAX, i32.
  intros Hn Hx H2. rewrite !Z.geb_leb.
  change (2 ^ 31) with 2147483648 in *. change (2 ^ 32) with 4294967296 in *.
  destruct (Z.ltb_spec x 0).
  - match goal with |- context [n <=? ?a] => destruct (Z.leb_spec n a) end;
      Z.to_euclidean_division_equations; lia.
  - destruct (Z.leb_spec n x); Z.to_euclidean_division_equations; lia.
Qed.

Lemma remap_spec_in_range (n x : Z) : 2 <= n -> 0 <= remap_spec n x < n.
Proof.
  unfold remap_spec. intros H2. rewrite Z.geb_leb.
  destruct (Z.ltb_spec x 0); [|destruct (Z.leb_spec n x)];
    Z.to_euclidean_division_equations; lia.
Qed.

Lemma remap_spec_parity (n x : Z) :
  Z.rem n 2 = 0 -> remap_spec n x mod 2 = x mod 2.
Proof.
  unfold remap_spec. intros H2. rewrite Z.geb_leb.
  destruct (Z.ltb_spec x 0); [|destruct (Z.leb_spec n x)];
    Z.to_euclidean_division_equations; lia.
Qed.

Lemma remap_spec_inside (n x : Z) : 0 <= x < n -> remap_spec n x = x.
Proof.
  unfold remap_spec. intros H. rewrite Z.geb_leb.
  destruct (Z.ltb_spec x 0); [|destruct (Z.leb_spec n x)]; lia.
Qed.

Lemma safe_coord_inside (n x : Z) : 0 <= x < n -> safe_coord n x = x.
Proof.
  unfold safe_coord. intros H. rewrite !Z.geb_leb.
  destruct (Z.ltb_spec x 0); [lia|]. destruct (Z.leb_spec n x); lia.
Qed.

(** Inside the image the accessor is the unchecked macro. *)
Lemma get_pixel16_safe_inside (bayer : list Z) (n_rows n_cols row col : Z) :
  0 <= row < n_rows -> 0 <= col < n_cols ->
  get_pixel16_safe bayer n_rows n_cols row col = GET_PIX bayer n_cols row col.
Proof.
  intros Hr Hc. rewrite get_pixel16_safe_index, safe_index_coord.
  rewrite !safe_coord_inside by assumption. reflexivity.
Qed.

Lemma get_pixel8_safe_inside (bayer : list Z) (n_rows n_cols row col : Z) :
  0 <= row < n_rows -> 0 <= col < n_cols ->
  get_pixel8_safe bayer n_rows n_cols row col = GET_PIX bayer n_cols row col.
Proof. apply get_pixel16_safe_inside. Qed.

(** C3. The edge-safe accessor returns the sample at the coordinates the
    specification's rule gives (if [row < 0], [(-row) mod 2]; if
    [row >= rows], [rows - 2 + (row mod 2)]; columns alike), for the 16-bit
    and for the 8-bit accessor; for even dimensions of at least 2 the
    remapped coordinate lies in the image and has the parity of the original
    one, so the sample read is of the same Bayer colour. *)
Theorem edge_safe_accessor_remap
    (bayer : list Z) (n_rows n_cols row col : Z) :
  is_i32 n_rows -> is_i32 n_cols -> is_i32 row -> is_i32 col ->
  2 <= n_rows -> 2 <= n_cols -> Z.rem n_rows 2 = 0 -> Z.rem n_cols 2 = 0 ->
  let row' := remap_spec n_rows row in
  let col' := remap_spec n_cols col in
  get_pixel16_safe bayer n_rows n_cols row col = GET_PIX bayer n_cols row' col' /\
  get_pixel8_safe bayer n_rows n_cols row col = GET_PIX bayer n_cols row' col' /\
  (0 <= row' < n_rows /\ 0 <= col' < n_cols) /\
  (row' mod 2 = row mod 2 /\ col' mod 2 = col mod 2).
Proof.
  intros Tr Tc Trow Tcol Hr Hc Er Ec row' col'. subst row' col'.
  rewrite get_pixel16_safe_index, get_pixel8_safe_index, safe_index_coord.
  rewrite !safe_coord_spec by assumption.
  repeat split; try reflexivity;
    try (apply remap_spec_in_range; assumption);
    apply remap_spec_parity; assumption.
Qed.

Lemma edge_safe_accessor_remap_witness :
  get_pixel16_safe [10; 11; 12; 13; 20; 21; 22; 23; 30; 31; 32; 33; 40; 41; 42; 43]
                   4 4 (-1) 5
  = GET_PIX [10; 11; 12; 13; 20; 21; 22; 23; 30; 31; 32; 33; 40; 41; 42; 43] 4 1 3.
Proof.
  apply (edge_safe_accessor_remap
           [10; 11; 12; 13; 20; 21; 22; 23; 30; 31; 32; 33; 40; 41; 42; 43]
           4 4 (-1) 5);
    unfold is_i32, I32_MIN, I32_MAX; first [reflexivity | lia].
Defined.

(** ** Index safety *)

Lemma pix_index_exact (n_rows n_cols row col : Z) :
  0 <= n_rows -> n_rows * n_cols <= I32_MAX ->
  0 <= row < n_rows -> 0 <= col < n_cols ->
  pix_index n_cols row col = n_cols * row + col /\
  0 <= n_cols * row + col < n_rows * n_cols.
Proof.
  intros H0 Hmax Hr Hc. unfold I32_MAX in Hmax.
  assert (Hb : 0 <= n_cols * row + col < n_rows * n_cols) by nia.
  assert (Hm : 0 <= n_cols * row <= n_cols * row + col) by nia.
  split; [|exact Hb]. unfold pix_index, add32, mul32.
  rewrite (i32_small (n_cols * row)) by (unfold is_i32, I32_MIN, I32_MAX; lia).
  apply i32_small. unfold is_i32, I32_MIN, I32_MAX; lia.
Qed.

(** C2, as amended.  For even dimensions of at least 2 whose product fits
    an [I32], every index into the Bayer buffer is within
    [0, rows * cols): the index the edge-safe accessor reads at, for any
    coordinate (in particular one that is out of the image by at most 2), and
    the index of the unchecked macro at an interior pixel (row in
    [2, rows - 2), column in [2, cols - 2)) displaced by at most 2 in row and
    column. *)
Theorem buffer_indices_in_bounds (n_rows n_cols : Z) :
  is_i32 n_rows -> is_i32 n_cols ->
  2 <= n_rows -> 2 <= n_cols -> Z.rem n_rows 2 = 0 -> Z.rem n_cols 2 = 0 ->
  n_rows * n_cols <= I32_MAX ->
  (forall row col : Z,
      is_i32 row -> is_i32 col ->
      0 <= safe_index n_rows n_cols row col < n_rows * n_cols) /\
  (forall row col dr dc : Z,
      2 <= row < n_rows - 2 -> 2 <= col < n_cols - 2 ->
      -2 <= dr <= 2 -> -2 <= dc <= 2 ->
      0 <= pix_index n_cols (row [+] dr) (col [+] dc) < n_rows * n_cols).
Proof.
  intros Tr Tc Hr Hc Er Ec Hmax. split.
  - intros row col Trow Tcol. rewrite safe_index_coord.
    rewrite !safe_coord_spec by assumption.
    pose proof (remap_spec_in_range n_rows row Hr) as Hrow.
    pose proof (remap_spec_in_range n_cols col Hc) as Hcol.
    destruct (pix_index_exact n_rows n_cols _ _ ltac:(lia) Hmax Hrow Hcol) as [-> Hb].
    exact Hb.
  - intros row col dr dc Hrow Hcol Hdr Hdc.
    unfold is_i32, I32_MIN, I32_MAX in Tr, Tc.
    unfold add32.
    rewrite (i32_small (row + dr)), (i32_small (col + dc))
      by (unfold is_i32, I32_MIN, I32_MAX; lia).
    destruct (pix_index_exact n_rows n_cols (row + dr) (col + dc)
                ltac:(lia) Hmax ltac:(lia) ltac:(lia)) as [-> Hb].
    exact Hb.
Qed.

Lemma buffer_indices_in_bounds_witness :
  0 <= safe_index 4 6 (-2) 7 < 4 * 6 /\ 0 <= pix_index 6 (2 [+] (-2)) (3 [+] 2) < 4 * 6.
Proof.
  destruct (buffer_indices_in_bounds 4 6) as [Hsafe Hfast];
    unfold is_i32, I32_MIN, I32_MAX; try first [reflexivity | lia].
  split.
  - apply Hsafe; unfold is_i32, I32_MIN, I32_MAX; lia.
  - vm_compute. split; [discriminate | reflexivity].
Defined.

(** C2 as stated fails: with 46342 rows and 46342 columns (even, at least 2,
    both [I32]) the [I32] index of the in-image pixel (46341, 46341) wraps
    around and is negative. *)
Lemma buffer_indices_counterexample :
  is_i32 46342 /\ 2 <= 46342 /\ Z.rem 46342 2 = 0 /\
  0 <= 46341 < 46342 /\
  safe_index 46342 46342 46341 46341 = -2147386333 /\
  ~ (0 <= safe_index 46342 46342 46341 46341 < 46342 * 46342).
Proof.
  unfold is_i32, I32_MIN, I32_MAX.
  repeat split; try lia; try reflexivity.
  vm_compute. intros [H _]. apply H. reflexivity.
Qed.

(** ** The kernels *)

(** Removes the wrap-around of [I32] operations whose exact result is in
    range, innermost first. *)
Ltac wrap_off :=
  unfold add32, sub32, mul32;
  repeat match goal with
  | |- context [i32 ?e] =>
      lazymatch e with
      | context [i32 _] => fail
      | _ => rewrite (i32_small e) by (unfold is_i32, I32_MIN, I32_MAX; lia)
      end
  end.

(** Names the samples [pix r c] of the goal and records their range. *)
Ltac name_samples pix H :=
  repeat match goal with
  | |- context [pix ?r ?c] =>
      let z := fresh "s" in
      let Hz := fresh "Hs" in
      pose proof (H r c) as Hz; set (z := pix r c) in *; clearbody z
  end.

Ltac kernel_exact pix H :=
  cbn [foldr];
  repeat match goal with
  | |- context [?x [-] 2] => change (x [-] 2) with (x [+] -2)
  | |- context [?x [-] 1] => change (x [-] 1) with (x [+] -1)
  end;
  name_samples pix H;
  unfold is_u16, U16_MAX, I32_MIN, I32_MAX in *;
  change (2 ^ 16 - 1) with 65535 in *;
  split; [wrap_off; lia | lia].

Section KernelBounds.

Variable pix : Z -> Z -> Z.
Hypothesis pix_u16 : forall r c : Z, is_u16 (pix r c).

Lemma green_sum_exact (row col : Z) :
  green_sum pix row col = weighted_sum pix green_taps row col /\
  -4 * U16_MAX <= weighted_sum pix green_taps row col <= 12 * U16_MAX.
Proof. unfold green_sum, weighted_sum, green_taps. kernel_exact pix pix_u16. Qed.

Lemma row_sum_exact (row col : Z) :
  row_sum pix row col = weighted_sum pix row_taps row col /\
  -12 * U16_MAX <= weighted_sum pix row_taps row col <= 28 * U16_MAX.
Proof. unfold row_sum, weighted_sum, row_taps. kernel_exact pix pix_u16. Qed.

Lemma column_sum_exact (row col : Z) :
  column_sum pix row col = weighted_sum pix column_taps row col /\
  -12 * U16_MAX <= weighted_sum pix column_taps row col <= 28 * U16_MAX.
Proof. unfold column_sum, weighted_sum, column_taps. kernel_exact pix pix_u16. Qed.

Lemma opposite_sum_exact (row col : Z) :
  opposite_sum pix row col = weighted_sum pix opposite_taps row col /\
  -12 * U16_MAX <= weighted_sum pix opposite_taps row col <= 28 * U16_MAX.
Proof. unfold opposite_sum, weighted_sum, opposite_taps. kernel_exact pix pix_u16. Qed.

Lemma kernels_no_overflow (row col : Z) :
  no_overflow (green_sum pix row col) (weighted_sum pix green_taps row col) /\
  no_overflow (row_sum pix row col) (weighted_sum pix row_taps row col) /\
  no_overflow (column_sum pix row col) (weighted_sum pix column_taps row col) /\
  no_overflow (opposite_sum pix row col) (weighted_sum pix opposite_taps row col).
Proof.
  unfold no_overflow.
  destruct (green_sum_exact row col) as [-> ?], (row_sum_exact row col) as [-> ?],
    (column_sum_exact row col) as [-> ?], (opposite_sum_exact row col) as [-> ?].
  unfold U16_MAX, I32_MIN, I32_MAX in *. change (2 ^ 16 - 1) with 65535 in *.
  change (2 ^ 31) with 2147483648.
  repeat split; lia.
Qed.

End KernelBounds.

Lemma get_pixel16_safe_u16 (bayer : list Z) (n_rows n_cols row col : Z) :
  buffer16 bayer -> is_u16 (get_pixel16_safe bayer n_rows n_cols row col).
Proof. intros H. rewrite get_pixel16_safe_index. apply load_u16, H. Qed.

Lemma get_pixel8_safe_u8 (bayer : list Z) (n_rows n_cols row col : Z) :
  buffer8 bayer -> is_u8 (get_pixel8_safe bayer n_rows n_cols row col).
Proof. intros H. rewrite get_pixel8_safe_index. apply load_u8, H. Qed.

Lemma GET_PIX_u16 (bayer : list Z) (n_cols row col : Z) :
  buffer16 bayer -> is_u16 (GET_PIX bayer n_cols row col).
Proof. intros H. apply load_u16, H. Qed.

Lemma GET_PIX_u8 (bayer : list Z) (n_cols row col : Z) :
  buffer8 bayer -> is_u8 (GET_PIX bayer n_cols row col).
Proof. intros H. apply load_u8, H. Qed.

(** *** No operation of a kernel overflows *)

(** The kernels of the code are the expressions over the wrapping
    operations of [I32]. *)
Lemma kernels_over_i32 (pix : Z -> Z -> Z) (row col : Z) :
  green_sum pix row col
  = green_sum_over add32 sub32 mul32 (fun z => z) pix row col /\
  row_sum pix row col
  = row_sum_over add32 sub32 mul32 (fun z => z) pix row col /\
  column_sum pix row col
  = column_sum_over add32 sub32 mul32 (fun z => z) pix row col /\
  opposite_sum pix row col
  = opposite_sum_over add32 sub32 mul32 (fun z => z) pix row col.
Proof.
  cbv delta [green_sum row_sum column_sum opposite_sum
             green_sum_over row_sum_over column_sum_over opposite_sum_over].
  cbv beta. repeat split.
Qed.

Lemma is_i32b_true (x : Z) : is_i32 x -> is_i32b x = true.
Proof.
  unfold is_i32, is_i32b. intros [H1 H2].
  apply andb_true_iff. split; apply Z.leb_le; assumption.
Qed.

(** A checked operation whose exact result is representable gives what the
    wrapping operation gives. *)
Lemma checked_add32 (x y : Z) :
  is_i32 (x + y) -> checked Z.add (Some x) (Some y) = Some (x [+] y).
Proof.
  intros H. unfold checked, add32. rewrite is_i32b_true, i32_small by exact H.
  reflexivity.
Qed.

Lemma checked_sub32 (x y : Z) :
  is_i32 (x - y) -> checked Z.sub (Some x) (Some y) = Some (x [-] y).
Proof.
  intros H. unfold checked, sub32. rewrite is_i32b_true, i32_small by exact H.
  reflexivity.
Qed.

Lemma checked_mul32 (x y : Z) :
  is_i32 (x * y) -> checked Z.mul (Some x) (Some y) = Some (x [*] y).
Proof.
  intros H. unfold checked, mul32. rewrite is_i32b_true, i32_small by exact H.
  reflexivity.
Qed.

(** The exact value of an [I32] expression over 16-bit samples is in
    range. *)
Ltac in_i32 pix H :=
  name_samples pix H;
  unfold is_i32, is_u16, U16_MAX, I32_MIN, I32_MAX in *;
  change (2 ^ 16 - 1) with 65535 in *;
  wrap_off; lia.

(** Coordinates first, then the products, then the partial sums from the
    left. *)
Ltac checked_kernel pix H :=
  rewrite !checked_sub32, !checked_add32
    by (unfold is_i32, I32_MIN, I32_MAX in *; lia);
  cbn [sample_at];
  rewrite !checked_mul32 by in_i32 pix H;
  repeat rewrite checked_add32 by in_i32 pix H;
  reflexivity.

Section KernelChecked.

Variables (pix : Z -> Z -> Z) (row col : Z).
Hypothesis pix_u16 : forall r c : Z, is_u16 (pix r c).
Hypothesis row_ok : is_i32 (row - 2) /\ is_i32 (row + 2).
Hypothesis col_ok : is_i32 (col - 2) /\ is_i32 (col + 2).

Lemma green_sum_checked_exact :
  green_sum_checked pix row col = Some (green_sum pix row col).
Proof.
  destruct row_ok, col_ok.
  unfold green_sum_checked, green_sum_over, green_sum. checked_kernel pix pix_u16.
Qed.

Lemma row_sum_checked_exact :
  row_sum_checked pix row col = Some (row_sum pix row col).
Proof.
  destruct row_ok, col_ok.
  unfold row_sum_checked, row_sum_over, row_sum. checked_kernel pix pix_u16.
Qed.

Lemma column_sum_checked_exact :
  column_sum_checked pix row col = Some (column_sum pix row col).
Proof.
  destruct row_ok, col_ok.
  unfold column_sum_checked, column_sum_over, column_sum. checked_kernel pix pix_u16.
Qed.

Lemma opposite_sum_checked_exact :
  opposite_sum_checked pix row col = Some (opposite_sum pix row col).
Proof.
  destruct row_ok, col_ok.
  unfold opposite_sum_checked, opposite_sum_over, opposite_sum.
  checked_kernel pix pix_u16.
Qed.

End KernelChecked.

(** The coordinates two away from a pixel of an image with an even number
    of rows (or columns) are representable. *)
Lemma coordinate_near_in_i32 (n x : Z) :
  is_i32 n -> Z.rem n 2 = 0 -> 0 <= x < n -> is_i32 (x - 2) /\ is_i32 (x + 2).
Proof.
  unfold is_i32, I32_MIN, I32_MAX. change (2 ^ 31) with 2147483648.
  intros Hn He Hx.
  assert (Hn' : n <= 2147483646) by (Z.to_euclidean_division_equations; lia).
  lia.
Qed.

(** C7. For samples in the 16-bit range [0, 65535] no signed overflow
    occurs in the kernels (green at red or blue, red/blue from the row, from
    the column, from the opposite colour), evaluated with the accessor of the
    safe helpers (16-bit or 8-bit) or with the unchecked macro of the inner
    loops.  The accumulator equals the exact weighted sum, which lies
    strictly inside the range of a 32-bit signed integer; and at every pixel
    of an image with even dimensions the kernel evaluated with checked
    arithmetic gives that sum: no coordinate, no product and no partial sum
    of the expression leaves the range of [I32]. *)
Theorem kernel_accumulators_fit_i32
    (bayer : list Z) (n_rows n_cols row col : Z) (pix : Z -> Z -> Z) :
  buffer16 bayer ->
  pix = get_pixel16_safe bayer n_rows n_cols \/
  pix = get_pixel8_safe bayer n_rows n_cols \/
  pix = GET_PIX bayer n_cols ->
  (no_overflow (green_sum pix row col) (weighted_sum pix green_taps row col) /\
   no_overflow (row_sum pix row col) (weighted_sum pix row_taps row col) /\
   no_overflow (column_sum pix row col) (weighted_sum pix column_taps row col) /\
   no_overflow (opposite_sum pix row col) (weighted_sum pix opposite_taps row col)) /\
  (is_i32 n_rows -> is_i32 n_cols -> Z.rem n_rows 2 = 0 -> Z.rem n_cols 2 = 0 ->
   0 <= row < n_rows -> 0 <= col < n_cols ->
   green_sum_checked pix row col = Some (weighted_sum pix green_taps row col) /\
   row_sum_checked pix row col = Some (weighted_sum pix row_taps row col) /\
   column_sum_checked pix row col = Some (weighted_sum pix column_taps row col) /\
   opposite_sum_checked pix row col = Some (weighted_sum pix opposite_taps row col)).
Proof.
  intros Hb Hpix.
  assert (Hu : forall r c : Z, is_u16 (pix r c)).
  { intros r c. destruct Hpix as [-> | [-> | ->]].
    - apply get_pixel16_safe_u16, Hb.
    - apply get_pixel16_safe_u16, Hb.
    - apply GET_PIX_u16, Hb. }
  pose proof (kernels_no_overflow pix Hu row col) as (Hg & Hr & Hc & Ho).
  split; [tauto|].
  intros Tr Tc Er Ec Hrow Hcol.
  pose proof (coordinate_near_in_i32 n_rows row Tr Er Hrow) as Hrow'.
  pose proof (coordinate_near_in_i32 n_cols col Tc Ec Hcol) as Hcol'.
  rewrite (green_sum_checked_exact pix row col Hu Hrow' Hcol'),
    (row_sum_checked_exact pix row col Hu Hrow' Hcol'),
    (column_sum_checked_exact pix row col Hu Hrow' Hcol'),
    (opposite_sum_checked_exact pix row col Hu Hrow' Hcol').
  rewrite (proj1 Hg), (proj1 Hr), (proj1 Hc), (proj1 Ho). tauto.
Qed.

Lemma kernel_accumulators_fit_i32_witness :
  opposite_sum_checked (GET_PIX (replicate 36 65535) 6) 2 2
  = Some (weighted_sum (GET_PIX (replicate 36 65535) 6) opposite_taps 2 2).
Proof.
  destruct (kernel_accumulators_fit_i32 (replicate 36 65535) 6 6 2 2
              (GET_PIX (replicate 36 65535) 6)) as [_ H].
  - unfold buffer16. apply Forall_replicate. unfold is_u16, U16_MAX. lia.
  - right. right. reflexivity.
  - apply H; unfold is_i32, I32_MIN, I32_MAX; simpl; first [reflexivity | lia].
Defined.

(** C4. The green kernel evaluator returns the clamp, by the policy of the
    specification, of the truncating quotient by 8 of the weighted sum of
    the edge-safe samples under the cross-shaped taps; the clamp applies to
    the quotient.  [get_green8] does the same on 8-bit samples when
    [max_val <= 255]. *)
Theorem green_kernel_clamped_quotient
    (bayer : list Z) (args : demosaic_args) (row col : Z) :
  args_typed args ->
  (buffer16 bayer ->
   get_green16 bayer args row col
   = clamp_spec
       (Z.quot (weighted_sum (get_pixel16_safe bayer (n_rows args) (n_cols args))
                             green_taps row col) 8)
       (max_val args)) /\
  (buffer8 bayer -> max_val args <= U8_MAX ->
   get_green8 bayer args row col
   = clamp_spec
       (Z.quot (weighted_sum (get_pixel8_safe bayer (n_rows args) (n_cols args))
                             green_taps row col) 8)
       (max_val args)).
Proof.
  intros [_ _ Hmax _]. split.
  - intros Hb. unfold get_green16, div32.
    rewrite (i32_small (max_val args)) by (apply is_u16_is_i32, Hmax).
    destruct (green_sum_exact _
                (fun r c => get_pixel16_safe_u16 bayer (n_rows args) (n_cols args)
                              r c Hb)
                row col) as [-> _].
    rewrite <- DM_LIMIT_clamp_spec. apply u16_small.
    pose proof (DM_LIMIT_range
      (Z.quot (weighted_sum (get_pixel16_safe bayer (n_rows args) (n_cols args))
                            green_taps row col) 8) (max_val args)).
    unfold is_u16 in *. lia.
  - intros Hb H255. unfold get_green8, div32.
    rewrite (i32_small (max_val args)) by (apply is_u16_is_i32, Hmax).
    destruct (green_sum_exact _
                (fun r c => get_pixel16_safe_u16 bayer (n_rows args) (n_cols args)
                              r c (buffer8_buffer16 _ Hb))
                row col) as [E _].
    change (get_pixel8_safe bayer (n_rows args) (n_cols args))
      with (get_pixel16_safe bayer (n_rows args) (n_cols args)).
    rewrite E, <- DM_LIMIT_clamp_spec. apply u8_small.
    pose proof (DM_LIMIT_range
      (Z.quot (weighted_sum (get_pixel16_safe bayer (n_rows args) (n_cols args))
                            green_taps row col) 8) (max_val args)).
    unfold is_u16, is_u8 in *. lia.
Qed.

Lemma green_kernel_clamped_quotient_witness :
  get_green16 [0; 900; 0; 900; 0; 900; 0; 900; 0; 900; 0; 900; 0; 900; 0; 900]
              (mk_args 4 4 4095 4 (mk_coefs F64ops.one F64ops.one F64ops.one)) 0 0
  = 450.
Proof.
  destruct (green_kernel_clamped_quotient
              [0; 900; 0; 900; 0; 900; 0; 900; 0; 900; 0; 900; 0; 900; 0; 900]
              (mk_args 4 4 4095 4 (mk_coefs F64ops.one F64ops.one F64ops.one)) 0 0)
    as [H16 _].
  - split; unfold is_i32, is_u16, I32_MIN, I32_MAX, U16_MAX; simpl; lia.
  - rewrite H16; [reflexivity|].
    unfold buffer16. repeat constructor; unfold U16_MAX; lia.
Defined.

(** ** The output row and the column loops *)

Section Loops.

Context {P : Type}.
Implicit Types (out : list P) (f g : Z -> P).

Lemma lookup_write out (c : Z) (v : P) (i : nat) :
  write out c v !! i
  = if decide (0 <= c /\ Z.to_nat c = i /\ (i < length out)%nat)
    then Some v else out !! i.
Proof.
  unfold write. destruct (Z.leb_spec 0 c).
  - destruct (decide (Z.to_nat c = i)) as [<-|Hne].
    + destruct (decide (Z.to_nat c < length out)%nat).
      * rewrite list_lookup_insert_eq by assumption.
        rewrite decide_True; [done|lia].
      * rewrite list_insert_ge by lia. rewrite decide_False; [done|lia].
    + rewrite list_lookup_insert_ne by assumption.
      rewrite decide_False; [done|lia].
  - rewrite decide_False; [done|lia].
Qed.

Lemma length_write out c v : length (write out c v) = length out.
Proof. unfold write. destruct (0 <=? c); [apply length_insert|done]. Qed.

Lemma lookup_fill_range (pixel : Z -> P) lo hi out (i : nat) :
  fill_range pixel lo hi out !! i
  = (fun x => if (lo <=? Z.of_nat i) && (Z.of_nat i <? hi)
              then pixel (Z.of_nat i) else x) <$> out !! i.
Proof. unfold fill_range. apply list_lookup_imap. Qed.

Lemma length_fill_range (pixel : Z -> P) lo hi out :
  length (fill_range pixel lo hi out) = length out.
Proof. unfold fill_range. apply length_imap. Qed.

Lemma fill_range_empty (pixel : Z -> P) lo hi out :
  hi <= lo -> fill_range pixel lo hi out = out.
Proof.
  intros H. apply list_eq. intros i. rewrite lookup_fill_range.
  destruct (out !! i); simpl; [|done].
  destruct (Z.leb_spec lo (Z.of_nat i)), (Z.ltb_spec (Z.of_nat i) hi);
    simpl; try done; lia.
Qed.

Lemma fill_range_ext (pixel pixel' : Z -> P) lo hi out :
  (forall col, lo <= col < hi -> pixel col = pixel' col) ->
  fill_range pixel lo hi out = fill_range pixel' lo hi out.
Proof.
  intros H. apply list_eq. intros i. rewrite !lookup_fill_range.
  destruct (out !! i); simpl; [|done].
  destruct (Z.leb_spec lo (Z.of_nat i)), (Z.ltb_spec (Z.of_nat i) hi);
    simpl; try done.
  rewrite H by lia. reflexivity.
Qed.

(** What a filled row holds at a column. *)
Lemma fill_range_at (pixel : Z -> P) (n : Z) out (col : Z) :
  0 <= col < n -> col < Z.of_nat (length out) ->
  fill_range pixel 0 n out !! Z.to_nat col = Some (pixel col).
Proof.
  intros Hc Hl. rewrite lookup_fill_range.
  destruct (lookup_lt_is_Some_2 out (Z.to_nat col) ltac:(lia)) as [x ->]. simpl.
  rewrite Z2Nat.id by lia.
  destruct (Z.leb_spec 0 col), (Z.ltb_spec col n); simpl; try lia. reflexivity.
Qed.

Lemma while_done fuel (test : Z -> bool) (body : Z -> M (P := P) Z) col s :
  test col = false -> while fuel test body col s = (Done col, s).
Proof. intros H. destruct fuel; simpl; rewrite H; reflexivity. Qed.

(** The column loop from an even column [lo] to an even bound [hi] returns,
    with the fuel the row functions give it, and has stored the pixel of
    every column in between. *)
Lemma while_two_pixels f g (hi : Z) (fuel : nat) :
  forall lo out,
    0 <= lo <= hi -> hi < I32_MAX -> Z.even lo = true -> Z.even hi = true ->
    (Z.to_nat (hi - lo) <= 2 * fuel)%nat ->
    while fuel (fun col => col <? hi) (two_pixels f g) lo (Some out)
    = (Done hi, Some (fill_range (phase f g) lo hi out)).
Proof.
  induction fuel as [|fuel IH]; intros lo out Hlo Hhi Elo Ehi Hfuel.
  - assert (lo = hi) as -> by lia.
    rewrite while_done by (apply Z.ltb_irrefl).
    rewrite fill_range_empty by lia. reflexivity.
  - destruct (Z.ltb_spec lo hi) as [Hlt|Hge].
    + assert (Hlo2 : lo + 2 <= hi).
      { destruct (Z.eq_dec (lo + 1) hi) as [<-|]; [|lia].
        rewrite Z.even_add in Ehi. rewrite Elo in Ehi. discriminate. }
      simpl. destruct (Z.ltb_spec lo hi); [|lia].
      unfold bind at 1. unfold two_pixels, bind, store, ret. simpl.
      assert (Hhi' := Hhi). unfold I32_MAX in Hhi'.
      assert (E1 : lo [+] 1 = lo + 1) by (wrap_off; reflexivity).
      rewrite E1.
      assert (E2 : lo + 1 [+] 1 = lo + 2) by (wrap_off; lia).
      rewrite E2.
      rewrite IH; [| lia | assumption | rewrite Z.even_add, Elo; reflexivity
                   | assumption | lia].
      f_equal. f_equal. apply list_eq. intros i.
      rewrite !lookup_fill_range, !lookup_write, length_write.
      unfold phase.
      destruct (decide (0 <= lo + 1 /\ Z.to_nat (lo + 1) = i
                        /\ (i < length out)%nat)) as [(?&?&?)|N1].
      * subst i.
        destruct (lookup_lt_is_Some_2 out (Z.to_nat (lo + 1)) ltac:(lia)) as [x Hx].
        rewrite Hx. simpl. rewrite Z2Nat.id by lia.
        destruct (Z.leb_spec (lo + 2) (lo + 1)); try lia. simpl.
        destruct (Z.leb_spec lo (lo + 1)); try lia.
        destruct (Z.ltb_spec (lo + 1) hi); try lia. simpl.
        rewrite Z.even_add, Elo. reflexivity.
      * destruct (decide (0 <= lo /\ Z.to_nat lo = i /\ (i < length out)%nat))
          as [(?&?&?)|N0].
        -- subst i.
           destruct (lookup_lt_is_Some_2 out (Z.to_nat lo) ltac:(lia)) as [x Hx].
           rewrite Hx. simpl. rewrite Z2Nat.id by lia.
           destruct (Z.leb_spec (lo + 2) lo); try lia. simpl.
           destruct (Z.leb_spec lo lo); try lia.
           destruct (Z.ltb_spec lo hi); try lia. simpl.
           rewrite Elo. reflexivity.
        -- destruct (out !! i) as [x|] eqn:Hx; simpl; [|done].
           apply lookup_lt_Some in Hx.
           destruct (Z.leb_spec (lo + 2) (Z.of_nat i)), (Z.leb_spec lo (Z.of_nat i));
             simpl; try reflexivity; lia.
    + assert (lo = hi) as -> by lia.
      rewrite while_done by (apply Z.ltb_irrefl).
      rewrite fill_range_empty by lia. reflexivity.
Qed.

Lemma even_i32_lt_max (n : Z) : is_i32 n -> Z.even n = true -> n < I32_MAX.
Proof.
  unfold is_i32. intros [_ H] E. destruct (Z.eq_dec n I32_MAX) as [->|]; [|lia].
  vm_compute in E. discriminate.
Qed.

(** The column loop of an unoptimized row function. *)
Lemma unoptimized_body f g (n : Z) out :
  0 <= n -> is_i32 n -> Z.even n = true ->
  (while (Z.to_nat n) (fun col => col <? n) (two_pixels f g) 0 ;; ret tt) (Some out)
  = (Done tt, Some (fill_range (phase f g) 0 n out)).
Proof.
  intros H0 Hn En. unfold bind at 1.
  rewrite while_two_pixels;
    [reflexivity | lia | apply even_i32_lt_max; assumption | reflexivity
     | assumption | lia].
Qed.

(** The body of an optimized row function on an interior row: safe helpers
    at the two left columns, the inner loop, safe helpers at the two right
    columns (which are the two left ones again when the image has two
    columns). *)
Lemma optimized_body fs gs fi gi (n : Z) out :
  2 <= n -> is_i32 n -> Z.even n = true ->
  (store 0 (fs 0) ;;
   store 1 (gs 1) ;;
   while (Z.to_nat n) (fun col => col <? n [-] 2) (two_pixels fi gi) 2 ;;
   store (n [-] 2) (fs (n [-] 2)) ;;
   store (n [-] 1) (gs (n [-] 1))) (Some out)
  = (Done tt,
     Some (fill_range (edge_or_inner (phase fs gs) (phase fi gi) n) 0 n out)).
Proof.
  intros H2 Hn En.
  pose proof (even_i32_lt_max n Hn En) as Hlt.
  assert (Hn' := Hn). unfold is_i32, I32_MIN, I32_MAX in Hn'.
  assert (E2 : n [-] 2 = n - 2) by (wrap_off; reflexivity).
  assert (E1 : n [-] 1 = n - 1) by (wrap_off; reflexivity).
  rewrite E2, E1.
  assert (En2 : Z.even (n - 2) = true) by (rewrite Z.even_sub, En; reflexivity).
  assert (Eo1 : Z.even (n - 1) = false) by (rewrite Z.even_sub, En; reflexivity).
  unfold bind, store at 1 2. simpl.
  assert (Hloop : while (Z.to_nat n) (fun col => col <? n - 2) (two_pixels fi gi) 2
                    (Some (write (write out 0 (fs 0)) 1 (gs 1)))
                  = (Done (Z.max 2 (n - 2)),
                     Some (fill_range (phase fi gi) 2 (n - 2)
                             (write (write out 0 (fs 0)) 1 (gs 1))))).
  { destruct (Z.eq_dec n 2) as [->|Hne].
    - rewrite while_done by reflexivity. rewrite fill_range_empty by lia.
      reflexivity.
    - assert (4 <= n).
      { destruct (Z.eq_dec n 3) as [->|]; [discriminate En | lia]. }
      rewrite while_two_pixels;
        [| lia | unfold I32_MAX in *; lia | reflexivity | assumption | lia].
      rewrite Z.max_r by lia. reflexivity. }
  rewrite Hloop. unfold store. simpl.
  f_equal. f_equal. apply list_eq. intros i.
  rewrite !lookup_write, !length_write, !length_fill_range, !length_write.
  rewrite !lookup_fill_range, !lookup_write, !length_write.
  unfold edge_or_inner, phase.
  repeat case_decide; destruct (out !! i) as [x|] eqn:Hx; simpl;
    try (apply lookup_lt_Some in Hx); try (apply lookup_ge_None in Hx);
    try lia.
  all: repeat match goal with
       | |- context [Z.leb ?a ?b] => destruct (Z.leb_spec a b); simpl
       | |- context [Z.ltb ?a ?b] => destruct (Z.ltb_spec a b); simpl
       end; try lia.
  all: repeat match goal with H : _ /\ _ |- _ => destruct H end.
  all: try (assert (Z.of_nat i = n - 1) as -> by lia; rewrite Eo1; reflexivity).
  all: try (assert (Z.of_nat i = n - 2) as -> by lia; rewrite En2; reflexivity).
  all: try (assert (Z.of_nat i = 1) as -> by lia; reflexivity).
  all: try (assert (Z.of_nat i = 0) as -> by lia; reflexivity).
  all: try reflexivity.
Qed.

(** Assertions that hold fall through. *)
Lemma assert_true {A : Type} (test : bool) (k : M (P := P) A) s :
  test = true -> (DEMOSAIC_ASSERT test ;; k) s = k s.
Proof. intros ->. reflexivity. Qed.

Lemma assert_false {A : Type} (test : bool) (k : M (P := P) A) s :
  test = false -> (DEMOSAIC_ASSERT test ;; k) s = (Fatal, s).
Proof. intros ->. reflexivity. Qed.

Lemma assert_dimensions_true {A : Type} (args : demosaic_args) (k : M (P := P) A) s :
  proper_dimensions args = true ->
  (demosaic_malvar_assert_proper_dimensions args ;; k) s = k s.
Proof.
  unfold proper_dimensions. rewrite !andb_true_iff. intros [[[H1 H2] H3] H4].
  unfold demosaic_malvar_assert_proper_dimensions, bind, DEMOSAIC_ASSERT.
  rewrite H1, H2, H3, H4. reflexivity.
Qed.

Lemma assert_dimensions_false {A : Type} (args : demosaic_args) (k : M (P := P) A) s :
  proper_dimensions args = false ->
  (demosaic_malvar_assert_proper_dimensions args ;; k) s = (Fatal, s).
Proof.
  unfold proper_dimensions.
  unfold demosaic_malvar_assert_proper_dimensions, bind, DEMOSAIC_ASSERT.
  destruct (n_cols args >=? 2), (n_rows args >=? 2), (n_cols args [%] 2 =? 0),
    (n_rows args [%] 2 =? 0); simpl; intros H; try discriminate H; reflexivity.
Qed.

Lemma normalize_coefs_true {A : Type} (args : demosaic_args)
    (k : demosaic_luma_coefs -> M (P := P) A) s :
  valid_coefs args = true ->
  (coefs_normed <- demosaic_normalize_coefs args ;; k coefs_normed) s
  = k (normalize_coefs (coefs args)) s.
Proof.
  unfold valid_coefs. rewrite !andb_true_iff. intros [[[H1 H2] H3] H4].
  unfold demosaic_normalize_coefs, bind, DEMOSAIC_ASSERT, ret.
  rewrite H1, H2, H3, H4. reflexivity.
Qed.

End Loops.

Lemma not_null_some {P A B : Type} (a : A) (k : A -> M (P := P) B) s :
  (x <- ASSERT_NOT_NULL (Some a) ;; k x) s = k a s.
Proof. reflexivity. Qed.

Lemma output_not_null_some {P B : Type} (k : M (P := P) B) (out : list P) :
  (ASSERT_OUTPUT_NOT_NULL ;; k) (Some out) = k (Some out).
Proof. reflexivity. Qed.

Lemma even_of_rem (n : Z) : Z.rem n 2 = 0 -> Z.even n = true.
Proof.
  intros H. pose proof (Z.quot_rem' n 2) as E. rewrite H, Z.add_0_r in E.
  rewrite E, Z.even_mul. reflexivity.
Qed.

Lemma proper_dimensions_facts (args : demosaic_args) :
  proper_dimensions args = true ->
  2 <= n_cols args /\ 2 <= n_rows args /\
  Z.even (n_cols args) = true /\ Z.even (n_rows args) = true /\
  Z.rem (n_cols args) 2 = 0 /\ Z.rem (n_rows args) 2 = 0.
Proof.
  unfold proper_dimensions, rem32. rewrite !andb_true_iff, !Z.geb_leb.
  intros [[[H1 H2] H3] H4].
  apply Z.leb_le in H1, H2. apply Z.eqb_eq in H3, H4.
  repeat split; try assumption; apply even_of_rem; assumption.
Qed.

Lemma row_in_image_true (args : demosaic_args) (row : Z) :
  0 <= row < n_rows args -> (0 <=? row) && (row <? n_rows args) = true.
Proof. intros H. apply andb_true_iff. split; [apply Z.leb_le | apply Z.ltb_lt]; lia. Qed.

(** Discharges the assertions of a row function that was given valid
    arguments. *)
Ltac pass_asserts :=
  repeat first
    [ rewrite not_null_some
    | rewrite output_not_null_some
    | rewrite assert_dimensions_true by assumption
    | rewrite normalize_coefs_true by assumption
    | rewrite assert_true by first [assumption | apply row_in_image_true; assumption] ].

Ltac split_valid V :=
  unfold valid_args, max_val_is_8bit, shift_to_8bit in V;
  repeat match type of V with
         | (_ && _ = true) => let V' := fresh "V" in
                              apply andb_true_iff in V; destruct V as [V V']
         end;
  repeat match goal with
         | H : (_ && _ = true) |- _ => let H' := fresh "V" in
                                       apply andb_true_iff in H; destruct H as [H H']
         end.

(** *** What the row functions leave in the output row *)

Ltac run_unoptimized T V :=
  split_valid V;
  let Hc := fresh "Hc" in let Ec := fresh "Ec" in
  match goal with
  | H : proper_dimensions ?args = true |- _ =>
      destruct (proper_dimensions_facts args H) as (Hc & _ & Ec & _)
  end;
  pass_asserts;
  cbv beta zeta; unfold by_phase;
  match goal with |- context [?r [%] 2 =? 0] => destruct (r [%] 2 =? 0) end;
  cbv beta;
  match goal with
  | |- _ = (_, Some (fill_range (fun c => phase ?f ?g c) _ ?n ?out)) =>
      apply (unoptimized_body f g n out)
  end; first [lia | apply T | assumption].

Lemma rgb16_unoptimized_run (bayer : list Z) (args : demosaic_args) (row : Z)
    (out : list demosaic_pix_rgb16) :
  args_typed args -> valid_args rgb16 args = true -> 0 <= row < n_rows args ->
  demosaic_malvar_row_rgb16_unoptimized (Some bayer) (Some args) row (Some out)
  = (Done tt, Some (fill_range (safe_rgb16 bayer args row) 0 (n_cols args) out)).
Proof.
  intros T V Hrow. unfold demosaic_malvar_row_rgb16_unoptimized, safe_rgb16.
  run_unoptimized T V.
Qed.

Lemma rgb8_unoptimized_run (bayer : list Z) (args : demosaic_args) (row : Z)
    (out : list demosaic_pix_rgb8) :
  args_typed args -> valid_args rgb8 args = true -> 0 <= row < n_rows args ->
  demosaic_malvar_row_rgb8_unoptimized (Some bayer) (Some args) row (Some out)
  = (Done tt, Some (fill_range (safe_rgb8 bayer args row) 0 (n_cols args) out)).
Proof.
  intros T V Hrow. unfold demosaic_malvar_row_rgb8_unoptimized, safe_rgb8.
  run_unoptimized T V.
Qed.

Lemma rgb16to8_unoptimized_run (bayer : list Z) (args : demosaic_args) (row : Z)
    (out : list demosaic_pix_rgb8) :
  args_typed args -> valid_args rgb16to8 args = true -> 0 <= row < n_rows args ->
  demosaic_malvar_row_rgb16to8_unoptimized (Some bayer) (Some args) row (Some out)
  = (Done tt, Some (fill_range (safe_rgb16to8 bayer args row) 0 (n_cols args) out)).
Proof.
  intros T V Hrow. unfold demosaic_malvar_row_rgb16to8_unoptimized, safe_rgb16to8.
  run_unoptimized T V.
Qed.

Lemma mono16_unoptimized_run (bayer : list Z) (args : demosaic_args) (row : Z)
    (out : list Z) :
  args_typed args -> valid_args mono16 args = true -> 0 <= row < n_rows args ->
  demosaic_malvar_row_mono16_unoptimized (Some bayer) (Some args) row (Some out)
  = (Done tt, Some (fill_range (safe_mono16 bayer args row) 0 (n_cols args) out)).
Proof.
  intros T V Hrow. unfold demosaic_malvar_row_mono16_unoptimized, safe_mono16.
  run_unoptimized T V.
Qed.

Lemma mono8_unoptimized_run (bayer : list Z) (args : demosaic_args) (row : Z)
    (out : list Z) :
  args_typed args -> valid_args mono8 args = true -> 0 <= row < n_rows args ->
  demosaic_malvar_row_mono8_unoptimized (Some bayer) (Some args) row (Some out)
  = (Done tt, Some (fill_range (safe_mono8 bayer args row) 0 (n_cols args) out)).
Proof.
  intros T V Hrow. unfold demosaic_malvar_row_mono8_unoptimized, safe_mono8.
  run_unoptimized T V.
Qed.

Lemma valid_coefs_split (args : demosaic_args) :
  valid_coefs args = true ->
  coef_in_unit (coef_red (coefs args)) = true /\
  coef_in_unit (coef_green (coefs args)) = true /\
  coef_in_unit (coef_blue (coefs args)) = true /\
  F64ops.ltb (normed_sum (normalize_coefs (coefs args))) F64ops.one = true.
Proof. unfold valid_coefs. rewrite !andb_true_iff. tauto. Qed.

Lemma mono16to8_unoptimized_run (bayer : list Z) (args : demosaic_args) (row : Z)
    (out : list Z) :
  args_typed args -> valid_args mono16to8 args = true -> 0 <= row < n_rows args ->
  demosaic_malvar_row_mono16to8_unoptimized (Some bayer) (Some args) row (Some out)
  = (Done tt, Some (fill_range (safe_mono16to8 bayer args row) 0 (n_cols args) out)).
Proof.
  intros T V Hrow. unfold demosaic_malvar_row_mono16to8_unoptimized, safe_mono16to8.
  assert (Hco : valid_coefs args = true)
    by (unfold valid_args in V; rewrite !andb_true_iff in V; tauto).
  destruct (valid_coefs_split args Hco) as (C1 & C2 & C3 & C4).
  run_unoptimized T V.
Qed.

Lemma edge_test (args : demosaic_args) (row : Z) :
  args_typed args -> 2 <= n_rows args ->
  (row <? 2) || (row >=? n_rows args [-] 2)
  = negb ((2 <=? row) && (row <? n_rows args - 2)).
Proof.
  intros [Hr _ _ _] H2. unfold is_i32, I32_MIN, I32_MAX in Hr.
  assert (E : n_rows args [-] 2 = n_rows args - 2) by (wrap_off; reflexivity).
  rewrite E, Z.geb_leb.
  destruct (Z.ltb_spec row 2), (Z.leb_spec 2 row), (Z.leb_spec (n_rows args - 2) row),
    (Z.ltb_spec row (n_rows args - 2)); simpl; try reflexivity; lia.
Qed.

Lemma edge_test_interior (args : demosaic_args) (row : Z) :
  args_typed args -> 2 <= n_rows args -> 2 <= row < n_rows args - 2 ->
  (row <? 2) || (row >=? n_rows args [-] 2) = false.
Proof.
  intros T H2 Hrow. rewrite edge_test by assumption.
  destruct (Z.leb_spec 2 row), (Z.ltb_spec row (n_rows args - 2)); simpl;
    try reflexivity; lia.
Qed.

Lemma edge_test_edge (args : demosaic_args) (row : Z) :
  args_typed args -> 2 <= n_rows args -> ~ (2 <= row < n_rows args - 2) ->
  (row <? 2) || (row >=? n_rows args [-] 2) = true.
Proof.
  intros T H2 Hrow. rewrite edge_test by assumption.
  destruct (Z.leb_spec 2 row), (Z.ltb_spec row (n_rows args - 2)); simpl;
    try reflexivity; lia.
Qed.

Ltac run_optimized T V Hrow :=
  split_valid V;
  let Hc := fresh "Hc" in let Hr := fresh "Hr" in let Ec := fresh "Ec" in
  match goal with
  | H : proper_dimensions ?args = true |- _ =>
      destruct (proper_dimensions_facts args H) as (Hc & Hr & Ec & _)
  end;
  rewrite not_null_some;
  rewrite edge_test_interior by first [assumption | lia];
  pass_asserts;
  cbv beta zeta; unfold by_phase;
  match goal with |- context [?r [%] 2 =? 0] => destruct (r [%] 2 =? 0) end;
  cbv beta;
  match goal with
  | |- _ = (_, Some (fill_range (edge_or_inner (fun c => phase ?fs ?gs c)
                                               (fun d => phase ?fi ?gi d) ?n)
                                _ _ ?out)) =>
      apply (optimized_body fs gs fi gi n out)
  end; first [lia | apply T | assumption].

Lemma rgb16_optimized_run (bayer : list Z) (args : demosaic_args) (row : Z)
    (out : list demosaic_pix_rgb16) :
  args_typed args -> valid_args rgb16 args = true -> 2 <= row < n_rows args - 2 ->
  demosaic_malvar_row_rgb16 (Some bayer) (Some args) row (Some out)
  = (Done tt, Some (fill_range (optimized_rgb16 bayer args row) 0 (n_cols args) out)).
Proof.
  intros T V Hrow. assert (Hrow' : 0 <= row < n_rows args) by lia.
  unfold demosaic_malvar_row_rgb16, optimized_rgb16, safe_rgb16, inner_pixel.
  run_optimized T V Hrow.
Qed.

Lemma rgb8_optimized_run (bayer : list Z) (args : demosaic_args) (row : Z)
    (out : list demosaic_pix_rgb8) :
  args_typed args -> valid_args rgb8 args = true -> 2 <= row < n_rows args - 2 ->
  demosaic_malvar_row_rgb8 (Some bayer) (Some args) row (Some out)
  = (Done tt, Some (fill_range (optimized_rgb8 bayer args row) 0 (n_cols args) out)).
Proof.
  intros T V Hrow. assert (Hrow' : 0 <= row < n_rows args) by lia.
  unfold demosaic_malvar_row_rgb8, optimized_rgb8, safe_rgb8, inner_pixel.
  run_optimized T V Hrow.
Qed.

Lemma rgb16to8_optimized_run (bayer : list Z) (args : demosaic_args) (row : Z)
    (out : list demosaic_pix_rgb8) :
  args_typed args -> valid_args rgb16to8 args = true -> 2 <= row < n_rows args - 2 ->
  demosaic_malvar_row_rgb16to8 (Some bayer) (Some args) row (Some out)
  = (Done tt, Some (fill_range (optimized_rgb16to8 bayer args row) 0 (n_cols args) out)).
Proof.
  intros T V Hrow. assert (Hrow' : 0 <= row < n_rows args) by lia.
  unfold demosaic_malvar_row_rgb16to8, optimized_rgb16to8, safe_rgb16to8, inner_pixel.
  run_optimized T V Hrow.
Qed.

Lemma mono16_optimized_run (bayer : list Z) (args : demosaic_args) (row : Z)
    (out : list Z) :
  args_typed args -> valid_args mono16 args = true -> 2 <= row < n_rows args - 2 ->
  demosaic_malvar_row_mono16 (Some bayer) (Some args) row (Some out)
  = (Done tt, Some (fill_range (optimized_mono16 bayer args row) 0 (n_cols args) out)).
Proof.
  intros T V Hrow. assert (Hrow' : 0 <= row < n_rows args) by lia.
  unfold demosaic_malvar_row_mono16, optimized_mono16, safe_mono16, inner_mono.
  run_optimized T V Hrow.
Qed.

Lemma mono8_optimized_run (bayer : list Z) (args : demosaic_args) (row : Z)
    (out : list Z) :
  args_typed args -> valid_args mono8 args = true -> 2 <= row < n_rows args - 2 ->
  demosaic_malvar_row_mono8 (Some bayer) (Some args) row (Some out)
  = (Done tt, Some (fill_range (optimized_mono8 bayer args row) 0 (n_cols args) out)).
Proof.
  intros T V Hrow. assert (Hrow' : 0 <= row < n_rows args) by lia.
  unfold demosaic_malvar_row_mono8, optimized_mono8, safe_mono8, inner_mono.
  run_optimized T V Hrow.
Qed.

Lemma mono16to8_optimized_run (bayer : list Z) (args : demosaic_args) (row : Z)
    (out : list Z) :
  args_typed args -> valid_args mono16to8 args = true -> 2 <= row < n_rows args - 2 ->
  demosaic_malvar_row_mono16to8 (Some bayer) (Some args) row (Some out)
  = (Done tt, Some (fill_range (optimized_mono16to8 bayer args row) 0 (n_cols args) out)).
Proof.
  intros T V Hrow. assert (Hrow' : 0 <= row < n_rows args) by lia.
  unfold demosaic_malvar_row_mono16to8, optimized_mono16to8, safe_mono16to8, inner_mono.
  assert (Hco : valid_coefs args = true)
    by (unfold valid_args in V; rewrite !andb_true_iff in V; tauto).
  destruct (valid_coefs_split args Hco) as (C1 & C2 & C3 & C4).
  run_optimized T V Hrow.
Qed.

(** On the two top and the two bottom rows an optimized row function is
    the unoptimized one. *)
Ltac run_edge T H2 Hrow :=
  rewrite not_null_some; rewrite edge_test_edge by first [assumption | lia];
  reflexivity.

Lemma rgb16_edge_row bayer (args : demosaic_args) (row : Z) s :
  args_typed args -> 2 <= n_rows args -> ~ (2 <= row < n_rows args - 2) ->
  demosaic_malvar_row_rgb16 bayer (Some args) row s
  = demosaic_malvar_row_rgb16_unoptimized bayer (Some args) row s.
Proof. intros T H2 Hrow. unfold demosaic_malvar_row_rgb16. run_edge T H2 Hrow. Qed.

Lemma rgb8_edge_row bayer (args : demosaic_args) (row : Z) s :
  args_typed args -> 2 <= n_rows args -> ~ (2 <= row < n_rows args - 2) ->
  demosaic_malvar_row_rgb8 bayer (Some args) row s
  = demosaic_malvar_row_rgb8_unoptimized bayer (Some args) row s.
Proof. intros T H2 Hrow. unfold demosaic_malvar_row_rgb8. run_edge T H2 Hrow. Qed.

Lemma rgb16to8_edge_row bayer (args : demosaic_args) (row : Z) s :
  args_typed args -> 2 <= n_rows args -> ~ (2 <= row < n_rows args - 2) ->
  demosaic_malvar_row_rgb16to8 bayer (Some args) row s
  = demosaic_malvar_row_rgb16to8_unoptimized bayer (Some args) row s.
Proof. intros T H2 Hrow. unfold demosaic_malvar_row_rgb16to8. run_edge T H2 Hrow. Qed.

Lemma mono16_edge_row bayer (args : demosaic_args) (row : Z) s :
  args_typed args -> 2 <= n_rows args -> ~ (2 <= row < n_rows args - 2) ->
  demosaic_malvar_row_mono16 bayer (Some args) row s
  = demosaic_malvar_row_mono16_unoptimized bayer (Some args) row s.
Proof. intros T H2 Hrow. unfold demosaic_malvar_row_mono16. run_edge T H2 Hrow. Qed.

Lemma mono8_edge_row bayer (args : demosaic_args) (row : Z) s :
  args_typed args -> 2 <= n_rows args -> ~ (2 <= row < n_rows args - 2) ->
  demosaic_malvar_row_mono8 bayer (Some args) row s
  = demosaic_malvar_row_mono8_unoptimized bayer (Some args) row s.
Proof. intros T H2 Hrow. unfold demosaic_malvar_row_mono8. run_edge T H2 Hrow. Qed.

Lemma mono16to8_edge_row bayer (args : demosaic_args) (row : Z) s :
  args_typed args -> 2 <= n_rows args -> ~ (2 <= row < n_rows args - 2) ->
  demosaic_malvar_row_mono16to8 bayer (Some args) row s
  = demosaic_malvar_row_mono16to8_unoptimized bayer (Some args) row s.
Proof. intros T H2 Hrow. unfold demosaic_malvar_row_mono16to8. run_edge T H2 Hrow. Qed.

(** ** Narrowing: clamp, then shift *)

Section Narrowing.

Variable args : demosaic_args.
Hypothesis args_ok : args_typed args.
Hypothesis shift_ok : shift_to_8bit args = true.

Lemma shift_to_8bit_facts :
  0 <= rshift args /\ max_val args [>>] rshift args <= U8_MAX.
Proof.
  unfold shift_to_8bit in shift_ok. apply andb_true_iff in shift_ok.
  destruct shift_ok as [H1 H2]. rewrite Z.geb_leb in H1.
  apply Z.leb_le in H1, H2. split; assumption.
Qed.

Lemma clamp_shift_range (v : Z) :
  0 <= DM_LIMIT v 0 (max_val args) [>>] rshift args
  <= max_val args [>>] rshift args.
Proof.
  destruct args_ok as [_ _ [Hm _] _].
  pose proof (DM_LIMIT_range v (max_val args) Hm) as [H0 H1].
  split; [apply shr_nonneg, H0 | apply shr_mono, H1].
Qed.

Lemma clamp_shift_u8 (v : Z) :
  is_u8 (DM_LIMIT v 0 (max_val args) [>>] rshift args).
Proof.
  pose proof (clamp_shift_range v) as Hv. destruct shift_to_8bit_facts as [_ H255].
  unfold is_u8. lia.
Qed.

(** What the safe helpers store for an interpolated channel. *)
Lemma safe_narrow (v : Z) :
  u8 (u16 (DM_LIMIT v 0 (max_val args)) [>>] rshift args)
  = DM_LIMIT v 0 (max_val args) [>>] rshift args.
Proof.
  destruct args_ok as [_ _ Hm _].
  rewrite u16_small.
  - apply u8_small, clamp_shift_u8.
  - pose proof (DM_LIMIT_range v (max_val args) ltac:(apply Hm)).
    unfold is_u16 in *. lia.
Qed.

(** The ternary of the inner loops. *)
Lemma limit_rshift_clamp_shift (v : Z) :
  limit_rshift v (max_val args) (u8 (max_val args [>>] rshift args)) (rshift args)
  = DM_LIMIT v 0 (max_val args) [>>] rshift args.
Proof.
  destruct args_ok as [_ _ [Hm _] _]. destruct shift_to_8bit_facts as [_ H255].
  unfold limit_rshift, DM_LIMIT.
  destruct (v >=? max_val args).
  - apply u8_small. pose proof (shr_nonneg (max_val args) (rshift args) Hm).
    unfold is_u8. lia.
  - destruct (v <=? 0); [|reflexivity]. unfold shr. rewrite Z.shiftr_0_l. reflexivity.
Qed.

Lemma interp_rgb16to8_clamp_shift (v : Z) :
  interp_rgb16to8 args v = DM_LIMIT v 0 (max_val args) [>>] rshift args.
Proof.
  unfold interp_rgb16to8. rewrite limit_rshift_clamp_shift.
  apply u8_small, clamp_shift_u8.
Qed.

End Narrowing.

(** ** Interior pixels: the inner loop against the safe helpers *)

Section Interior.

Variables (bayer : list Z) (args : demosaic_args) (row col : Z).
Hypothesis args_ok : args_typed args.
Hypothesis row_interior : 2 <= row < n_rows args - 2.
Hypothesis col_interior : 2 <= col < n_cols args - 2.

Lemma safe_near_interior (dr dc : Z) :
  -2 <= dr <= 2 -> -2 <= dc <= 2 ->
  get_pixel16_safe bayer (n_rows args) (n_cols args) (row [+] dr) (col [+] dc)
  = GET_PIX bayer (n_cols args) (row [+] dr) (col [+] dc).
Proof.
  intros Hdr Hdc. destruct args_ok as [Hr Hc _ _].
  unfold is_i32, I32_MIN, I32_MAX in Hr, Hc.
  apply get_pixel16_safe_inside; wrap_off; lia.
Qed.

Ltac to_unchecked :=
  repeat match goal with
  | |- context [?x [-] 2] => change (x [-] 2) with (x [+] -2)
  | |- context [?x [-] 1] => change (x [-] 1) with (x [+] -1)
  end;
  rewrite !safe_near_interior by lia; reflexivity.

Lemma green_sum_interior :
  green_sum (get_pixel16_safe bayer (n_rows args) (n_cols args)) row col
  = green_sum (GET_PIX bayer (n_cols args)) row col.
Proof. unfold green_sum. to_unchecked. Qed.

Lemma row_sum_interior :
  row_sum (get_pixel16_safe bayer (n_rows args) (n_cols args)) row col
  = row_sum (GET_PIX bayer (n_cols args)) row col.
Proof. unfold row_sum. to_unchecked. Qed.

Lemma column_sum_interior :
  column_sum (get_pixel16_safe bayer (n_rows args) (n_cols args)) row col
  = column_sum (GET_PIX bayer (n_cols args)) row col.
Proof. unfold column_sum. to_unchecked. Qed.

Lemma opposite_sum_interior :
  opposite_sum (get_pixel16_safe bayer (n_rows args) (n_cols args)) row col
  = opposite_sum (GET_PIX bayer (n_cols args)) row col.
Proof. unfold opposite_sum. to_unchecked. Qed.

Lemma native_interior :
  get_pixel16_safe bayer (n_rows args) (n_cols args) row col
  = GET_PIX bayer (n_cols args) row col.
Proof. apply get_pixel16_safe_inside; lia. Qed.

Lemma i32_max_val : i32 (max_val args) = max_val args.
Proof. apply i32_small, is_u16_is_i32, args_ok. Qed.

(** Rewrites the safe helpers of an interior pixel into the expressions of
    the inner loop. *)
Ltac inner_form :=
  unfold inner_pixel, inner_mono, safe_rgb16, safe_rgb8, safe_rgb16to8,
    safe_mono16, safe_mono8, safe_mono16to8, by_phase, phase;
  cbv zeta;
  destruct (row [%] 2 =? 0), (Z.even col);
  unfold inner_at_red, inner_at_green_rg, inner_at_green_gb, inner_at_blue,
    get_rgb16_at_red16, get_rgb16_at_green_rg16, get_rgb16_at_green_gb16,
    get_rgb16_at_blue16, get_rgb8_at_red8, get_rgb8_at_green_rg8,
    get_rgb8_at_green_gb8, get_rgb8_at_blue8, get_rgb8_at_red16,
    get_rgb8_at_green_rg16, get_rgb8_at_green_gb16, get_rgb8_at_blue16,
    get_green16, get_green8, get_red_blue_from_row16, get_red_blue_from_row8,
    get_red_blue_from_column16, get_red_blue_from_column8,
    get_red_blue_from_opposite16, get_red_blue_from_opposite8;
  cbv zeta;
  change (get_pixel8_safe bayer (n_rows args) (n_cols args))
    with (get_pixel16_safe bayer (n_rows args) (n_cols args));
  rewrite ?green_sum_interior, ?row_sum_interior, ?column_sum_interior,
    ?opposite_sum_interior, ?native_interior, ?i32_max_val, ?u8_u16.

Lemma rgb16_inner_is_safe :
  inner_pixel (fun x => x) (interp_rgb16 args) bayer (n_cols args) row col
  = safe_rgb16 bayer args row col.
Proof. inner_form; reflexivity. Qed.

Lemma rgb8_inner_is_safe :
  inner_pixel (fun x => x) (interp_rgb8 args) bayer (n_cols args) row col
  = safe_rgb8 bayer args row col.
Proof. inner_form; reflexivity. Qed.

Lemma rgb16to8_inner_is_safe :
  shift_to_8bit args = true ->
  inner_pixel (native_rgb16to8 args) (interp_rgb16to8 args) bayer (n_cols args) row col
  = safe_rgb16to8 bayer args row col.
Proof.
  intros Hs. inner_form;
    rewrite !(safe_narrow args args_ok Hs), !(interp_rgb16to8_clamp_shift args args_ok Hs);
    reflexivity.
Qed.

Lemma u16_interp_mono (v : Z) : u16 (DM_LIMIT v 0 (max_val args)) = interp_mono args v.
Proof.
  destruct args_ok as [_ _ Hm _]. unfold interp_mono. apply u16_small.
  pose proof (DM_LIMIT_range v (max_val args) ltac:(apply Hm)).
  unfold is_u16 in *. lia.
Qed.

Lemma u8_interp_mono (v : Z) :
  max_val_is_8bit args = true -> u8 (DM_LIMIT v 0 (max_val args)) = interp_mono args v.
Proof.
  intros H8. apply Z.leb_le in H8. destruct args_ok as [_ _ Hm _].
  unfold interp_mono. apply u8_small.
  pose proof (DM_LIMIT_range v (max_val args) ltac:(apply Hm)).
  unfold is_u8, is_u16, U8_MAX in *. lia.
Qed.

Lemma mono16_inner_is_safe :
  inner_mono (luma16 (normalize_coefs (coefs args))) (fun x => x) (interp_mono args)
             bayer (n_cols args) row col
  = safe_mono16 bayer args row col.
Proof. inner_form; rewrite !u16_interp_mono; reflexivity. Qed.

Lemma mono8_inner_is_safe :
  max_val_is_8bit args = true ->
  inner_mono (luma8 (normalize_coefs (coefs args))) (fun x => x) (interp_mono args)
             bayer (n_cols args) row col
  = safe_mono8 bayer args row col.
Proof. intros H8. inner_form; rewrite !(u8_interp_mono _ H8); reflexivity. Qed.

(** In mono16to8 the inner loop keeps [sample >> rshift] in an [I32]
    while the safe helper stores it into a [U8] field: the two agree when the
    shifted sample fits 8 bits. *)
Lemma mono16to8_inner_is_safe :
  shift_to_8bit args = true ->
  GET_PIX bayer (n_cols args) row col [>>] rshift args <= U8_MAX ->
  buffer16 bayer ->
  inner_mono (luma8 (normalize_coefs (coefs args))) (native_mono16to8 args)
             (interp_mono16to8 args) bayer (n_cols args) row col
  = safe_mono16to8 bayer args row col.
Proof.
  intros Hs Hfit Hb.
  assert (Hn : u8 (GET_PIX bayer (n_cols args) row col [>>] rshift args)
               = native_mono16to8 args (GET_PIX bayer (n_cols args) row col)).
  { apply u8_small. split; [|exact Hfit]. apply shr_nonneg.
    apply (GET_PIX_u16 bayer (n_cols args) row col Hb). }
  inner_form;
    rewrite !(safe_narrow args args_ok Hs), ?Hn;
    unfold interp_mono16to8;
    rewrite !(limit_rshift_clamp_shift args args_ok Hs); reflexivity.
Qed.

End Interior.

(** ** Optimized against unoptimized row functions *)

Lemma samples_within_max_shift (bayer : list Z) (args : demosaic_args) :
  shift_to_8bit args = true -> samples_within_max bayer args ->
  samples_shift_to_8bit bayer args.
Proof.
  intros Hs. unfold samples_within_max, samples_shift_to_8bit.
  apply andb_true_iff in Hs. destruct Hs as [_ Hs]. apply Z.leb_le in Hs.
  intros Hall. eapply Forall_impl; [exact Hall|]. intros s Hle. simpl in Hle.
  pose proof (shr_mono s (max_val args) (rshift args) Hle). lia.
Qed.

Lemma load_shift_fits (bayer : list Z) (args : demosaic_args) (i : Z) :
  samples_shift_to_8bit bayer args -> load bayer i [>>] rshift args <= U8_MAX.
Proof.
  intros Hf. unfold load.
  assert (H0 : 0 [>>] rshift args <= U8_MAX)
    by (unfold shr, U8_MAX; rewrite Z.shiftr_0_l; lia).
  destruct (0 <=? i); [|exact H0].
  destruct (bayer !! Z.to_nat i) as [x|] eqn:E; simpl; [|exact H0].
  unfold samples_shift_to_8bit in Hf. rewrite Forall_lookup in Hf. eauto.
Qed.

Lemma edge_or_inner_safe {P : Type} (safe inner : Z -> P) (n : Z) :
  (forall col, 2 <= col < n - 2 -> inner col = safe col) ->
  forall col, edge_or_inner safe inner n col = safe col.
Proof.
  intros H col. unfold edge_or_inner.
  destruct (Z.ltb_spec col 2), (Z.leb_spec (n - 2) col); simpl; try reflexivity.
  apply H. lia.
Qed.

Ltac rows_equal run_opt run_unopt edge inner_safe :=
  match goal with
  | T : args_typed ?args, V : valid_args _ ?args = true, Hrow : 0 <= ?row < _ |- _ =>
      let Hd := fresh "Hd" in
      assert (Hd : proper_dimensions args = true)
        by (unfold valid_args in V; apply andb_true_iff in V; tauto);
      destruct (proper_dimensions_facts args Hd) as (_ & ? & _);
      rewrite run_unopt by assumption;
      destruct (decide (2 <= row < n_rows args - 2)) as [Hin|Hedge];
      [ rewrite run_opt by assumption;
        split; [|reflexivity];
        f_equal; f_equal; apply fill_range_ext; intros col Hcol;
        apply edge_or_inner_safe; intros c Hc; apply inner_safe
      | rewrite edge by assumption;
        rewrite run_unopt by assumption; split; reflexivity ]
  end.

Section RowsAgree.

Variables (bayer : list Z) (args : demosaic_args) (row : Z).
Hypothesis args_ok : args_typed args.
Hypothesis row_in_image : 0 <= row < n_rows args.

Lemma rgb16_rows_agree (out : list demosaic_pix_rgb16) :
  valid_args rgb16 args = true ->
  let result := (Done tt, Some (fill_range (safe_rgb16 bayer args row) 0 (n_cols args) out)) in
  demosaic_malvar_row_rgb16 (Some bayer) (Some args) row (Some out) = result /\
  demosaic_malvar_row_rgb16_unoptimized (Some bayer) (Some args) row (Some out) = result.
Proof.
  intros V result. subst result.
  rows_equal rgb16_optimized_run rgb16_unoptimized_run rgb16_edge_row
             rgb16_inner_is_safe; first [assumption | lia].
Qed.

Lemma rgb8_rows_agree (out : list demosaic_pix_rgb8) :
  valid_args rgb8 args = true ->
  let result := (Done tt, Some (fill_range (safe_rgb8 bayer args row) 0 (n_cols args) out)) in
  demosaic_malvar_row_rgb8 (Some bayer) (Some args) row (Some out) = result /\
  demosaic_malvar_row_rgb8_unoptimized (Some bayer) (Some args) row (Some out) = result.
Proof.
  intros V result. subst result.
  rows_equal rgb8_optimized_run rgb8_unoptimized_run rgb8_edge_row
             rgb8_inner_is_safe; first [assumption | lia].
Qed.

Lemma rgb16to8_rows_agree (out : list demosaic_pix_rgb8) :
  valid_args rgb16to8 args = true ->
  let result :=
    (Done tt, Some (fill_range (safe_rgb16to8 bayer args row) 0 (n_cols args) out)) in
  demosaic_malvar_row_rgb16to8 (Some bayer) (Some args) row (Some out) = result /\
  demosaic_malvar_row_rgb16to8_unoptimized (Some bayer) (Some args) row (Some out) = result.
Proof.
  intros V result. subst result.
  assert (Hs : shift_to_8bit args = true)
    by (unfold valid_args in V; apply andb_true_iff in V; tauto).
  rows_equal rgb16to8_optimized_run rgb16to8_unoptimized_run rgb16to8_edge_row
             rgb16to8_inner_is_safe; first [assumption | lia].
Qed.

Lemma mono16_rows_agree (out : list Z) :
  valid_args mono16 args = true ->
  let result := (Done tt, Some (fill_range (safe_mono16 bayer args row) 0 (n_cols args) out)) in
  demosaic_malvar_row_mono16 (Some bayer) (Some args) row (Some out) = result /\
  demosaic_malvar_row_mono16_unoptimized (Some bayer) (Some args) row (Some out) = result.
Proof.
  intros V result. subst result.
  rows_equal mono16_optimized_run mono16_unoptimized_run mono16_edge_row
             mono16_inner_is_safe; first [assumption | lia].
Qed.

Lemma mono8_rows_agree (out : list Z) :
  valid_args mono8 args = true ->
  let result := (Done tt, Some (fill_range (safe_mono8 bayer args row) 0 (n_cols args) out)) in
  demosaic_malvar_row_mono8 (Some bayer) (Some args) row (Some out) = result /\
  demosaic_malvar_row_mono8_unoptimized (Some bayer) (Some args) row (Some out) = result.
Proof.
  intros V result. subst result.
  assert (H8 : max_val_is_8bit args = true)
    by (unfold valid_args in V; rewrite !andb_true_iff in V; tauto).
  rows_equal mono8_optimized_run mono8_unoptimized_run mono8_edge_row
             mono8_inner_is_safe; first [assumption | lia].
Qed.

Lemma mono16to8_rows_agree (out : list Z) :
  valid_args mono16to8 args = true ->
  buffer16 bayer -> samples_shift_to_8bit bayer args ->
  let result :=
    (Done tt, Some (fill_range (safe_mono16to8 bayer args row) 0 (n_cols args) out)) in
  demosaic_malvar_row_mono16to8 (Some bayer) (Some args) row (Some out) = result /\
  demosaic_malvar_row_mono16to8_unoptimized (Some bayer) (Some args) row (Some out) = result.
Proof.
  intros V Hb Hfit result. subst result.
  assert (Hs : shift_to_8bit args = true)
    by (unfold valid_args in V; rewrite !andb_true_iff in V; tauto).
  rows_equal mono16to8_optimized_run mono16to8_unoptimized_run mono16to8_edge_row
             mono16to8_inner_is_safe;
    first [assumption | lia | apply load_shift_fits; assumption].
Qed.

End RowsAgree.

(** X12. For valid arguments and a row of the image, each of the six
    optimized row functions returns and leaves in the output row exactly
    what the corresponding unoptimized row function leaves, at every column:
    rgb16, rgb8, mono16 and mono8 on every input buffer; rgb16to8 on every
    input buffer when [rshift < 32]; mono16to8 when [rshift < 32] on a
    buffer that holds the image and whose samples, shifted right by
    [rshift], fit 8 bits (as they do when no sample exceeds [max_val]). *)
Theorem optimized_rows_equal_unoptimized
    (bayer : list Z) (args : demosaic_args) (row : Z) :
  args_typed args -> 0 <= row < n_rows args ->
  (valid_args rgb16 args = true ->
   forall out,
     let result := (Done tt, Some (fill_range (safe_rgb16 bayer args row) 0 (n_cols args) out)) in
     demosaic_malvar_row_rgb16 (Some bayer) (Some args) row (Some out) = result /\
     demosaic_malvar_row_rgb16_unoptimized (Some bayer) (Some args) row (Some out)
     = result) /\
  (valid_args rgb8 args = true ->
   forall out,
     let result := (Done tt, Some (fill_range (safe_rgb8 bayer args row) 0 (n_cols args) out)) in
     demosaic_malvar_row_rgb8 (Some bayer) (Some args) row (Some out) = result /\
     demosaic_malvar_row_rgb8_unoptimized (Some bayer) (Some args) row (Some out)
     = result) /\
  (rshift args < 32 -> valid_args rgb16to8 args = true ->
   forall out,
     let result :=
       (Done tt, Some (fill_range (safe_rgb16to8 bayer args row) 0 (n_cols args) out)) in
     demosaic_malvar_row_rgb16to8 (Some bayer) (Some args) row (Some out) = result /\
     demosaic_malvar_row_rgb16to8_unoptimized (Some bayer) (Some args) row (Some out)
     = result) /\
  (valid_args mono16 args = true ->
   forall out,
     let result :=
       (Done tt, Some (fill_range (safe_mono16 bayer args row) 0 (n_cols args) out)) in
     demosaic_malvar_row_mono16 (Some bayer) (Some args) row (Some out) = result /\
     demosaic_malvar_row_mono16_unoptimized (Some bayer) (Some args) row (Some out)
     = result) /\
  (valid_args mono8 args = true ->
   forall out,
     let result :=
       (Done tt, Some (fill_range (safe_mono8 bayer args row) 0 (n_cols args) out)) in
     demosaic_malvar_row_mono8 (Some bayer) (Some args) row (Some out) = result /\
     demosaic_malvar_row_mono8_unoptimized (Some bayer) (Some args) row (Some out)
     = result) /\
  (rshift args < 32 -> valid_args mono16to8 args = true ->
   buffer16 bayer -> image_in_buffer bayer args -> samples_shift_to_8bit bayer args ->
   forall out,
     let result :=
       (Done tt, Some (fill_range (safe_mono16to8 bayer args row) 0 (n_cols args) out)) in
     demosaic_malvar_row_mono16to8 (Some bayer) (Some args) row (Some out) = result /\
     demosaic_malvar_row_mono16to8_unoptimized (Some bayer) (Some args) row (Some out)
     = result).
Proof.
  intros T Hrow.
  refine (conj _ (conj _ (conj (fun _ => _) (conj _ (conj _ (fun _ => _))))));
    intros V.
  - intros out. apply rgb16_rows_agree; assumption.
  - intros out. apply rgb8_rows_agree; assumption.
  - intros out. apply rgb16to8_rows_agree; assumption.
  - intros out. apply mono16_rows_agree; assumption.
  - intros out. apply mono8_rows_agree; assumption.
  - intros Hb _ Hfit out. apply mono16to8_rows_agree; assumption.
Qed.

Lemma sample_args_typed : args_typed sample_args.
Proof. split; unfold is_i32, is_u16, I32_MIN, I32_MAX, U16_MAX; simpl; lia. Qed.

Lemma sample_bayer_buffer16 : buffer16 sample_bayer.
Proof. unfold buffer16, sample_bayer. repeat constructor; unfold U16_MAX; lia. Qed.

Lemma sample_bayer_within_max : samples_within_max sample_bayer sample_args.
Proof.
  unfold samples_within_max, sample_bayer. simpl. repeat constructor; lia.
Qed.

Lemma sample_image_in_buffer : image_in_buffer sample_bayer sample_args.
Proof. split; vm_compute; discriminate. Qed.

Lemma optimized_rows_equal_unoptimized_witness :
  demosaic_malvar_row_mono16to8 (Some sample_bayer) (Some sample_args) 2
    (Some (replicate 6 0))
  = demosaic_malvar_row_mono16to8_unoptimized (Some sample_bayer) (Some sample_args) 2
      (Some (replicate 6 0)).
Proof.
  destruct (optimized_rows_equal_unoptimized sample_bayer sample_args 2)
    as (_ & _ & _ & _ & _ & H).
  - exact sample_args_typed.
  - simpl. lia.
  - destruct (H ltac:(simpl; lia) ltac:(vm_compute; reflexivity)
                sample_bayer_buffer16 sample_image_in_buffer
                ltac:(apply samples_within_max_shift;
                      [vm_compute; reflexivity | exact sample_bayer_within_max])
                (replicate 6 0)) as [-> ->].
    reflexivity.
Defined.

(** C1. The claim fails on the code for mono16to8, where the inner loop of
    the optimized row function departs from its unoptimized sibling: it
    keeps [sample >> rshift] in an [I32] local, while the safe helpers (and
    the inner loop of rgb16to8) store it into a [U8] field.  On a 6 x 6
    image of [U16] samples whose red samples are 65535, with
    [max_val = 4095] and [rshift = 4] (valid arguments, a buffer that holds
    the image), column 2 of row 2 is 63 after the optimized row function and
    4 after the unoptimized one; the two rgb16to8 row functions agree on the
    same input. *)
Lemma mono16to8_fast_path_diverges :
  args_typed overexposed_args /\
  valid_args mono16to8 overexposed_args = true /\
  rshift overexposed_args < 32 /\
  buffer16 overexposed_bayer /\
  image_in_buffer overexposed_bayer overexposed_args /\
  demosaic_malvar_row_mono16to8 (Some overexposed_bayer) (Some overexposed_args) 2
    (Some (replicate 6 0))
  = (Done tt, Some [4; 4; 63; 4; 4; 4]) /\
  demosaic_malvar_row_mono16to8_unoptimized (Some overexposed_bayer)
    (Some overexposed_args) 2 (Some (replicate 6 0))
  = (Done tt, Some [4; 4; 4; 4; 4; 4]) /\
  demosaic_malvar_row_mono16to8 (Some overexposed_bayer) (Some overexposed_args) 2
    (Some (replicate 6 0))
  <> demosaic_malvar_row_mono16to8_unoptimized (Some overexposed_bayer)
       (Some overexposed_args) 2 (Some (replicate 6 0)) /\
  demosaic_malvar_row_rgb16to8 (Some overexposed_bayer) (Some overexposed_args) 2
    (Some (replicate 6 (mk_pix 0 0 0)))
  = demosaic_malvar_row_rgb16to8_unoptimized (Some overexposed_bayer)
      (Some overexposed_args) 2 (Some (replicate 6 (mk_pix 0 0 0))).
Proof.
  refine (conj _ (conj _ (conj _ (conj _ (conj _ (conj _ (conj _ (conj _ _)))))))).
  - split; unfold is_i32, is_u16, I32_MIN, I32_MAX, U16_MAX; simpl; lia.
  - vm_compute. reflexivity.
  - simpl. lia.
  - unfold buffer16, overexposed_bayer. repeat constructor; unfold U16_MAX; lia.
  - split; vm_compute; discriminate.
  - vm_compute. reflexivity.
  - vm_compute. reflexivity.
  - vm_compute. discriminate.
  - vm_compute. reflexivity.
Qed.

(** ** The channel of the pixel's own colour *)

Lemma own_channel_safe_rgb16 (bayer : list Z) (args : demosaic_args) (row col : Z) :
  own_channel row col (safe_rgb16 bayer args row col)
  = get_pixel16_safe bayer (n_rows args) (n_cols args) row col.
Proof.
  unfold own_channel, safe_rgb16, by_phase, phase.
  destruct (row [%] 2 =? 0), (Z.even col); reflexivity.
Qed.

Lemma own_channel_safe_rgb8 (bayer : list Z) (args : demosaic_args) (row col : Z) :
  own_channel row col (safe_rgb8 bayer args row col)
  = get_pixel8_safe bayer (n_rows args) (n_cols args) row col.
Proof.
  unfold own_channel, safe_rgb8, by_phase, phase.
  destruct (row [%] 2 =? 0), (Z.even col); reflexivity.
Qed.

Lemma own_channel_safe_rgb16to8 (bayer : list Z) (args : demosaic_args) (row col : Z) :
  own_channel row col (safe_rgb16to8 bayer args row col)
  = u8 (get_pixel16_safe bayer (n_rows args) (n_cols args) row col [>>] rshift args).
Proof.
  unfold own_channel, safe_rgb16to8, by_phase, phase.
  destruct (row [%] 2 =? 0), (Z.even col); reflexivity.
Qed.

(** C10, as amended.  At every pixel of every row, the channel of the
    pixel's own Bayer colour that the RGB row functions store is the raw
    input sample, never clamped against [max_val]: the sample itself in rgb16
    and rgb8, and in rgb16to8, for [rshift < 32] (where C defines the
    shift), the low 8 bits of the sample shifted right by [rshift], which is
    the shifted sample whenever that fits 8 bits. *)
Theorem own_colour_is_raw_sample
    (bayer : list Z) (args : demosaic_args) (row col : Z) :
  args_typed args -> 0 <= row < n_rows args -> 0 <= col < n_cols args ->
  let raw := GET_PIX bayer (n_cols args) row col in
  (valid_args rgb16 args = true ->
   forall out, n_cols args <= Z.of_nat (length out) ->
     exists out' p,
       demosaic_malvar_row_rgb16 (Some bayer) (Some args) row (Some out)
       = (Done tt, Some out') /\
       out' !! Z.to_nat col = Some p /\ own_channel row col p = raw) /\
  (valid_args rgb8 args = true ->
   forall out, n_cols args <= Z.of_nat (length out) ->
     exists out' p,
       demosaic_malvar_row_rgb8 (Some bayer) (Some args) row (Some out)
       = (Done tt, Some out') /\
       out' !! Z.to_nat col = Some p /\ own_channel row col p = raw) /\
  (rshift args < 32 -> valid_args rgb16to8 args = true ->
   forall out, n_cols args <= Z.of_nat (length out) ->
     exists out' p,
       demosaic_malvar_row_rgb16to8 (Some bayer) (Some args) row (Some out)
       = (Done tt, Some out') /\
       out' !! Z.to_nat col = Some p /\
       own_channel row col p = u8 (raw [>>] rshift args) /\
       (raw [>>] rshift args <= U8_MAX -> 0 <= raw ->
        own_channel row col p = raw [>>] rshift args)).
Proof.
  intros T Hrow Hcol raw. subst raw.
  refine (conj _ (conj _ (fun _ => _))); intros V out Hlen;
    assert (Hl : col < Z.of_nat (length out)) by lia.
  - destruct (rgb16_rows_agree bayer args row T Hrow out V) as [-> _]. eexists _, _.
    split; [reflexivity|]. split; [apply fill_range_at; assumption|].
    rewrite own_channel_safe_rgb16. apply get_pixel16_safe_inside; assumption.
  - destruct (rgb8_rows_agree bayer args row T Hrow out V) as [-> _]. eexists _, _.
    split; [reflexivity|]. split; [apply fill_range_at; assumption|].
    rewrite own_channel_safe_rgb8. apply get_pixel8_safe_inside; assumption.
  - destruct (rgb16to8_rows_agree bayer args row T Hrow out V) as [-> _]. eexists _, _.
    split; [reflexivity|]. split; [apply fill_range_at; assumption|].
    rewrite own_channel_safe_rgb16to8, get_pixel16_safe_inside by assumption.
    split; [reflexivity|]. intros Hfit Hraw. apply u8_small.
    split; [apply shr_nonneg, Hraw | exact Hfit].
Qed.

Lemma own_colour_is_raw_sample_witness :
  exists out' p,
    demosaic_malvar_row_rgb16 (Some overexposed_bayer) (Some overexposed_args) 2
      (Some (replicate 6 (mk_pix 0 0 0)))
    = (Done tt, Some out') /\
    out' !! Z.to_nat 2 = Some p /\ own_channel 2 2 p = 65535.
Proof.
  destruct (own_colour_is_raw_sample overexposed_bayer overexposed_args 2 2)
    as (H & _).
  - split; unfold is_i32, is_u16, I32_MIN, I32_MAX, U16_MAX; simpl; lia.
  - simpl. lia.
  - simpl. lia.
  - apply (H ltac:(vm_compute; reflexivity) (replicate 6 (mk_pix 0 0 0))).
    simpl. lia.
Defined.

(** C10 as stated fails for the narrowing variant: the red pixel at row 2,
    column 2 of the overexposed image holds 65535; shifted right by 4 that
    is 4095, but the red channel stored by rgb16to8 is 255. *)
Lemma own_colour_counterexample :
  valid_args rgb16to8 overexposed_args = true /\
  GET_PIX overexposed_bayer 6 2 2 [>>] 4 = 4095 /\
  demosaic_malvar_row_rgb16to8 (Some overexposed_bayer) (Some overexposed_args) 2
    (Some (replicate 6 (mk_pix 0 0 0)))
  = (Done tt,
     Some [mk_pix 255 0 0; mk_pix 255 0 0; mk_pix 255 0 0;
           mk_pix 255 0 0; mk_pix 255 0 0; mk_pix 255 0 0]) /\
  ~ (exists out' p,
        demosaic_malvar_row_rgb16to8 (Some overexposed_bayer) (Some overexposed_args) 2
          (Some (replicate 6 (mk_pix 0 0 0)))
        = (Done tt, Some out') /\
        out' !! Z.to_nat 2 = Some p /\
        own_channel 2 2 p = GET_PIX overexposed_bayer 6 2 2 [>>] 4).
Proof.
  split; [vm_compute; reflexivity|].
  split; [vm_compute; reflexivity|].
  split; [vm_compute; reflexivity|].
  intros (out' & p & Hrun & Hp & Hown).
  vm_compute in Hrun. injection Hrun as <-.
  vm_compute in Hp. injection Hp as <-.
  vm_compute in Hown. discriminate Hown.
Qed.

(** ** Rejected preconditions *)

Lemma normalize_coefs_false {P A : Type} (args : demosaic_args)
    (k : demosaic_luma_coefs -> M (P := P) A) s :
  valid_coefs args = false ->
  (coefs_normed <- demosaic_normalize_coefs args ;; k coefs_normed) s = (Fatal, s).
Proof.
  unfold valid_coefs, demosaic_normalize_coefs, bind, DEMOSAIC_ASSERT, ret.
  destruct (coef_in_unit (coef_red (coefs args))),
    (coef_in_unit (coef_green (coefs args))),
    (coef_in_unit (coef_blue (coefs args))),
    (F64ops.ltb (normed_sum (normalize_coefs (coefs args))) F64ops.one);
    simpl; intros H; try discriminate H; reflexivity.
Qed.

Lemma row_in_image_iff (args : demosaic_args) (row : Z) :
  (0 <=? row) && (row <? n_rows args) = true <-> 0 <= row < n_rows args.
Proof. rewrite andb_true_iff, Z.leb_le, Z.ltb_lt. reflexivity. Qed.

(** One assertion: it fails, and the call ends in the handler with the
    output row untouched, or it holds. *)
Ltac assert_step :=
  match goal with
  | |- (demosaic_malvar_assert_proper_dimensions ?a ;; _) _ = _ \/ _ =>
      let E := fresh "E" in
      destruct (proper_dimensions a) eqn:E;
      [ rewrite (assert_dimensions_true a _ _ E)
      | left; apply (assert_dimensions_false a _ _ E) ]
  | |- (_ <- demosaic_normalize_coefs ?a ;; _) _ = _ \/ _ =>
      let E := fresh "E" in
      destruct (valid_coefs a) eqn:E;
      [ rewrite normalize_coefs_true by exact E
      | left; apply normalize_coefs_false; exact E ]
  | |- (DEMOSAIC_ASSERT ?t ;; _) _ = _ \/ _ =>
      let E := fresh "E" in
      destruct t eqn:E;
      [ rewrite assert_true by reflexivity
      | left; apply assert_false; reflexivity ]
  end.

Ltac accept :=
  right; eexists _, _, _;
  split; [reflexivity|]; split; [reflexivity|]; split; [reflexivity|];
  split;
  [ unfold valid_args, max_val_is_8bit, shift_to_8bit;
    repeat match goal with H : _ = true |- _ => rewrite H end;
    unfold valid_coefs;
    repeat match goal with H : _ = true |- _ => rewrite H end;
    reflexivity
  | apply row_in_image_iff; assumption ].

Ltac fatal_or_accepted :=
  match goal with
  | |- ?f ?bayer ?args ?row ?s = _ \/ _ =>
      destruct bayer as [b|]; [|left; reflexivity];
      destruct args as [a|]; [|left; reflexivity];
      destruct s as [out|]; [|left; reflexivity];
      unfold f; rewrite !not_null_some, output_not_null_some;
      repeat assert_step; cbv zeta; accept
  end.

Lemma rgb16_unoptimized_fatal_or_accepted bayer args row s :
  demosaic_malvar_row_rgb16_unoptimized bayer args row s = (Fatal, s) \/
  accepted rgb16 bayer args row s.
Proof. fatal_or_accepted. Qed.

Lemma rgb8_unoptimized_fatal_or_accepted bayer args row s :
  demosaic_malvar_row_rgb8_unoptimized bayer args row s = (Fatal, s) \/
  accepted rgb8 bayer args row s.
Proof. fatal_or_accepted. Qed.

Lemma rgb16to8_unoptimized_fatal_or_accepted bayer args row s :
  demosaic_malvar_row_rgb16to8_unoptimized bayer args row s = (Fatal, s) \/
  accepted rgb16to8 bayer args row s.
Proof. fatal_or_accepted. Qed.

Lemma mono16_unoptimized_fatal_or_accepted bayer args row s :
  demosaic_malvar_row_mono16_unoptimized bayer args row s = (Fatal, s) \/
  accepted mono16 bayer args row s.
Proof. fatal_or_accepted. Qed.

Lemma mono8_unoptimized_fatal_or_accepted bayer args row s :
  demosaic_malvar_row_mono8_unoptimized bayer args row s = (Fatal, s) \/
  accepted mono8 bayer args row s.
Proof. fatal_or_accepted. Qed.

Lemma mono16to8_unoptimized_fatal_or_accepted bayer args row s :
  demosaic_malvar_row_mono16to8_unoptimized bayer args row s = (Fatal, s) \/
  accepted mono16to8 bayer args row s.
Proof. fatal_or_accepted. Qed.

Ltac optimized_fatal_or_accepted unopt :=
  match goal with
  | |- ?f ?bayer ?args ?row ?s = _ \/ _ =>
      destruct args as [a|]; [|left; reflexivity];
      unfold f; rewrite not_null_some;
      destruct ((row <? 2) || (row >=? n_rows a [-] 2));
      [ apply unopt
      | destruct s as [out|]; [|left; reflexivity];
        destruct bayer as [b|]; [|left; reflexivity];
        cbv zeta;
        rewrite output_not_null_some, not_null_some;
        repeat assert_step; cbv zeta; accept ]
  end.

Lemma rgb16_fatal_or_accepted bayer args row s :
  demosaic_malvar_row_rgb16 bayer args row s = (Fatal, s) \/
  accepted rgb16 bayer args row s.
Proof. optimized_fatal_or_accepted rgb16_unoptimized_fatal_or_accepted. Qed.

Lemma rgb8_fatal_or_accepted bayer args row s :
  demosaic_malvar_row_rgb8 bayer args row s = (Fatal, s) \/
  accepted rgb8 bayer args row s.
Proof. optimized_fatal_or_accepted rgb8_unoptimized_fatal_or_accepted. Qed.

Lemma rgb16to8_fatal_or_accepted bayer args row s :
  demosaic_malvar_row_rgb16to8 bayer args row s = (Fatal, s) \/
  accepted rgb16to8 bayer args row s.
Proof. optimized_fatal_or_accepted rgb16to8_unoptimized_fatal_or_accepted. Qed.

Lemma mono16_fatal_or_accepted bayer args row s :
  demosaic_malvar_row_mono16 bayer args row s = (Fatal, s) \/
  accepted mono16 bayer args row s.
Proof. optimized_fatal_or_accepted mono16_unoptimized_fatal_or_accepted. Qed.

Lemma mono8_fatal_or_accepted bayer args row s :
  demosaic_malvar_row_mono8 bayer args row s = (Fatal, s) \/
  accepted mono8 bayer args row s.
Proof. optimized_fatal_or_accepted mono8_unoptimized_fatal_or_accepted. Qed.

Lemma mono16to8_fatal_or_accepted bayer args row s :
  demosaic_malvar_row_mono16to8 bayer args row s = (Fatal, s) \/
  accepted mono16to8 bayer args row s.
Proof. optimized_fatal_or_accepted mono16to8_unoptimized_fatal_or_accepted. Qed.

(** A violation is not accepted. *)
Lemma common_violation_not_accepted (v : variant) bayer args row {P : Type}
    (s : option (list P)) :
  common_violation bayer args row s -> ~ accepted v bayer args row s.
Proof.
  intros Hv (b & a & out & -> & -> & -> & V & Hrow).
  assert (Hd : proper_dimensions a = true)
    by (unfold valid_args in V; apply andb_true_iff in V; tauto).
  destruct (proper_dimensions_facts a Hd) as (? & ? & _ & _ & ? & ?).
  destruct Hv as [Hv | [Hv | [Hv | (a' & Ha & Hv)]]]; try discriminate.
  injection Ha as <-. lia.
Qed.

Lemma max_val_not_8bit_not_accepted (v : variant) bayer args row {P : Type}
    (s : option (list P)) (a : demosaic_args) :
  v = rgb8 \/ v = mono8 -> args = Some a -> max_val a > U8_MAX ->
  ~ accepted v bayer args row s.
Proof.
  intros Hv -> Hmax (b & a' & out & _ & Ha & _ & V & _). injection Ha as <-.
  assert (H8 : max_val_is_8bit a = true)
    by (destruct Hv as [-> | ->]; unfold valid_args in V;
        rewrite !andb_true_iff in V; tauto).
  apply Z.leb_le in H8. lia.
Qed.

Lemma no_shift_to_8bit_not_accepted (v : variant) bayer args row {P : Type}
    (s : option (list P)) (a : demosaic_args) :
  v = rgb16to8 \/ v = mono16to8 -> args = Some a ->
  rshift a < 0 \/ max_val a [>>] rshift a > U8_MAX ->
  ~ accepted v bayer args row s.
Proof.
  intros Hv -> Hmax (b & a' & out & _ & Ha & _ & V & _). injection Ha as <-.
  assert (H8 : shift_to_8bit a = true)
    by (destruct Hv as [-> | ->]; unfold valid_args in V;
        rewrite !andb_true_iff in V; tauto).
  apply andb_true_iff in H8. destruct H8 as [H1 H2].
  rewrite Z.geb_leb in H1. apply Z.leb_le in H1, H2. lia.
Qed.

(** C8, as amended.  A call of any of the six row functions (and of their
    unoptimized counterparts) with a null [bayer], [args] or [output_row],
    with fewer than two rows (zero rows in particular), an odd number of
    rows, fewer than two columns, or a row below 0 or not below the number of
    rows, ends in the host's fatal-assertion handler with the output row as it
    was: no element has been written and no result is produced.  So does a
    call with [max_val > 255] of the variants with 8-bit input (rgb8, mono8),
    and a call with [rshift < 0] or [max_val >> rshift > 255] of the
    narrowing variants (rgb16to8, mono16to8). *)
Theorem invalid_calls_are_fatal
    (bayer : option (list Z)) (args : option demosaic_args) (row : Z)
    (rgb_row : option (list demosaic_pix_rgb)) (mono_row : option (list Z)) :
  (common_violation bayer args row rgb_row ->
   demosaic_malvar_row_rgb16 bayer args row rgb_row = (Fatal, rgb_row) /\
   demosaic_malvar_row_rgb8 bayer args row rgb_row = (Fatal, rgb_row) /\
   demosaic_malvar_row_rgb16to8 bayer args row rgb_row = (Fatal, rgb_row) /\
   demosaic_malvar_row_rgb16_unoptimized bayer args row rgb_row = (Fatal, rgb_row) /\
   demosaic_malvar_row_rgb8_unoptimized bayer args row rgb_row = (Fatal, rgb_row) /\
   demosaic_malvar_row_rgb16to8_unoptimized bayer args row rgb_row = (Fatal, rgb_row)) /\
  (common_violation bayer args row mono_row ->
   demosaic_malvar_row_mono16 bayer args row mono_row = (Fatal, mono_row) /\
   demosaic_malvar_row_mono8 bayer args row mono_row = (Fatal, mono_row) /\
   demosaic_malvar_row_mono16to8 bayer args row mono_row = (Fatal, mono_row) /\
   demosaic_malvar_row_mono16_unoptimized bayer args row mono_row = (Fatal, mono_row) /\
   demosaic_malvar_row_mono8_unoptimized bayer args row mono_row = (Fatal, mono_row) /\
   demosaic_malvar_row_mono16to8_unoptimized bayer args row mono_row
   = (Fatal, mono_row)) /\
  (forall a, args = Some a -> max_val a > U8_MAX ->
   demosaic_malvar_row_rgb8 bayer args row rgb_row = (Fatal, rgb_row) /\
   demosaic_malvar_row_mono8 bayer args row mono_row = (Fatal, mono_row) /\
   demosaic_malvar_row_rgb8_unoptimized bayer args row rgb_row = (Fatal, rgb_row) /\
   demosaic_malvar_row_mono8_unoptimized bayer args row mono_row = (Fatal, mono_row)) /\
  (forall a, args = Some a -> rshift a < 0 \/ max_val a [>>] rshift a > U8_MAX ->
   demosaic_malvar_row_rgb16to8 bayer args row rgb_row = (Fatal, rgb_row) /\
   demosaic_malvar_row_mono16to8 bayer args row mono_row = (Fatal, mono_row) /\
   demosaic_malvar_row_rgb16to8_unoptimized bayer args row rgb_row = (Fatal, rgb_row) /\
   demosaic_malvar_row_mono16to8_unoptimized bayer args row mono_row
   = (Fatal, mono_row)).
Proof.
  refine (conj _ (conj _ (conj _ _))).
  - intros Hv.
    pose proof (fun v => common_violation_not_accepted v _ _ _ _ Hv) as N.
    refine (conj _ (conj _ (conj _ (conj _ (conj _ _))))).
    + destruct (rgb16_fatal_or_accepted bayer args row rgb_row) as [H|H];
        [exact H | destruct (N _ H)].
    + destruct (rgb8_fatal_or_accepted bayer args row rgb_row) as [H|H];
        [exact H | destruct (N _ H)].
    + destruct (rgb16to8_fatal_or_accepted bayer args row rgb_row) as [H|H];
        [exact H | destruct (N _ H)].
    + destruct (rgb16_unoptimized_fatal_or_accepted bayer args row rgb_row) as [H|H];
        [exact H | destruct (N _ H)].
    + destruct (rgb8_unoptimized_fatal_or_accepted bayer args row rgb_row) as [H|H];
        [exact H | destruct (N _ H)].
    + destruct (rgb16to8_unoptimized_fatal_or_accepted bayer args row rgb_row) as [H|H];
        [exact H | destruct (N _ H)].
  - intros Hv.
    pose proof (fun v => common_violation_not_accepted v _ _ _ _ Hv) as N.
    refine (conj _ (conj _ (conj _ (conj _ (conj _ _))))).
    + destruct (mono16_fatal_or_accepted bayer args row mono_row) as [H|H];
        [exact H | destruct (N _ H)].
    + destruct (mono8_fatal_or_accepted bayer args row mono_row) as [H|H];
        [exact H | destruct (N _ H)].
    + destruct (mono16to8_fatal_or_accepted bayer args row mono_row) as [H|H];
        [exact H | destruct (N _ H)].
    + destruct (mono16_unoptimized_fatal_or_accepted bayer args row mono_row) as [H|H];
        [exact H | destruct (N _ H)].
    + destruct (mono8_unoptimized_fatal_or_accepted bayer args row mono_row) as [H|H];
        [exact H | destruct (N _ H)].
    + destruct (mono16to8_unoptimized_fatal_or_accepted bayer args row mono_row)
        as [H|H]; [exact H | destruct (N _ H)].
  - intros a Ha Hmax.
    refine (conj _ (conj _ (conj _ _))).
    + destruct (rgb8_fatal_or_accepted bayer args row rgb_row) as [H|H]; [exact H|].
      destruct (max_val_not_8bit_not_accepted rgb8 _ _ _ _ a ltac:(tauto) Ha Hmax H).
    + destruct (mono8_fatal_or_accepted bayer args row mono_row) as [H|H]; [exact H|].
      destruct (max_val_not_8bit_not_accepted mono8 _ _ _ _ a ltac:(tauto) Ha Hmax H).
    + destruct (rgb8_unoptimized_fatal_or_accepted bayer args row rgb_row) as [H|H];
        [exact H|].
      destruct (max_val_not_8bit_not_accepted rgb8 _ _ _ _ a ltac:(tauto) Ha Hmax H).
    + destruct (mono8_unoptimized_fatal_or_accepted bayer args row mono_row) as [H|H];
        [exact H|].
      destruct (max_val_not_8bit_not_accepted mono8 _ _ _ _ a ltac:(tauto) Ha Hmax H).
  - intros a Ha Hmax.
    refine (conj _ (conj _ (conj _ _))).
    + destruct (rgb16to8_fatal_or_accepted bayer args row rgb_row) as [H|H]; [exact H|].
      destruct (no_shift_to_8bit_not_accepted rgb16to8 _ _ _ _ a ltac:(tauto) Ha Hmax H).
    + destruct (mono16to8_fatal_or_accepted bayer args row mono_row) as [H|H];
        [exact H|].
      destruct (no_shift_to_8bit_not_accepted mono16to8 _ _ _ _ a ltac:(tauto) Ha Hmax H).
    + destruct (rgb16to8_unoptimized_fatal_or_accepted bayer args row rgb_row) as [H|H];
        [exact H|].
      destruct (no_shift_to_8bit_not_accepted rgb16to8 _ _ _ _ a ltac:(tauto) Ha Hmax H).
    + destruct (mono16to8_unoptimized_fatal_or_accepted bayer args row mono_row)
        as [H|H]; [exact H|].
      destruct (no_shift_to_8bit_not_accepted mono16to8 _ _ _ _ a ltac:(tauto) Ha Hmax H).
Qed.

Lemma invalid_calls_are_fatal_witness :
  demosaic_malvar_row_rgb16 (Some sample_bayer)
    (Some (mk_args 0 6 4095 4 (coefs sample_args))) 0
    (Some (replicate 6 (mk_pix 7 7 7)))
  = (Fatal, Some (replicate 6 (mk_pix 7 7 7))).
Proof.
  destruct (invalid_calls_are_fatal (Some sample_bayer)
              (Some (mk_args 0 6 4095 4 (coefs sample_args))) 0
              (Some (replicate 6 (mk_pix 7 7 7))) None) as (H & _).
  apply H. right. right. right. eexists. split; [reflexivity|]. simpl. lia.
Defined.

(** C8 as stated fails for the narrowing variants, which produce 8-bit
    output: with [max_val = 4095 > 255] and [rshift = 4] the call of rgb16to8
    (and of mono16to8) returns and writes the row. *)
Lemma invalid_calls_counterexample :
  max_val sample_args > 255 /\
  demosaic_malvar_row_rgb16to8 (Some sample_bayer) (Some sample_args) 0
    (Some (replicate 6 (mk_pix 0 0 0)))
  = (Done tt,
     Some [mk_pix 6 15 24; mk_pix 3 12 21; mk_pix 6 15 24;
           mk_pix 4 13 22; mk_pix 7 16 25; mk_pix 4 13 22]) /\
  demosaic_malvar_row_mono16to8 (Some sample_bayer) (Some sample_args) 0
    (Some (replicate 6 0))
  = (Done tt, Some [14; 11; 14; 12; 15; 12]).
Proof.
  split; [simpl; lia|]. split; vm_compute; reflexivity.
Qed.

(** ** Images of a single colour *)

Lemma rem2_even (x : Z) : (x [%] 2 =? 0) = Z.even x.
Proof.
  unfold rem32. destruct (Z.eqb_spec (Z.rem x 2) 0) as [E|E].
  - symmetry. apply even_of_rem, E.
  - symmetry. pose proof (Z.quot_rem' x 2) as Hx.
    assert (Hr : Z.rem x 2 = 1 \/ Z.rem x 2 = -1)
      by (Z.to_euclidean_division_equations; lia).
    rewrite Hx, Z.even_add, Z.even_mul. destruct Hr as [-> | ->]; reflexivity.
Qed.

Lemma constant_colorb_spec (bayer : list Z) (args : demosaic_args) (R G B : Z) :
  constant_colorb bayer args R G B = true -> constant_color bayer args R G B.
Proof.
  unfold constant_colorb, constant_color. intros H row col Hrow Hcol.
  rewrite forallb_forall in H.
  specialize (H (Z.to_nat row)). rewrite forallb_forall in H.
  assert (Hin : forall n k : Z, 0 <= k < n -> In (Z.to_nat k) (seq 0 (Z.to_nat n))).
  { intros n k Hk. apply in_seq. lia. }
  specialize (H (Hin _ _ Hrow) (Z.to_nat col) (Hin _ _ Hcol)).
  rewrite !Z2Nat.id in H by lia. apply Z.eqb_eq, H.
Qed.

Section SingleColour.

Variables (bayer : list Z) (args : demosaic_args) (R G B row col : Z).
Hypothesis args_ok : args_typed args.
Hypothesis single : constant_color bayer args R G B.
Hypothesis R_range : 0 <= R <= max_val args.
Hypothesis G_range : 0 <= G <= max_val args.
Hypothesis B_range : 0 <= B <= max_val args.
Hypothesis row_interior : 2 <= row < n_rows args - 2.
Hypothesis col_interior : 2 <= col < n_cols args - 2.

Lemma sample_near (dr dc : Z) :
  -2 <= dr <= 2 -> -2 <= dc <= 2 ->
  GET_PIX bayer (n_cols args) (row [+] dr) (col [+] dc)
  = bayer_color R G B (row + dr) (col + dc).
Proof.
  intros Hdr Hdc. destruct args_ok as [Hr Hc _ _].
  unfold is_i32, I32_MIN, I32_MAX in Hr, Hc.
  replace (row [+] dr) with (row + dr) by (wrap_off; reflexivity).
  replace (col [+] dc) with (col + dc) by (wrap_off; reflexivity).
  apply single; lia.
Qed.

Lemma bayer_color_even (r c : Z) :
  bayer_color R G B r c
  = if Z.even r then (if Z.even c then R else G) else (if Z.even c then G else B).
Proof. unfold bayer_color, by_phase, phase. rewrite rem2_even. reflexivity. Qed.

Lemma inner_pixel_constant (native interp : Z -> Z) :
  inner_pixel native interp bayer (n_cols args) row col
  = constant_pixel native interp R G B row col.
Proof.
  destruct args_ok as [_ _ [_ Hm] _]. unfold U16_MAX in Hm.
  unfold inner_pixel, constant_pixel, by_phase, phase. rewrite rem2_even.
  assert (Hown : GET_PIX bayer (n_cols args) row col = bayer_color R G B row col)
    by (apply single; lia).
  destruct (Z.even row) eqn:Er, (Z.even col) eqn:Ec;
    unfold inner_at_red, inner_at_green_rg, inner_at_green_gb, inner_at_blue,
      green_sum, row_sum, column_sum, opposite_sum;
    repeat match goal with
    | |- context [?x [-] 2] => change (x [-] 2) with (x [+] -2)
    | |- context [?x [-] 1] => change (x [-] 1) with (x [+] -1)
    end;
    rewrite !sample_near by lia; rewrite ?Hown;
    rewrite !bayer_color_even, !Z.even_add, Er, Ec; cbn [Z.even Bool.eqb];
    cbv zeta; f_equal; f_equal; unfold div32;
    wrap_off; Z.to_euclidean_division_equations; lia.
Qed.

Lemma interp_rgb16_id (x : Z) : 0 <= x <= max_val args -> interp_rgb16 args x = x.
Proof.
  intros Hx. destruct args_ok as [_ _ Hm _]. unfold interp_rgb16, is_u16 in *.
  rewrite DM_LIMIT_id by exact Hx. apply u16_small. unfold is_u16. lia.
Qed.

Lemma interp_rgb8_id (x : Z) :
  max_val_is_8bit args = true -> 0 <= x <= max_val args -> interp_rgb8 args x = x.
Proof.
  intros H8 Hx. apply Z.leb_le in H8. unfold interp_rgb8.
  rewrite DM_LIMIT_id by exact Hx. apply u8_small. unfold is_u8. lia.
Qed.

Lemma interp_rgb16to8_shift (x : Z) :
  shift_to_8bit args = true -> 0 <= x <= max_val args ->
  interp_rgb16to8 args x = x [>>] rshift args.
Proof.
  intros Hs Hx. rewrite (interp_rgb16to8_clamp_shift args args_ok Hs).
  rewrite DM_LIMIT_id by exact Hx. reflexivity.
Qed.

Lemma native_rgb16to8_shift (x : Z) :
  shift_to_8bit args = true -> 0 <= x <= max_val args ->
  native_rgb16to8 args x = x [>>] rshift args.
Proof.
  intros Hs Hx. unfold native_rgb16to8. apply u8_small.
  destruct (shift_to_8bit_facts args Hs) as [_ H255].
  pose proof (shr_mono x (max_val args) (rshift args) ltac:(lia)).
  pose proof (shr_nonneg x (rshift args) ltac:(lia)).
  unfold is_u8. lia.
Qed.

Lemma constant_pixel_same (native interp : Z -> Z) (r g b : Z) :
  native R = r -> interp R = r -> native G = g -> interp G = g ->
  native B = b -> interp B = b ->
  constant_pixel native interp R G B row col = mk_pix r g b.
Proof.
  intros <- E1 <- E2 <- E3. unfold constant_pixel, by_phase, phase.
  rewrite E1, E2, E3. destruct (row [%] 2 =? 0), (Z.even col); reflexivity.
Qed.

End SingleColour.

Lemma safe_rgb16_constant (bayer : list Z) (args : demosaic_args) (R G B row col : Z) :
  args_typed args -> constant_color bayer args R G B ->
  0 <= R <= max_val args -> 0 <= G <= max_val args -> 0 <= B <= max_val args ->
  2 <= row < n_rows args - 2 -> 2 <= col < n_cols args - 2 ->
  safe_rgb16 bayer args row col = mk_pix R G B.
Proof.
  intros T Hsingle HR HG HB Hrow Hcol.
  rewrite <- (rgb16_inner_is_safe bayer args row col) by assumption.
  rewrite (inner_pixel_constant bayer args R G B row col) by assumption.
  apply constant_pixel_same; try reflexivity; apply interp_rgb16_id; assumption.
Qed.

Lemma safe_rgb8_constant (bayer : list Z) (args : demosaic_args) (R G B row col : Z) :
  args_typed args -> max_val_is_8bit args = true -> constant_color bayer args R G B ->
  0 <= R <= max_val args -> 0 <= G <= max_val args -> 0 <= B <= max_val args ->
  2 <= row < n_rows args - 2 -> 2 <= col < n_cols args - 2 ->
  safe_rgb8 bayer args row col = mk_pix R G B.
Proof.
  intros T H8 Hsingle HR HG HB Hrow Hcol.
  rewrite <- (rgb8_inner_is_safe bayer args row col) by assumption.
  rewrite (inner_pixel_constant bayer args R G B row col) by assumption.
  apply constant_pixel_same; try reflexivity; apply interp_rgb8_id; assumption.
Qed.

Lemma safe_rgb16to8_constant (bayer : list Z) (args : demosaic_args) (R G B row col : Z) :
  args_typed args -> shift_to_8bit args = true -> constant_color bayer args R G B ->
  0 <= R <= max_val args -> 0 <= G <= max_val args -> 0 <= B <= max_val args ->
  2 <= row < n_rows args - 2 -> 2 <= col < n_cols args - 2 ->
  safe_rgb16to8 bayer args row col
  = mk_pix (R [>>] rshift args) (G [>>] rshift args) (B [>>] rshift args).
Proof.
  intros T Hs Hsingle HR HG HB Hrow Hcol.
  rewrite <- (rgb16to8_inner_is_safe bayer args row col) by assumption.
  rewrite (inner_pixel_constant bayer args R G B row col) by assumption.
  apply constant_pixel_same;
    first [apply native_rgb16to8_shift | apply interp_rgb16to8_shift]; assumption.
Qed.

(** The pixel at [col] of the row both functions of a variant leave. *)
Ltac pixel_of_both_rows rows_agree safe_constant :=
  match goal with
  | T : args_typed ?args, Hrow : 0 <= ?row < n_rows ?args,
    V : valid_args _ ?args = true
    |- context [_ (Some ?bayer) (Some ?args) ?row (Some ?out)] =>
      destruct (rows_agree bayer args row T Hrow out V) as [-> ->];
      eexists; refine (conj eq_refl (conj eq_refl _));
      rewrite fill_range_at by assumption; f_equal; apply safe_constant; assumption
  end.

(** C9. On an image in which every 2 x 2 Bayer block encodes the same
    (R, G, B), with R, G, B at most [max_val], the RGB row functions, the
    optimized and the unoptimized ones, store exactly (R, G, B) at every
    interior pixel (rows 2 .. rows - 3, columns 2 .. cols - 3), and those of
    the narrowing variant store exactly
    (R >> rshift, G >> rshift, B >> rshift), for [rshift < 32] (where C
    defines the shift). *)
Theorem single_colour_is_reconstructed
    (bayer : list Z) (args : demosaic_args) (R G B row col : Z) :
  args_typed args -> constant_color bayer args R G B ->
  0 <= R <= max_val args -> 0 <= G <= max_val args -> 0 <= B <= max_val args ->
  2 <= row < n_rows args - 2 -> 2 <= col < n_cols args - 2 ->
  (valid_args rgb16 args = true ->
   forall out, n_cols args <= Z.of_nat (length out) ->
     exists out',
       demosaic_malvar_row_rgb16 (Some bayer) (Some args) row (Some out)
       = (Done tt, Some out') /\
       demosaic_malvar_row_rgb16_unoptimized (Some bayer) (Some args) row (Some out)
       = (Done tt, Some out') /\
       out' !! Z.to_nat col = Some (mk_pix R G B)) /\
  (valid_args rgb8 args = true ->
   forall out, n_cols args <= Z.of_nat (length out) ->
     exists out',
       demosaic_malvar_row_rgb8 (Some bayer) (Some args) row (Some out)
       = (Done tt, Some out') /\
       demosaic_malvar_row_rgb8_unoptimized (Some bayer) (Some args) row (Some out)
       = (Done tt, Some out') /\
       out' !! Z.to_nat col = Some (mk_pix R G B)) /\
  (rshift args < 32 -> valid_args rgb16to8 args = true ->
   forall out, n_cols args <= Z.of_nat (length out) ->
     exists out',
       demosaic_malvar_row_rgb16to8 (Some bayer) (Some args) row (Some out)
       = (Done tt, Some out') /\
       demosaic_malvar_row_rgb16to8_unoptimized (Some bayer) (Some args) row (Some out)
       = (Done tt, Some out') /\
       out' !! Z.to_nat col
       = Some (mk_pix (R [>>] rshift args) (G [>>] rshift args) (B [>>] rshift args))).
Proof.
  intros T Hsingle HR HG HB Hrow' Hcol.
  assert (Hrow : 0 <= row < n_rows args) by lia.
  refine (conj _ (conj _ (fun _ => _))); intros V out Hlen;
    assert (Hl : col < Z.of_nat (length out)) by lia;
    assert (Hc : 0 <= col < n_cols args) by lia.
  - pixel_of_both_rows rgb16_rows_agree safe_rgb16_constant.
  - assert (H8' : max_val_is_8bit args = true)
      by (unfold valid_args in V; apply andb_true_iff in V; tauto).
    pixel_of_both_rows rgb8_rows_agree safe_rgb8_constant.
  - assert (Hs : shift_to_8bit args = true)
      by (unfold valid_args in V; apply andb_true_iff in V; tauto).
    pixel_of_both_rows rgb16to8_rows_agree safe_rgb16to8_constant.
Qed.

Lemma single_colour_is_reconstructed_witness :
  exists out',
    demosaic_malvar_row_rgb16to8 (Some single_color_bayer) (Some sample_args) 3
      (Some (replicate 6 (mk_pix 0 0 0)))
    = (Done tt, Some out') /\
    demosaic_malvar_row_rgb16to8_unoptimized (Some single_color_bayer) (Some sample_args) 3
      (Some (replicate 6 (mk_pix 0 0 0)))
    = (Done tt, Some out') /\
    out' !! Z.to_nat 2 = Some (mk_pix 62 125 187).
Proof.
  destruct (single_colour_is_reconstructed single_color_bayer sample_args
              1000 2000 3000 3 2) as (_ & _ & H).
  - exact sample_args_typed.
  - apply constant_colorb_spec. vm_compute. reflexivity.
  - simpl. lia.
  - simpl. lia.
  - simpl. lia.
  - simpl. lia.
  - simpl. lia.
  - apply (H ltac:(simpl; lia) ltac:(vm_compute; reflexivity)
             (replicate 6 (mk_pix 0 0 0))).
    simpl. lia.
Defined.

(** * Floating point: rounding and the luminance *)

(** ** Shifts and digits *)

Lemma digits2_pos_bounds (p : positive) :
  2 ^ (Z.pos (digits2_pos p) - 1) <= Z.pos p < 2 ^ Z.pos (digits2_pos p).
Proof.
  induction p as [p IH|p IH|]; cbn [digits2_pos].
  - rewrite Pos2Z.inj_succ, Pos2Z.inj_xI.
    replace (Z.succ (Z.pos (digits2_pos p)) - 1) with (Z.succ (Z.pos (digits2_pos p) - 1)) by lia.
    rewrite !Z.pow_succ_r by lia. revert IH.
    generalize (2 ^ (Z.pos (digits2_pos p) - 1)) (2 ^ Z.pos (digits2_pos p)).
    intros a b [H1 H2]. split; lia.
  - rewrite Pos2Z.inj_succ. change (Z.pos p~0) with (2 * Z.pos p).
    replace (Z.succ (Z.pos (digits2_pos p)) - 1) with (Z.succ (Z.pos (digits2_pos p) - 1)) by lia.
    rewrite !Z.pow_succ_r by lia. revert IH.
    generalize (2 ^ (Z.pos (digits2_pos p) - 1)) (2 ^ Z.pos (digits2_pos p)).
    intros a b [H1 H2]. split; lia.
  - simpl. lia.
Qed.

Lemma Zdigits2_bounds (m : Z) :
  0 <= m -> 0 <= Zdigits2 m /\ m < 2 ^ Zdigits2 m /\ (0 < m -> 2 ^ (Zdigits2 m - 1) <= m).
Proof.
  intros Hm. destruct m as [|p|p]; [simpl; lia| |lia].
  pose proof (digits2_pos_bounds p). cbn [Zdigits2]. lia.
Qed.

Lemma shr_m_shr_1 (mrs : shr_record) :
  0 <= shr_m mrs -> shr_m (shr_1 mrs) = shr_m mrs / 2.
Proof.
  destruct mrs as [m r s]. cbn [shr_m]. intros Hm.
  destruct m as [|[p|p|]|]; cbn [shr_1 shr_m]; try lia;
    Z.to_euclidean_division_equations; lia.
Qed.

Lemma shr_m_iter (p : positive) (mrs : shr_record) :
  0 <= shr_m mrs -> shr_m (SpecFloat.iter_pos shr_1 p mrs) = shr_m mrs / 2 ^ Z.pos p.
Proof.
  revert mrs. induction p as [p IH|p IH|]; intros mrs Hm; cbn [SpecFloat.iter_pos].
  - assert (H1 : 0 <= shr_m (shr_1 mrs))
      by (rewrite shr_m_shr_1 by assumption; apply Z.div_pos; lia).
    assert (H2 : 0 <= shr_m (SpecFloat.iter_pos shr_1 p (shr_1 mrs)))
      by (rewrite IH by assumption; apply Z.div_pos; lia).
    rewrite IH, IH, shr_m_shr_1 by assumption.
    rewrite !Z.div_div by lia. f_equal.
    replace (Z.pos p~1) with (1 + Z.pos p + Z.pos p) by lia.
    rewrite !Z.pow_add_r by lia. change (2 ^ 1) with 2. ring.
  - assert (H2 : 0 <= shr_m (SpecFloat.iter_pos shr_1 p mrs))
      by (rewrite IH by assumption; apply Z.div_pos; lia).
    rewrite IH, IH by assumption.
    rewrite !Z.div_div by lia. f_equal.
    replace (Z.pos p~0) with (Z.pos p + Z.pos p) by lia.
    rewrite Z.pow_add_r by lia. ring.
  - rewrite shr_m_shr_1 by assumption. reflexivity.
Qed.

Lemma fexp_eq (x : Z) : fexp 53 1024 x = Z.max (x - 53) (-1074).
Proof. reflexivity. Qed.

(** [shr_fexp] divides the mantissa by the power of two that brings the
    exponent to [fexp], rounding down; what is left has at most 53 bits. *)
Lemma shr_fexp_spec (m e : Z) (l : location) :
  0 <= m ->
  let e1 := Z.max e (Z.max (Zdigits2 m + e - 53) (-1074)) in
  exists mrs,
    shr_fexp 53 1024 m e l = (mrs, e1) /\
    shr_m mrs = m / 2 ^ (e1 - e) /\ 0 <= shr_m mrs < 2 ^ 53 /\
    (e1 = e -> mrs = shr_record_of_loc m l).
Proof.
  intros Hm e1. destruct (Zdigits2_bounds m Hm) as (Hd0 & Hd & _).
  assert (Hs : shr_m (shr_record_of_loc m l) = m) by (destruct l as [|[]]; reflexivity).
  unfold shr_fexp, shr. rewrite fexp_eq. fold e1.
  destruct (Z.max (Zdigits2 m + e - 53) (-1074) - e) as [|p|p] eqn:E.
  - assert (He : e1 = e) by lia. rewrite He, Z.sub_diag, Z.div_1_r.
    eexists. split; [reflexivity|]. rewrite Hs. split; [reflexivity|].
    split; [|reflexivity]. split; [lia|].
    apply Z.lt_le_trans with (1 := Hd). apply Z.pow_le_mono_r; lia.
  - assert (He : e1 = e + Z.pos p) by lia. rewrite He.
    replace (e + Z.pos p - e) with (Z.pos p) by lia.
    eexists. split; [reflexivity|].
    rewrite shr_m_iter by (rewrite Hs; exact Hm). rewrite Hs.
    split; [reflexivity|]. split; [|lia]. split; [apply Z.div_pos; lia|].
    apply Z.div_lt_upper_bound; [lia|]. rewrite <- Z.pow_add_r by lia.
    apply Z.lt_le_trans with (1 := Hd). apply Z.pow_le_mono_r; lia.
  - assert (He : e1 = e) by lia. rewrite He, Z.sub_diag, Z.div_1_r.
    eexists. split; [reflexivity|]. rewrite Hs. split; [reflexivity|].
    split; [|reflexivity]. split; [lia|].
    apply Z.lt_le_trans with (1 := Hd). apply Z.pow_le_mono_r; lia.
Qed.

Lemma round_nearest_even_bounds (m : Z) (l : location) :
  m <= round_nearest_even m l <= m + 1.
Proof. destruct l as [|[]]; cbn [round_nearest_even]; try destruct (Z.even m); lia. Qed.

Lemma Zdigits2_le (m k : Z) : 0 <= m -> 0 <= k -> m <= 2 ^ k -> Zdigits2 m <= k + 1.
Proof.
  intros Hm Hk Hle. destruct (Zdigits2_bounds m Hm) as (Hd0 & _ & Hlo).
  destruct (Z.eq_dec m 0) as [->|Hne]; [simpl; lia|].
  destruct (Z.le_gt_cases (Zdigits2 m) (k + 1)) as [H|H]; [exact H|].
  assert (2 ^ (k + 1) <= 2 ^ (Zdigits2 m - 1)) by (apply Z.pow_le_mono_r; lia).
  assert (2 ^ k < 2 ^ (k + 1)) by (apply Z.pow_lt_mono_r; lia).
  specialize (Hlo ltac:(lia)). lia.
Qed.

Lemma round_arith (m m1 m2 m3 P Q r1 : Z) :
  0 < P -> Q = 1 \/ Q = 2 -> m = P * m1 + r1 -> 0 <= r1 < P ->
  m1 <= m2 <= m1 + 1 -> m3 * Q <= m2 < m3 * Q + Q ->
  m3 * (Q * P) <= m + P /\ m < m3 * (Q * P) + 3 * P.
Proof.
  intros HP HQ Hm Hr H12 H23.
  assert (m3 * Q * P <= (m1 + 1) * P) by (apply Z.mul_le_mono_nonneg_r; lia).
  assert ((m2 + 1) * P <= (m3 * Q + Q) * P) by (apply Z.mul_le_mono_nonneg_r; lia).
  assert (m1 * P <= m2 * P) by (apply Z.mul_le_mono_nonneg_r; lia).
  destruct HQ as [-> | ->]; lia.
Qed.

(** Rounding to nearest even of [m * 2 ^ e], for [0 <= m]: the result is
    [m3 * 2 ^ e3] with [m3] of at most 53 bits, off by at most three units
    of the exponent [e1] the format assigns to [m * 2 ^ e], and equal to
    it when no bit has to go. *)
Lemma binary_round_aux_spec (m e : Z) (l : location) :
  0 <= m ->
  exists e1 e3 m3,
    binary_round_aux 53 1024 false m e l = pack m3 e3 /\
    e1 = Z.max e (Z.max (Zdigits2 m + e - 53) (-1074)) /\
    e1 <= e3 <= e1 + 1 /\ 0 <= m3 < 2 ^ 53 /\
    m3 * 2 ^ (e3 - e) <= m + 2 ^ (e1 - e) /\
    m < m3 * 2 ^ (e3 - e) + 3 * 2 ^ (e1 - e) /\
    (l = loc_Exact -> e1 = e -> m3 = m /\ e3 = e).
Proof.
  intros Hm. destruct (shr_fexp_spec m e l Hm) as (mrs1 & E1 & Hm1 & Hb1 & Hx1).
  set (e1 := Z.max e (Z.max (Zdigits2 m + e - 53) (-1074))) in *.
  set (m2 := round_nearest_even (shr_m mrs1) (loc_of_shr_record mrs1)).
  pose proof (round_nearest_even_bounds (shr_m mrs1) (loc_of_shr_record mrs1)) as Hm2.
  fold m2 in Hm2. assert (Hm2' : 0 <= m2) by lia.
  destruct (shr_fexp_spec m2 e1 loc_Exact Hm2') as (mrs3 & E3 & Hm3 & Hb3 & Hx3).
  set (e3 := Z.max e1 (Z.max (Zdigits2 m2 + e1 - 53) (-1074))) in *.
  assert (Hd2 : Zdigits2 m2 <= 54) by (apply (Zdigits2_le m2 53); lia).
  assert (He3 : e3 = e1 \/ e3 = e1 + 1) by lia.
  assert (HP : 0 < 2 ^ (e1 - e)) by (apply Z.pow_pos_nonneg; lia).
  exists e1, e3, (shr_m mrs3).
  split; [unfold binary_round_aux; rewrite E1; fold m2; rewrite E3; reflexivity|].
  split; [reflexivity|]. split; [lia|]. split; [exact Hb3|].
  pose proof (Z.mul_div_le m _ HP) as Hlo1.
  pose proof (Z.mod_pos_bound m _ HP) as Hr1.
  pose proof (Z.div_mod m (2 ^ (e1 - e)) ltac:(lia)) as Hdm1.
  rewrite <- Hm1 in Hlo1, Hdm1.
  assert (HQ : 2 ^ (e3 - e) = 2 ^ (e3 - e1) * 2 ^ (e1 - e))
    by (rewrite <- Z.pow_add_r by lia; f_equal; lia).
  rewrite HQ. clear HQ.
  assert (Hm3' : shr_m mrs3 * 2 ^ (e3 - e1) <= m2 < shr_m mrs3 * 2 ^ (e3 - e1) + 2 ^ (e3 - e1)).
  { assert (HQ : 0 < 2 ^ (e3 - e1)) by (apply Z.pow_pos_nonneg; lia).
    pose proof (Z.div_mod m2 (2 ^ (e3 - e1)) ltac:(lia)) as Hdm.
    pose proof (Z.mod_pos_bound m2 _ HQ) as Hr. rewrite <- Hm3 in Hdm. lia. }
  assert (HQ2 : 2 ^ (e3 - e1) = 1 \/ 2 ^ (e3 - e1) = 2).
  { destruct He3 as [-> | ->]; [left | right].
    - rewrite Z.sub_diag. reflexivity.
    - replace (e1 + 1 - e1) with 1 by lia. reflexivity. }
  destruct (round_arith m (shr_m mrs1) m2 (shr_m mrs3) _ _ (m mod 2 ^ (e1 - e))
              HP HQ2 Hdm1 Hr1 Hm2 Hm3') as [G1 G2].
  split; [exact G1|]. split; [exact G2|].
  intros -> He. specialize (Hx1 He). subst mrs1. unfold m2 in E3. cbn in E3.
  rewrite He in E3 at 1. rewrite E1 in E3. injection E3 as <- <-. simpl. lia.
Qed.

(** ** Powers of two as reals *)

Lemma bpow_pos (e : Z) : (0 < bpow e)%R.
Proof. apply powerRZ_lt. lra. Qed.

Lemma bpow_add (a b : Z) : bpow (a + b) = (bpow a * bpow b)%R.
Proof. apply powerRZ_add. lra. Qed.

Lemma IZR_pow2 (n : Z) : 0 <= n -> IZR (2 ^ n) = bpow n.
Proof.
  intros Hn. destruct n as [|p|p]; [reflexivity| |lia].
  apply (Zpower_pos_powerRZ 2 p).
Qed.

Lemma bpow_le (a b : Z) : a <= b -> (bpow a <= bpow b)%R.
Proof.
  intros Hab. replace b with (a + (b - a)) by lia. rewrite bpow_add.
  rewrite <- (IZR_pow2 (b - a)) by lia.
  assert (H1 : (1 <= IZR (2 ^ (b - a)))%R).
  { apply IZR_le. assert (0 < 2 ^ (b - a)) by (apply Z.pow_pos_nonneg; lia). lia. }
  pose proof (bpow_pos a). nra.
Qed.

Lemma bpow_split (a b : Z) : bpow a = (bpow (a - b) * bpow b)%R.
Proof. rewrite <- bpow_add. f_equal. lia. Qed.

Lemma value_pack (m e : Z) :
  0 <= m < 2 ^ 53 ->
  (pack m e = S754_infinity false /\ 0 < m /\ 971 < e) \/
  (finite_nonneg (pack m e) /\ bounded_mantissa (pack m e) /\
   value (pack m e) = (IZR m * bpow e)%R).
Proof.
  intros Hm. destruct m as [|q|q]; [right|  |lia].
  - simpl. split; [exact I|]. split; [exact I|]. lra.
  - unfold pack. destruct (Z.leb_spec e 971) as [He|He]; [right|left].
    + split; [exact I|]. split; [exact (proj2 Hm)|]. reflexivity.
    + split; [reflexivity|]. lia.
Qed.

(** The value of a mantissa of [d] bits is at least [2 ^ (d - 1)]. *)
Lemma value_digits (m : positive) (e : Z) :
  (bpow (Zdigits2 (Z.pos m) - 1 + e) <= IZR (Z.pos m) * bpow e)%R.
Proof.
  destruct (Zdigits2_bounds (Z.pos m) ltac:(lia)) as (Hd0 & _ & Hlo).
  specialize (Hlo ltac:(lia)). rewrite bpow_add.
  assert (0 <= Zdigits2 (Z.pos m) - 1)
    by (cbn [Zdigits2]; lia).
  rewrite <- IZR_pow2 by assumption. apply IZR_le in Hlo.
  pose proof (bpow_pos e). nra.
Qed.

(** The standard model of a rounding: relative error [3 * 2 ^ -52],
    absolute error [3 * 2 ^ -1074], unless the result overflows. *)
Lemma round_model (m : positive) (e : Z) :
  let r := binary_round_aux 53 1024 false (Z.pos m) e loc_Exact in
  let y := (IZR (Z.pos m) * bpow e)%R in
  (r = S754_infinity false /\ (bpow 971 <= y)%R) \/
  (finite_nonneg r /\ bounded_mantissa r /\
   (y - 3 * (y * bpow (-52) + bpow (-1074)) <= value r
    <= y + 3 * (y * bpow (-52) + bpow (-1074)))%R).
Proof.
  intros r y.
  destruct (binary_round_aux_spec (Z.pos m) e loc_Exact ltac:(lia))
    as (e1 & e3 & m3 & Hr & He1 & He3 & Hb & Hup & Hlo & Hex).
  fold r in Hr. rewrite Hr.
  pose proof (value_digits m e) as Hd. fold y in Hd.
  pose proof (bpow_pos (-52)) as H52. pose proof (bpow_pos (-1074)) as H1074.
  assert (Hy : (0 < y)%R).
  { unfold y. pose proof (bpow_pos e). assert (1 <= IZR (Z.pos m))%R by (apply IZR_le; lia).
    nra. }
  assert (Hy1 : (bpow e <= y)%R).
  { unfold y. pose proof (bpow_pos e). assert (1 <= IZR (Z.pos m))%R by (apply IZR_le; lia).
    nra. }
  destruct (Z.eq_dec e1 e) as [Heq|Hne].
  - (* no bit is lost *)
    destruct (Hex eq_refl Heq) as [-> ->].
    destruct (value_pack (Z.pos m) e Hb) as [(-> & _ & Hinf) | (Hf & Hbm & ->)].
    + left. split; [reflexivity|].
      apply Rle_trans with (2 := Hy1). apply bpow_le. lia.
    + right. split; [exact Hf|]. split; [exact Hbm|]. fold y. nra.
  - assert (He : e < e1) by lia.
    assert (He1' : e1 = Z.max (Zdigits2 (Z.pos m) + e - 53) (-1074)) by lia.
    (* the unit of [e1] against [y] *)
    assert (Hulp : (bpow e1 <= y * bpow (-52) + bpow (-1074))%R).
    { destruct (Z.max_spec (Zdigits2 (Z.pos m) + e - 53) (-1074)) as [[_ Hm']|[_ Hm']];
        rewrite Hm' in He1'.
      - rewrite He1'. nra.
      - rewrite He1'.
        replace (Zdigits2 (Z.pos m) + e - 53) with (Zdigits2 (Z.pos m) - 1 + e + -52) by lia.
        rewrite bpow_add. nra. }
    (* the two bounds, scaled by [2 ^ e] *)
    assert (Hup' : (IZR m3 * bpow e3 <= y + bpow e1)%R).
    { apply IZR_le in Hup. rewrite plus_IZR, mult_IZR, !IZR_pow2 in Hup by lia.
      rewrite (bpow_split e3 e), (bpow_split e1 e). unfold y.
      pose proof (bpow_pos e). nra. }
    assert (Hlo' : (y <= IZR m3 * bpow e3 + 3 * bpow e1)%R).
    { apply IZR_lt in Hlo. rewrite plus_IZR, !mult_IZR, !IZR_pow2 in Hlo by lia.
      rewrite (bpow_split e3 e), (bpow_split e1 e). unfold y.
      pose proof (bpow_pos e). nra. }
    destruct (value_pack m3 e3 Hb) as [(-> & Hm3 & Hinf) | (Hf & Hbm & ->)].
    + left. split; [reflexivity|].
      apply Rle_trans with (2 := Hd). apply bpow_le. lia.
    + right. split; [exact Hf|]. split; [exact Hbm|]. lra.
Qed.

(** ** The operations on [double] *)

Lemma pos_iter_xO (m d : positive) : Z.pos (Pos.iter xO m d) = Z.pos m * 2 ^ Z.pos d.
Proof.
  change (Pos.iter xO m d) with (shift_pos d m). rewrite shift_pos_correct.
  change (Z.pow_pos 2 d) with (2 ^ Z.pos d). ring.
Qed.

Lemma shl_align_value (m : positive) (e e' : Z) :
  (IZR (Z.pos (fst (shl_align m e e'))) * bpow (snd (shl_align m e e'))
   = IZR (Z.pos m) * bpow e)%R.
Proof.
  unfold shl_align. destruct (e' - e) as [|d|d] eqn:E; cbn [fst snd]; try reflexivity.
  rewrite pos_iter_xO, mult_IZR, IZR_pow2 by lia.
  rewrite (bpow_split e e'). replace (e - e') with (Z.pos d) by lia. ring.
Qed.

Lemma shl_align_snd (m : positive) (e e' : Z) : e' <= e -> snd (shl_align m e e') = e'.
Proof.
  intros He. unfold shl_align. destruct (e' - e) as [|d|d] eqn:E; cbn [snd]; lia.
Qed.

Lemma binary_round_model (m : positive) (e : Z) :
  let r := binary_round 53 1024 false m e in
  let y := (IZR (Z.pos m) * bpow e)%R in
  (r = S754_infinity false /\ (bpow 971 <= y)%R) \/
  (finite_nonneg r /\ bounded_mantissa r /\
   (y - 3 * (y * bpow (-52) + bpow (-1074)) <= value r
    <= y + 3 * (y * bpow (-52) + bpow (-1074)))%R).
Proof.
  intros r y. unfold r, binary_round.
  pose proof (shl_align_value m e (fexp 53 1024 (Z.pos (digits2_pos m) + e))) as Hv.
  destruct (shl_align m e (fexp 53 1024 (Z.pos (digits2_pos m) + e))) as [mz ez].
  cbn [fst snd] in Hv. unfold y. rewrite <- Hv. apply round_model.
Qed.

Lemma value_nonneg (x : F64) : finite_nonneg x -> (0 <= value x)%R.
Proof.
  destruct x as [s|s| |[] m e]; cbn; intros H; try lra; try contradiction.
  pose proof (bpow_pos e). assert (1 <= IZR (Z.pos m))%R by (apply IZR_le; lia). nra.
Qed.

Lemma rounds_to_exact (r : F64) : finite_nonneg r -> rounds_to r (value r).
Proof.
  intros Hr. right. split; [exact Hr|].
  pose proof (value_nonneg r Hr). pose proof (bpow_pos (-52)). pose proof (bpow_pos (-1074)).
  nra.
Qed.

Lemma of_int_model (n : Z) :
  0 <= n -> rounds_to (F64ops.of_int n) (IZR n) /\ bounded_mantissa (F64ops.of_int n).
Proof.
  intros Hn. unfold F64ops.of_int, F64ops.prec, F64ops.emax, binary_normalize.
  destruct n as [|p|p]; [|  |lia].
  - split; [|exact I]. apply (rounds_to_exact (S754_zero false)). exact I.
  - pose proof (binary_round_model p 0) as H. cbv zeta in H.
    replace (IZR (Z.pos p) * bpow 0)%R with (IZR (Z.pos p)) in H
      by (change (bpow 0) with 1%R; ring).
    destruct H as [[-> Hy] | (Hf & Hb & Hv)].
    + split; [|exact I]. left. split; [reflexivity|]. exact Hy.
    + split; [|exact Hb]. right. split; [exact Hf|]. exact Hv.
Qed.

Lemma mul_model (a b : F64) :
  finite_nonneg a -> finite_nonneg b ->
  rounds_to (F64ops.mul a b) (value a * value b).
Proof.
  unfold F64ops.mul, F64ops.prec, F64ops.emax.
  destruct a as [sa|sa| |[] ma ea]; try contradiction;
    destruct b as [sb|sb| |[] mb eb]; try contradiction; intros _ _; cbn [SFmul xorb].
  - replace (value (S754_zero sa) * value (S754_zero sb))%R with (value (S754_zero (xorb sa sb)))
      by (cbn; ring).
    apply rounds_to_exact. exact I.
  - replace (value (S754_zero sa) * value (S754_finite false mb eb))%R
      with (value (S754_zero (xorb sa false))) by (cbn; ring).
    apply rounds_to_exact. exact I.
  - replace (value (S754_finite false ma ea) * value (S754_zero sb))%R
      with (value (S754_zero (xorb false sb))) by (cbn; ring).
    apply rounds_to_exact. exact I.
  - replace (value (S754_finite false ma ea) * value (S754_finite false mb eb))%R
      with (IZR (Z.pos (ma * mb)) * bpow (ea + eb))%R
      by (cbn; rewrite Pos2Z.inj_mul, mult_IZR, bpow_add; ring).
    destruct (round_model (ma * mb) (ea + eb)) as [H | (Hf & _ & Hv)].
    + left. exact H.
    + right. split; assumption.
Qed.

Lemma add_model (a b : F64) :
  finite_nonneg a -> finite_nonneg b ->
  rounds_to (F64ops.add a b) (value a + value b) /\
  (bounded_mantissa a -> bounded_mantissa b -> bounded_mantissa (F64ops.add a b)).
Proof.
  unfold F64ops.add, F64ops.prec, F64ops.emax.
  destruct a as [sa|sa| |[] ma ea]; try contradiction;
    destruct b as [sb|sb| |[] mb eb]; try contradiction; intros _ _.
  - split.
    + replace (value (S754_zero sa) + value (S754_zero sb))%R with 0%R by (cbn; ring).
      destruct sa, sb; apply (rounds_to_exact (S754_zero _)); exact I.
    + intros _ _. destruct sa, sb; exact I.
  - split.
    + replace (value (S754_zero sa) + value (S754_finite false mb eb))%R
        with (value (S754_finite false mb eb)) by (cbn; ring).
      apply rounds_to_exact. exact I.
    + intros _ H. exact H.
  - split.
    + replace (value (S754_finite false ma ea) + value (S754_zero sb))%R
        with (value (S754_finite false ma ea)) by (cbn; ring).
      apply rounds_to_exact. exact I.
    + intros H _. exact H.
  - cbn [SFadd cond_Zopp].
    pose proof (shl_align_value ma ea (Z.min ea eb)) as Ha.
    pose proof (shl_align_value mb eb (Z.min ea eb)) as Hb.
    rewrite shl_align_snd in Ha, Hb by lia.
    set (ma' := fst (shl_align ma ea (Z.min ea eb))) in *.
    set (mb' := fst (shl_align mb eb (Z.min ea eb))) in *.
    change (Z.pos ma' + Z.pos mb') with (Z.pos (ma' + mb')).
    cbn [binary_normalize].
    replace (value (S754_finite false ma ea) + value (S754_finite false mb eb))%R
      with (IZR (Z.pos (ma' + mb')) * bpow (Z.min ea eb))%R
      by (cbn; rewrite Pos2Z.inj_add, plus_IZR; lra).
    destruct (binary_round_model (ma' + mb') (Z.min ea eb)) as [H | (Hf & Hbm & Hv)].
    + split; [left; exact H|]. intros _ _. destruct H as [-> _]. exact I.
    + split; [right; split; assumption|]. intros _ _. exact Hbm.
Qed.

(** ** Classes of the values that occur *)

Lemma divisor_class_not_negative (x : F64) : divisor_class x -> not_negative x.
Proof. destruct x as [[]|[]| |[] m e]; cbn; tauto. Qed.

Lemma finite_nonneg_not_negative (x : F64) : finite_nonneg x -> not_negative x.
Proof. destruct x as [[]|[]| |[] m e]; cbn; tauto. Qed.

Lemma not_negative_cases (x : F64) : not_negative x -> overflowed x \/ finite_nonneg x.
Proof.
  destruct x as [s|[]| |[] m e]; cbn; intros H; try contradiction;
    first [right; exact I | left; unfold overflowed; tauto].
Qed.

Lemma pack_class (m e : Z) :
  0 <= m < 2 ^ 53 -> divisor_class (pack m e) /\ bounded_mantissa (pack m e).
Proof.
  intros Hm. destruct m as [|q|q]; [split; exact I| |lia].
  unfold pack. destruct (e <=? 971); split; try exact I. exact (proj2 Hm).
Qed.

Lemma binary_round_aux_class (m e : Z) (l : location) :
  0 <= m ->
  divisor_class (binary_round_aux 53 1024 false m e l) /\
  bounded_mantissa (binary_round_aux 53 1024 false m e l).
Proof.
  intros Hm. destruct (binary_round_aux_spec m e l Hm) as (e1 & e3 & m3 & -> & _ & _ & Hb & _).
  apply pack_class, Hb.
Qed.

Lemma binary_round_class (m : positive) (e : Z) :
  divisor_class (binary_round 53 1024 false m e) /\
  bounded_mantissa (binary_round 53 1024 false m e).
Proof.
  unfold binary_round.
  destruct (shl_align m e (fexp 53 1024 (Z.pos (digits2_pos m) + e))) as [mz ez].
  apply binary_round_aux_class. lia.
Qed.

Lemma add_class (a b : F64) :
  not_negative a -> not_negative b -> not_negative (F64ops.add a b).
Proof.
  unfold F64ops.add, F64ops.prec, F64ops.emax.
  destruct a as [sa|[]| |[] ma ea]; try contradiction;
    destruct b as [sb|[]| |[] mb eb]; try contradiction; intros _ _;
    try exact I; try (destruct sa; exact I); try (destruct sa, sb; exact I).
  cbn [SFadd cond_Zopp].
  change (Z.pos (fst (shl_align ma ea (Z.min ea eb)))
          + Z.pos (fst (shl_align mb eb (Z.min ea eb))))
    with (Z.pos (fst (shl_align ma ea (Z.min ea eb)) + fst (shl_align mb eb (Z.min ea eb)))).
  cbn [binary_normalize]. apply divisor_class_not_negative, binary_round_class.
Qed.

Lemma add_overflowed_l (a b : F64) :
  overflowed a -> not_negative b -> overflowed (F64ops.add a b).
Proof.
  intros [-> | ->]; destruct b as [sb|[]| |[] mb eb]; try contradiction; intros _;
    unfold overflowed; cbn; tauto.
Qed.

Lemma add_overflowed_r (a b : F64) :
  not_negative a -> overflowed b -> overflowed (F64ops.add a b).
Proof.
  intros Ha [-> | ->]; destruct a as [sa|[]| |[] ma ea]; try contradiction;
    unfold overflowed; cbn; tauto.
Qed.

Lemma ltb_overflowed (x : F64) : overflowed x -> F64ops.ltb x F64ops.one = false.
Proof. intros [-> | ->]; reflexivity. Qed.

(** The sum with [0.000001] can be divided by: it is not a negative zero. *)
Lemma add_millionth_class (x : F64) :
  not_negative x -> divisor_class (F64ops.add x F64ops.millionth).
Proof.
  unfold F64ops.add, F64ops.prec, F64ops.emax, F64ops.millionth.
  destruct x as [s|[]| |[] m e]; try contradiction; intros _; try exact I.
  cbn [SFadd cond_Zopp].
  match goal with
  | |- context [Z.pos ?a + Z.pos ?b] => change (Z.pos a + Z.pos b) with (Z.pos (a + b))
  end.
  cbn [binary_normalize]. apply binary_round_class.
Qed.

Lemma SFdiv_core_binary_nonneg (m1 m2 : positive) (e1 e2 : Z) :
  0 <= fst (fst (SFdiv_core_binary 53 1024 (Z.pos m1) e1 (Z.pos m2) e2)).
Proof.
  unfold SFdiv_core_binary.
  set (s := e1 - e2 - _).
  set (m' := match s with Z0 => Z.pos m1 | Z.pos _ => Z.shiftl (Z.pos m1) s | Z.neg _ => 0 end).
  assert (Hm' : 0 <= m').
  { unfold m'. destruct s; try lia. apply Z.shiftl_nonneg. lia. }
  pose proof (Z.div_pos m' (Z.pos m2) Hm' ltac:(lia)) as Hq.
  unfold Z.div in Hq. destruct (Z.div_eucl m' (Z.pos m2)) as [q r]. exact Hq.
Qed.

Lemma div_class (c s : F64) :
  finite_nonneg c -> divisor_class s ->
  not_negative (F64ops.div c s) /\ bounded_mantissa (F64ops.div c s).
Proof.
  unfold F64ops.div, F64ops.prec, F64ops.emax.
  destruct c as [sc|sc| |[] mc ec]; try contradiction;
    destruct s as [[]|[]| |[] ms es]; try contradiction; intros _ _;
    try (split; exact I); try (destruct sc; split; exact I).
  cbn [SFdiv xorb].
  pose proof (SFdiv_core_binary_nonneg mc ms ec es) as Hq.
  destruct (SFdiv_core_binary 53 1024 (Z.pos mc) ec (Z.pos ms) es) as [[mz ez] lz].
  cbn [fst] in Hq.
  destruct (binary_round_aux_class mz ez lz Hq) as [Hc Hb].
  split; [apply divisor_class_not_negative, Hc | exact Hb].
Qed.

Lemma coef_in_unit_class (c : F64) : coef_in_unit c = true -> finite_nonneg c.
Proof.
  unfold coef_in_unit. destruct c as [s|[]| |[] m e]; intros H; try exact I;
    cbn in H; try discriminate.
Qed.

(** ** Comparison with [1.0] *)

Lemma bpow_m52 : bpow (-52) = (/ 4503599627370496)%R.
Proof. unfold bpow. simpl. lra. Qed.

Lemma bpow_m53 : bpow (-53) = (/ 9007199254740992)%R.
Proof. unfold bpow. simpl. lra. Qed.

Lemma bpow_m1074_le : (bpow (-1074) <= / 4503599627370496)%R.
Proof. rewrite <- bpow_m52. apply bpow_le. lia. Qed.

Lemma bpow_971_ge : (2097152 <= bpow 971)%R.
Proof.
  apply Rle_trans with (bpow 21); [|apply bpow_le; lia].
  unfold bpow. simpl. lra.
Qed.

Lemma SFltb_finite (m1 m2 : positive) (e1 e2 : Z) :
  SFltb (S754_finite false m1 e1) (S754_finite false m2 e2) = true ->
  e1 < e2 \/ (e1 = e2 /\ Z.pos m1 < Z.pos m2).
Proof.
  unfold SFltb, SFcompare. destruct (Z.compare_spec e1 e2) as [He|He|He]; intros H.
  - right. split; [exact He|]. rewrite Pos.compare_cont_spec in H.
    unfold Pos.switch_Eq in H.
    destruct (Pos.compare_spec m1 m2) as [Hm|Hm|Hm]; try discriminate.
    apply Pos2Z.pos_lt_pos, Hm.
  - left. exact He.
  - discriminate.
Qed.

Lemma ltb_one_value (x : F64) :
  finite_nonneg x -> bounded_mantissa x -> F64ops.ltb x F64ops.one = true ->
  (value x < 1)%R.
Proof.
  destruct x as [s|s| |[] m e]; try contradiction; intros _ Hb Hlt.
  - cbn. lra.
  - apply SFltb_finite in Hlt. cbn [value cond_Zopp bounded_mantissa] in *.
    destruct Hlt as [Hlt | [-> Hm]].
    + pose proof (bpow_pos e) as He.
      apply Rlt_le_trans with (bpow 53 * bpow e)%R.
      * rewrite <- (IZR_pow2 53) by lia.
        assert (IZR (Z.pos m) < IZR (2 ^ 53))%R by (apply IZR_lt; exact Hb). nra.
      * rewrite <- bpow_add. change 1%R with (bpow 0). apply bpow_le. lia.
    + apply IZR_lt in Hm. rewrite bpow_m52. lra.
Qed.

(** If the sum of three values that are not negative compares below [1.0],
    the three are finite and their exact sum is below [1 + 2 ^ -40]. *)
Lemma sum_below_one (a b c : F64) :
  not_negative a -> not_negative b -> not_negative c ->
  bounded_mantissa a -> bounded_mantissa b -> bounded_mantissa c ->
  F64ops.ltb (F64ops.add (F64ops.add a b) c) F64ops.one = true ->
  finite_nonneg a /\ finite_nonneg b /\ finite_nonneg c /\
  (value a + value b + value c <= 1 + / 1099511627776)%R.
Proof.
  intros Na Nb Nc Ba Bb Bc Hlt.
  pose proof (add_class a b Na Nb) as Nab.
  destruct (not_negative_cases a Na) as [Oa|Fa].
  { rewrite ltb_overflowed in Hlt; [discriminate|].
    apply add_overflowed_l; [apply add_overflowed_l|]; assumption. }
  destruct (not_negative_cases b Nb) as [Ob|Fb].
  { rewrite ltb_overflowed in Hlt; [discriminate|].
    apply add_overflowed_l; [apply add_overflowed_r|]; assumption. }
  destruct (not_negative_cases c Nc) as [Oc|Fc].
  { rewrite ltb_overflowed in Hlt; [discriminate|].
    apply add_overflowed_r; assumption. }
  refine (conj Fa (conj Fb (conj Fc _))).
  destruct (add_model a b Fa Fb) as [[[Hinf _] | [Fab Vab]] Bab].
  { rewrite ltb_overflowed in Hlt; [discriminate|].
    apply add_overflowed_l; [right; exact Hinf | assumption]. }
  destruct (add_model _ c Fab Fc) as [[[Hinf _] | [Fabc Vabc]] Babc].
  { rewrite ltb_overflowed in Hlt; [discriminate|]. right. exact Hinf. }
  pose proof (ltb_one_value _ Fabc (Babc (Bab Ba Bb) Bc) Hlt) as H1.
  pose proof (value_nonneg a Fa). pose proof (value_nonneg b Fb).
  pose proof (value_nonneg c Fc). pose proof (value_nonneg _ Fab).
  pose proof bpow_m1074_le. pose proof (bpow_pos (-1074)).
  rewrite bpow_m52 in Vab, Vabc. lra.
Qed.

(** ** The luminance *)

Lemma rounds_to_small (r : F64) (y : R) :
  rounds_to r y -> (0 <= y <= 1048576)%R ->
  finite_nonneg r /\ (value r <= y + / 1073741824)%R.
Proof.
  intros [[_ Hinf] | [Hf Hv]] Hy.
  - pose proof bpow_971_ge. lra.
  - split; [exact Hf|]. pose proof bpow_m1074_le. rewrite bpow_m52 in Hv. lra.
Qed.

Lemma to_int_bound (x : F64) (M : Z) :
  0 <= M -> finite_nonneg x -> (value x < IZR (M + 1))%R ->
  0 <= F64ops.to_int x <= M.
Proof.
  intros HM. destruct x as [s|s| |[] m e]; try contradiction; intros _ Hv;
    cbn [F64ops.to_int]; [lia|].
  cbn [value cond_Zopp] in *.
  destruct (Z.le_gt_cases 0 e) as [He|He].
  - rewrite Z.shiftl_mul_pow2 by exact He.
    rewrite <- IZR_pow2, <- mult_IZR in Hv by exact He. apply lt_IZR in Hv.
    assert (0 < 2 ^ e) by (apply Z.pow_pos_nonneg; lia). nia.
  - rewrite Z.shiftl_div_pow2 by lia.
    assert (HP : 0 < 2 ^ (- e)) by (apply Z.pow_pos_nonneg; lia).
    pose proof (Z.mul_div_le (Z.pos m) _ HP) as Hq.
    pose proof (Z.div_pos (Z.pos m) (2 ^ (- e)) ltac:(lia) HP) as Hq0.
    split; [exact Hq0|].
    apply IZR_le in Hq. rewrite mult_IZR, IZR_pow2 in Hq by lia.
    assert (H1 : (bpow (- e) * bpow e = 1)%R)
      by (rewrite <- bpow_add; replace (- e + e) with 0 by lia; reflexivity).
    pose proof (bpow_pos e). pose proof (bpow_pos (- e)).
    assert (Hq' : (IZR (Z.pos m / 2 ^ (- e)) <= IZR (Z.pos m) * bpow e)%R).
    { apply Rmult_le_compat_r with (r := bpow e) in Hq; [|lra].
      replace (bpow (- e) * IZR (Z.pos m / 2 ^ (- e)) * bpow e)%R
        with (IZR (Z.pos m / 2 ^ (- e)) * (bpow (- e) * bpow e))%R in Hq by ring.
      rewrite H1, Rmult_1_r in Hq. exact Hq. }
    assert (Hlt : (IZR (Z.pos m / 2 ^ (- e)) < IZR (M + 1))%R) by lra.
    apply lt_IZR in Hlt. lia.
Qed.

Lemma value_half : value F64ops.half = (/ 2)%R.
Proof. unfold F64ops.half. cbn [value cond_Zopp]. rewrite bpow_m53. lra. Qed.

(** A sample times a coefficient, for a sample of at most 16 bits and a
    coefficient of at most [1 + 2 ^ -40]. *)
Lemma luma_term (c : F64) (x M : Z) :
  finite_nonneg c -> (value c <= 1 + / 1099511627776)%R ->
  0 <= x <= M -> M <= 65535 ->
  finite_nonneg (F64ops.mul c (F64ops.of_int x)) /\
  (value (F64ops.mul c (F64ops.of_int x))
   <= value c * (IZR M + / 1073741824) + / 1073741824)%R.
Proof.
  intros Hc Hc1 Hx HM. pose proof (value_nonneg c Hc) as Hc0.
  assert (HxR : (0 <= IZR x <= IZR M)%R) by (split; apply IZR_le; lia).
  assert (HMR : (IZR M <= 65535)%R) by (apply IZR_le; lia).
  destruct (of_int_model x ltac:(lia)) as [Hr _].
  destruct (rounds_to_small _ _ Hr ltac:(lra)) as [Hf Hv].
  pose proof (value_nonneg _ Hf) as Hv0.
  assert (Hp : (value c * value (F64ops.of_int x)
                <= value c * (IZR M + / 1073741824))%R)
    by (apply Rmult_le_compat_l; lra).
  assert (Hp0 : (0 <= value c * value (F64ops.of_int x))%R)
    by (apply Rmult_le_pos; assumption).
  assert (Hp1 : (value c * (IZR M + / 1073741824) <= 131072)%R) by nra.
  destruct (rounds_to_small _ _ (mul_model c _ Hc Hf) ltac:(lra)) as [Hfm Hvm].
  split; [exact Hfm|]. lra.
Qed.

(** The luminance of a pixel whose channels are at most [M] is at most [M],
    for non-negative coefficients whose exact sum is at most
    [1 + 2 ^ -40]. *)
Lemma luma_bound (cn : demosaic_luma_coefs) (r g b M : Z) :
  finite_nonneg (coef_red cn) -> finite_nonneg (coef_green cn) ->
  finite_nonneg (coef_blue cn) ->
  (value (coef_red cn) + value (coef_green cn) + value (coef_blue cn)
   <= 1 + / 1099511627776)%R ->
  0 <= r <= M -> 0 <= g <= M -> 0 <= b <= M -> M <= 65535 ->
  0 <= F64ops.to_int (luma cn r g b) <= M.
Proof.
  intros Fr Fg Fb Hsum Hr Hg Hb HM.
  pose proof (value_nonneg _ Fr) as Vr. pose proof (value_nonneg _ Fg) as Vg.
  pose proof (value_nonneg _ Fb) as Vb.
  assert (HM0 : (0 <= IZR M <= 65535)%R) by (split; apply IZR_le; lia).
  destruct (luma_term (coef_red cn) r M Fr ltac:(lra) Hr HM) as [Fpr Vpr].
  destruct (luma_term (coef_green cn) g M Fg ltac:(lra) Hg HM) as [Fpg Vpg].
  destruct (luma_term (coef_blue cn) b M Fb ltac:(lra) Hb HM) as [Fpb Vpb].
  pose proof (value_nonneg _ Fpr) as Vpr0. pose proof (value_nonneg _ Fpg) as Vpg0.
  pose proof (value_nonneg _ Fpb) as Vpb0.
  set (pr := F64ops.mul (coef_red cn) (F64ops.of_int r)) in *.
  set (pg := F64ops.mul (coef_green cn) (F64ops.of_int g)) in *.
  set (pb := F64ops.mul (coef_blue cn) (F64ops.of_int b)) in *.
  set (Mx := (IZR M + / 1073741824)%R) in *.
  assert (HMx : (0 <= Mx <= 65536)%R) by (unfold Mx; lra).
  assert (Htot : (value (coef_red cn) * Mx + value (coef_green cn) * Mx
                  + value (coef_blue cn) * Mx
                  <= (1 + / 1099511627776) * Mx)%R).
  { replace (value (coef_red cn) * Mx + value (coef_green cn) * Mx
             + value (coef_blue cn) * Mx)%R
      with ((value (coef_red cn) + value (coef_green cn) + value (coef_blue cn)) * Mx)%R
      by ring.
    apply Rmult_le_compat_r; lra. }
  assert (Hr1 : (0 <= value (coef_red cn) * Mx)%R) by (apply Rmult_le_pos; lra).
  assert (Hg1 : (0 <= value (coef_green cn) * Mx)%R) by (apply Rmult_le_pos; lra).
  assert (Hb1 : (0 <= value (coef_blue cn) * Mx)%R) by (apply Rmult_le_pos; lra).
  destruct (add_model pr pg Fpr Fpg) as [R1 _].
  destruct (rounds_to_small _ _ R1 ltac:(lra)) as [F1 V1].
  pose proof (value_nonneg _ F1) as V10.
  destruct (add_model _ pb F1 Fpb) as [R2 _].
  destruct (rounds_to_small _ _ R2 ltac:(lra)) as [F2 V2].
  pose proof (value_nonneg _ F2) as V20.
  assert (Fh : finite_nonneg F64ops.half) by exact I.
  destruct (add_model _ F64ops.half F2 Fh) as [R3 _].
  rewrite value_half in R3.
  destruct (rounds_to_small _ _ R3 ltac:(lra)) as [F3 V3].
  apply to_int_bound; [lia | exact F3 |].
  rewrite plus_IZR. unfold luma. fold pr pg pb. unfold Mx in *. lra.
Qed.

(** ** Bounds of the output *)

Lemma normalized_coefs_facts (args : demosaic_args) :
  valid_coefs args = true ->
  let cn := normalize_coefs (coefs args) in
  finite_nonneg (coef_red cn) /\ finite_nonneg (coef_green cn) /\
  finite_nonneg (coef_blue cn) /\
  (value (coef_red cn) + value (coef_green cn) + value (coef_blue cn)
   <= 1 + / 1099511627776)%R.
Proof.
  intros H cn. unfold valid_coefs in H. rewrite !andb_true_iff in H.
  destruct H as [[[Hr Hg] Hb] Hlt].
  apply coef_in_unit_class in Hr, Hg, Hb.
  assert (Hs : divisor_class
                 (F64ops.add (F64ops.add (F64ops.add (coef_red (coefs args))
                                                     (coef_green (coefs args)))
                                         (coef_blue (coefs args)))
                             F64ops.millionth)).
  { apply add_millionth_class.
    apply add_class; [apply add_class|]; apply finite_nonneg_not_negative; assumption. }
  destruct (div_class _ _ Hr Hs) as [Nr Br].
  destruct (div_class _ _ Hg Hs) as [Ng Bg].
  destruct (div_class _ _ Hb Hs) as [Nb Bb].
  exact (sum_below_one _ _ _ Nr Ng Nb Br Bg Bb Hlt).
Qed.

Lemma luma16_within (cn : demosaic_luma_coefs) (p : demosaic_pix_rgb) (M : Z) :
  finite_nonneg (coef_red cn) -> finite_nonneg (coef_green cn) ->
  finite_nonneg (coef_blue cn) ->
  (value (coef_red cn) + value (coef_green cn) + value (coef_blue cn)
   <= 1 + / 1099511627776)%R ->
  pixel_within M p -> M <= U16_MAX -> 0 <= luma16 cn p <= M.
Proof.
  intros Fr Fg Fb Hsum (Hr & Hg & Hb) HM. unfold U16_MAX in HM. unfold luma16.
  pose proof (luma_bound cn _ _ _ M Fr Fg Fb Hsum Hr Hg Hb ltac:(lia)) as H.
  rewrite u16_small; [exact H|]. unfold is_u16, U16_MAX. lia.
Qed.

Lemma luma8_within (cn : demosaic_luma_coefs) (p : demosaic_pix_rgb) (M : Z) :
  finite_nonneg (coef_red cn) -> finite_nonneg (coef_green cn) ->
  finite_nonneg (coef_blue cn) ->
  (value (coef_red cn) + value (coef_green cn) + value (coef_blue cn)
   <= 1 + / 1099511627776)%R ->
  pixel_within M p -> M <= U8_MAX -> 0 <= luma8 cn p <= M.
Proof.
  intros Fr Fg Fb Hsum (Hr & Hg & Hb) HM. unfold U8_MAX in HM. unfold luma8.
  pose proof (luma_bound cn _ _ _ M Fr Fg Fb Hsum Hr Hg Hb ltac:(lia)) as H.
  rewrite u8_small; [exact H|]. unfold is_u8, U8_MAX. lia.
Qed.

Section OutputBounds.

Variables (bayer : list Z) (args : demosaic_args).
Hypothesis args_ok : args_typed args.
Hypothesis samples_ok : buffer16 bayer.
Hypothesis within : samples_within_max bayer args.

Lemma max_val_range : 0 <= max_val args <= U16_MAX.
Proof. destruct args_ok as [_ _ Hm _]. exact Hm. Qed.

Lemma load_within (i : Z) : 0 <= load bayer i <= max_val args.
Proof.
  pose proof max_val_range as Hm. unfold load.
  destruct (0 <=? i); [|lia].
  destruct (bayer !! Z.to_nat i) as [x|] eqn:E; simpl; [|lia].
  unfold buffer16 in samples_ok. unfold samples_within_max in within.
  rewrite Forall_lookup in samples_ok, within.
  pose proof (samples_ok _ _ E) as [H0 _]. pose proof (within _ _ E). simpl in *. lia.
Qed.

Lemma get_pixel16_safe_within (row col : Z) :
  0 <= get_pixel16_safe bayer (n_rows args) (n_cols args) row col <= max_val args.
Proof. rewrite get_pixel16_safe_index. apply load_within. Qed.

Lemma get_pixel8_safe_within (row col : Z) :
  0 <= get_pixel8_safe bayer (n_rows args) (n_cols args) row col <= max_val args.
Proof. rewrite get_pixel8_safe_index. apply load_within. Qed.

Lemma limit_within (v : Z) :
  0 <= DM_LIMIT v 0 (i32 (max_val args)) <= max_val args.
Proof.
  pose proof max_val_range as Hm.
  rewrite (i32_small (max_val args)) by (apply is_u16_is_i32, Hm).
  apply DM_LIMIT_range. lia.
Qed.

Lemma limit16_within (v : Z) :
  0 <= u16 (DM_LIMIT v 0 (i32 (max_val args))) <= max_val args.
Proof.
  pose proof max_val_range as Hm. pose proof (limit_within v) as Hv.
  rewrite u16_small; [exact Hv|]. unfold is_u16. lia.
Qed.

Lemma limit8_within (v : Z) :
  max_val_is_8bit args = true ->
  0 <= u8 (DM_LIMIT v 0 (i32 (max_val args))) <= max_val args.
Proof.
  intros H8. apply Z.leb_le in H8. pose proof (limit_within v) as Hv.
  rewrite u8_small; [exact Hv|]. unfold is_u8. lia.
Qed.

Lemma limit8_16_within (v : Z) :
  max_val_is_8bit args = true ->
  0 <= u8 (u16 (DM_LIMIT v 0 (i32 (max_val args)))) <= max_val args.
Proof. intros H8. rewrite u8_u16. apply limit8_within, H8. Qed.

Lemma narrow_within (x : Z) :
  shift_to_8bit args = true -> 0 <= x <= max_val args ->
  0 <= u8 (x [>>] rshift args) <= max_val args [>>] rshift args.
Proof.
  intros Hs Hx. destruct (shift_to_8bit_facts args Hs) as [_ H255].
  pose proof (shr_nonneg x (rshift args) ltac:(lia)).
  pose proof (shr_mono x (max_val args) (rshift args) ltac:(lia)).
  rewrite u8_small; [lia|]. unfold is_u8. lia.
Qed.

Ltac open_assemblers :=
  unfold get_rgb16_at_red16, get_rgb16_at_green_rg16, get_rgb16_at_green_gb16,
    get_rgb16_at_blue16, get_rgb8_at_red8, get_rgb8_at_green_rg8,
    get_rgb8_at_green_gb8, get_rgb8_at_blue8, get_rgb8_at_red16,
    get_rgb8_at_green_rg16, get_rgb8_at_green_gb16, get_rgb8_at_blue16,
    pixel_within;
  cbn [red green blue];
  unfold get_green16, get_red_blue_from_row16, get_red_blue_from_column16,
    get_red_blue_from_opposite16, get_green8, get_red_blue_from_row8,
    get_red_blue_from_column8, get_red_blue_from_opposite8;
  cbv zeta.

Lemma assemblers16_within (row col : Z) :
  pixel_within (max_val args) (get_rgb16_at_red16 bayer args row col) /\
  pixel_within (max_val args) (get_rgb16_at_green_rg16 bayer args row col) /\
  pixel_within (max_val args) (get_rgb16_at_green_gb16 bayer args row col) /\
  pixel_within (max_val args) (get_rgb16_at_blue16 bayer args row col).
Proof.
  open_assemblers.
  repeat split; first [apply get_pixel16_safe_within | apply limit16_within].
Qed.

Lemma assemblers8_within (row col : Z) :
  max_val_is_8bit args = true ->
  pixel_within (max_val args) (get_rgb8_at_red8 bayer args row col) /\
  pixel_within (max_val args) (get_rgb8_at_green_rg8 bayer args row col) /\
  pixel_within (max_val args) (get_rgb8_at_green_gb8 bayer args row col) /\
  pixel_within (max_val args) (get_rgb8_at_blue8 bayer args row col).
Proof.
  intros H8. open_assemblers.
  repeat split;
    first [apply get_pixel8_safe_within | apply limit8_within, H8
          | apply limit8_16_within, H8].
Qed.

Lemma assemblers16to8_within (row col : Z) :
  shift_to_8bit args = true ->
  let bound := max_val args [>>] rshift args in
  pixel_within bound (get_rgb8_at_red16 bayer args row col) /\
  pixel_within bound (get_rgb8_at_green_rg16 bayer args row col) /\
  pixel_within bound (get_rgb8_at_green_gb16 bayer args row col) /\
  pixel_within bound (get_rgb8_at_blue16 bayer args row col).
Proof.
  intros Hs bound. subst bound. open_assemblers.
  repeat split; apply (narrow_within _ Hs);
    first [apply get_pixel16_safe_within | apply limit16_within].
Qed.

Lemma by_phase_all {P : Type} (Q : P -> Prop) (f1 f2 f3 f4 : Z -> Z -> P) (row col : Z) :
  Q (f1 row col) /\ Q (f2 row col) /\ Q (f3 row col) /\ Q (f4 row col) ->
  Q (by_phase f1 f2 f3 f4 row col).
Proof.
  intros (H1 & H2 & H3 & H4). unfold by_phase, phase.
  destruct (row [%] 2 =? 0), (Z.even col); assumption.
Qed.

Lemma safe_rgb16_within (row col : Z) :
  pixel_within (max_val args) (safe_rgb16 bayer args row col).
Proof.
  unfold safe_rgb16. apply (by_phase_all (pixel_within (max_val args))).
  apply assemblers16_within.
Qed.

Lemma safe_rgb8_within (row col : Z) :
  max_val_is_8bit args = true ->
  pixel_within (max_val args) (safe_rgb8 bayer args row col).
Proof.
  intros H8. unfold safe_rgb8. apply (by_phase_all (pixel_within (max_val args))).
  apply assemblers8_within, H8.
Qed.

Lemma safe_rgb16to8_within (row col : Z) :
  shift_to_8bit args = true ->
  pixel_within (max_val args [>>] rshift args) (safe_rgb16to8 bayer args row col).
Proof.
  intros Hs. unfold safe_rgb16to8.
  apply (by_phase_all (pixel_within (max_val args [>>] rshift args))).
  apply (assemblers16to8_within row col Hs).
Qed.

Lemma safe_mono16_within (row col : Z) :
  valid_coefs args = true -> 0 <= safe_mono16 bayer args row col <= max_val args.
Proof.
  intros Hc. destruct (normalized_coefs_facts args Hc) as (Fr & Fg & Fb & Hsum).
  pose proof max_val_range as [_ Hm].
  destruct (assemblers16_within row col) as (H1 & H2 & H3 & H4).
  unfold safe_mono16. cbv zeta.
  apply (by_phase_all (fun v => 0 <= v <= max_val args)).
  refine (conj _ (conj _ (conj _ _))); apply luma16_within; assumption.
Qed.

Lemma safe_mono8_within (row col : Z) :
  max_val_is_8bit args = true -> valid_coefs args = true ->
  0 <= safe_mono8 bayer args row col <= max_val args.
Proof.
  intros H8 Hc. destruct (normalized_coefs_facts args Hc) as (Fr & Fg & Fb & Hsum).
  assert (Hm : max_val args <= U8_MAX) by (apply Z.leb_le, H8).
  destruct (assemblers8_within row col H8) as (H1 & H2 & H3 & H4).
  unfold safe_mono8. cbv zeta.
  apply (by_phase_all (fun v => 0 <= v <= max_val args)).
  refine (conj _ (conj _ (conj _ _))); apply luma8_within; assumption.
Qed.

Lemma safe_mono16to8_within (row col : Z) :
  shift_to_8bit args = true -> valid_coefs args = true ->
  0 <= safe_mono16to8 bayer args row col <= max_val args [>>] rshift args.
Proof.
  intros Hs Hc. destruct (normalized_coefs_facts args Hc) as (Fr & Fg & Fb & Hsum).
  destruct (shift_to_8bit_facts args Hs) as [_ Hm].
  destruct (assemblers16to8_within row col Hs) as (H1 & H2 & H3 & H4).
  unfold safe_mono16to8. cbv zeta.
  apply (by_phase_all (fun v => 0 <= v <= max_val args [>>] rshift args)).
  refine (conj _ (conj _ (conj _ _))); apply luma8_within; assumption.
Qed.

End OutputBounds.

(** The samples of the mono variants are the luminance of the pixels of
    the rgb variants. *)
Lemma safe_mono16_luma (bayer : list Z) (args : demosaic_args) (row col : Z) :
  safe_mono16 bayer args row col
  = luma16 (normalize_coefs (coefs args)) (safe_rgb16 bayer args row col).
Proof.
  unfold safe_mono16, safe_rgb16, by_phase, phase.
  destruct (row [%] 2 =? 0), (Z.even col); reflexivity.
Qed.

Lemma safe_mono8_luma (bayer : list Z) (args : demosaic_args) (row col : Z) :
  safe_mono8 bayer args row col
  = luma8 (normalize_coefs (coefs args)) (safe_rgb8 bayer args row col).
Proof.
  unfold safe_mono8, safe_rgb8, by_phase, phase.
  destruct (row [%] 2 =? 0), (Z.even col); reflexivity.
Qed.

Lemma safe_mono16to8_luma (bayer : list Z) (args : demosaic_args) (row col : Z) :
  safe_mono16to8 bayer args row col
  = luma8 (normalize_coefs (coefs args)) (safe_rgb16to8 bayer args row col).
Proof.
  unfold safe_mono16to8, safe_rgb16to8, by_phase, phase.
  destruct (row [%] 2 =? 0), (Z.even col); reflexivity.
Qed.

(** ** Shift after clamp *)

(** The channel of the pixel's own colour, when the sample is within
    [max_val]: the clamp leaves it as it is. *)
Lemma native_narrow (bayer : list Z) (args : demosaic_args) (row col : Z) :
  args_typed args -> shift_to_8bit args = true ->
  buffer16 bayer -> samples_within_max bayer args ->
  let s := get_pixel16_safe bayer (n_rows args) (n_cols args) row col in
  u8 (s [>>] rshift args) = clamp_spec s (max_val args) [>>] rshift args.
Proof.
  intros T Hs Hb Hw s.
  pose proof (get_pixel16_safe_within bayer args T Hb Hw row col) as Hp. fold s in Hp.
  rewrite <- DM_LIMIT_clamp_spec, DM_LIMIT_id by exact Hp.
  destruct (shift_to_8bit_facts args Hs) as [_ H255].
  pose proof (shr_nonneg s (rshift args) ltac:(lia)).
  pose proof (shr_mono s (max_val args) (rshift args) ltac:(lia)).
  apply u8_small. unfold is_u8. lia.
Qed.

(** The pixel the safe helpers of the narrowing variants assemble is the
    pixel of the specification. *)
Lemma safe_rgb16to8_narrowed (bayer : list Z) (args : demosaic_args) (row col : Z) :
  args_typed args -> shift_to_8bit args = true ->
  safe_rgb16to8 bayer args row col = narrowed_pixel bayer args row col.
Proof.
  intros T Hs.
  pose proof (i32_small (max_val args) (is_u16_is_i32 _ (typed_max_val _ T))) as Em.
  unfold safe_rgb16to8, narrowed_pixel, by_phase, phase. cbv zeta.
  destruct (row [%] 2 =? 0), (Z.even col);
    unfold get_rgb8_at_red16, get_rgb8_at_green_rg16, get_rgb8_at_green_gb16,
      get_rgb8_at_blue16, get_green16, get_red_blue_from_row16,
      get_red_blue_from_column16, get_red_blue_from_opposite16, div32;
    cbv zeta; rewrite Em, !(safe_narrow args T Hs), !DM_LIMIT_clamp_spec; reflexivity.
Qed.

(** C5, as amended.  In the narrowing (16-to-8) variants, for
    [0 <= rshift < 32], every interpolated channel of every pixel the row
    functions write (the optimized one with its ternary, the unoptimized one
    with the safe helpers) equals the quotient of its kernel clamped to
    [0, max_val] and then shifted right by [rshift]; it therefore never
    exceeds [max_val >> rshift]; and the ternary of the inner loops,
    [(v >= max_val) ? max_val >> rshift : (v <= 0) ? 0 : v >> rshift], gives
    the same value.  The channel of the pixel's own colour is not clamped:
    it is the sample shifted right by [rshift] and stored in 8 bits, which
    is the sample clamped and then shifted, and at most
    [max_val >> rshift], when the buffer holds the image and none of its
    samples exceeds [max_val].  The sample mono16to8 writes is the
    luminance of that pixel, on a buffer that holds the image and whose
    shifted samples fit 8 bits. *)
Theorem narrowing_shifts_after_clamp
    (bayer : list Z) (args : demosaic_args) (row col : Z) :
  args_typed args -> rshift args < 32 ->
  0 <= row < n_rows args -> 0 <= col < n_cols args ->
  let clamp_shift := fun v => clamp_spec v (max_val args) [>>] rshift args in
  (valid_args rgb16to8 args = true ->
   forall out, n_cols args <= Z.of_nat (length out) ->
     exists out',
       demosaic_malvar_row_rgb16to8 (Some bayer) (Some args) row (Some out)
       = (Done tt, Some out') /\
       demosaic_malvar_row_rgb16to8_unoptimized (Some bayer) (Some args) row (Some out)
       = (Done tt, Some out') /\
       out' !! Z.to_nat col = Some (narrowed_pixel bayer args row col) /\
       (buffer16 bayer -> image_in_buffer bayer args -> samples_within_max bayer args ->
        own_channel row col (narrowed_pixel bayer args row col)
        = clamp_shift (GET_PIX bayer (n_cols args) row col) /\
        pixel_within (max_val args [>>] rshift args)
          (narrowed_pixel bayer args row col))) /\
  (valid_args mono16to8 args = true ->
   buffer16 bayer -> image_in_buffer bayer args -> samples_shift_to_8bit bayer args ->
   forall out, n_cols args <= Z.of_nat (length out) ->
     exists out',
       demosaic_malvar_row_mono16to8 (Some bayer) (Some args) row (Some out)
       = (Done tt, Some out') /\
       demosaic_malvar_row_mono16to8_unoptimized (Some bayer) (Some args) row (Some out)
       = (Done tt, Some out') /\
       out' !! Z.to_nat col
       = Some (luma8 (normalize_coefs (coefs args))
                 (narrowed_pixel bayer args row col))) /\
  (shift_to_8bit args = true ->
   forall v : Z,
     0 <= clamp_shift v <= max_val args [>>] rshift args /\
     limit_rshift v (max_val args) (u8 (max_val args [>>] rshift args)) (rshift args)
     = clamp_shift v /\
     interp_rgb16to8 args v = clamp_shift v /\
     interp_mono16to8 args v = clamp_shift v).
Proof.
  intros T _ Hrow Hcol clamp_shift. subst clamp_shift. cbv beta.
  refine (conj _ (conj _ _)).
  - intros V out Hlen.
    assert (Hs : shift_to_8bit args = true)
      by (unfold valid_args in V; apply andb_true_iff in V; tauto).
    assert (Hl : col < Z.of_nat (length out)) by lia.
    destruct (rgb16to8_rows_agree bayer args row T Hrow out V) as [-> ->].
    eexists. refine (conj eq_refl (conj eq_refl (conj _ _))).
    + rewrite fill_range_at by assumption. f_equal.
      apply safe_rgb16to8_narrowed; assumption.
    + intros Hb _ Hw. rewrite <- safe_rgb16to8_narrowed by assumption. split.
      * rewrite own_channel_safe_rgb16to8.
        pose proof (native_narrow bayer args row col T Hs Hb Hw) as Hn.
        cbv zeta in Hn. rewrite Hn.
        rewrite get_pixel16_safe_inside by assumption. reflexivity.
      * apply safe_rgb16to8_within; assumption.
  - intros V Hb _ Hfit out Hlen.
    assert (Hs : shift_to_8bit args = true)
      by (unfold valid_args in V; rewrite !andb_true_iff in V; tauto).
    assert (Hl : col < Z.of_nat (length out)) by lia.
    destruct (mono16to8_rows_agree bayer args row T Hrow out V Hb Hfit) as [-> ->].
    eexists. refine (conj eq_refl (conj eq_refl _)).
    rewrite fill_range_at by assumption. f_equal.
    rewrite safe_mono16to8_luma, safe_rgb16to8_narrowed by assumption. reflexivity.
  - intros Hs v. rewrite <- DM_LIMIT_clamp_spec.
    split; [apply (clamp_shift_range args T v)|].
    split; [apply (limit_rshift_clamp_shift args T Hs)|].
    split; [apply (interp_rgb16to8_clamp_shift args T Hs)|].
    apply (limit_rshift_clamp_shift args T Hs).
Qed.

Lemma narrowing_shifts_after_clamp_witness :
  exists out',
    demosaic_malvar_row_rgb16to8 (Some sample_bayer) (Some sample_args) 2
      (Some (replicate 6 (mk_pix 0 0 0)))
    = (Done tt, Some out') /\
    demosaic_malvar_row_rgb16to8_unoptimized (Some sample_bayer) (Some sample_args) 2
      (Some (replicate 6 (mk_pix 0 0 0)))
    = (Done tt, Some out') /\
    out' !! Z.to_nat 3 = Some (narrowed_pixel sample_bayer sample_args 2 3) /\
    pixel_within 255 (narrowed_pixel sample_bayer sample_args 2 3).
Proof.
  destruct (narrowing_shifts_after_clamp sample_bayer sample_args 2 3) as (H & _).
  - exact sample_args_typed.
  - simpl. lia.
  - simpl. lia.
  - simpl. lia.
  - destruct (H ltac:(vm_compute; reflexivity) (replicate 6 (mk_pix 0 0 0))
                ltac:(simpl; lia)) as (out' & H1 & H2 & H3 & H4).
    exists out'. refine (conj H1 (conj H2 (conj H3 _))).
    apply H4.
    + exact sample_bayer_buffer16.
    + exact sample_image_in_buffer.
    + exact sample_bayer_within_max.
Defined.

(** C5 as stated fails for the channel of the pixel's own colour, which no
    kernel reconstructs and the code does not clamp: with [max_val = 1000],
    [rshift = 2] and samples of 1020 the red channel of the red pixel at
    row 2, column 2 is [1020 >> 2 = 255], not the clamped and shifted
    [1000 >> 2 = 250], and exceeds [max_val >> rshift = 250]. *)
Lemma narrowing_counterexample :
  args_typed bright_args /\
  valid_args rgb16to8 bright_args = true /\
  rshift bright_args < 32 /\
  buffer16 bright_bayer /\
  image_in_buffer bright_bayer bright_args /\
  max_val bright_args [>>] rshift bright_args = 250 /\
  demosaic_malvar_row_rgb16to8 (Some bright_bayer) (Some bright_args) 2
    (Some (replicate 6 (mk_pix 0 0 0)))
  = (Done tt,
     Some [mk_pix 255 250 250; mk_pix 250 255 250; mk_pix 255 250 250;
           mk_pix 250 255 250; mk_pix 255 250 250; mk_pix 250 255 250]) /\
  ~ (exists out' p,
        demosaic_malvar_row_rgb16to8 (Some bright_bayer) (Some bright_args) 2
          (Some (replicate 6 (mk_pix 0 0 0)))
        = (Done tt, Some out') /\
        out' !! Z.to_nat 2 = Some p /\
        (red p = clamp_spec (GET_PIX bright_bayer 6 2 2) (max_val bright_args)
                 [>>] rshift bright_args \/
         red p <= max_val bright_args [>>] rshift bright_args)).
Proof.
  refine (conj _ (conj _ (conj _ (conj _ (conj _ (conj _ (conj _ _))))))).
  - split; unfold is_i32, is_u16, I32_MIN, I32_MAX, U16_MAX; simpl; lia.
  - vm_compute. reflexivity.
  - simpl. lia.
  - unfold buffer16, bright_bayer. apply Forall_replicate. unfold is_u16, U16_MAX. lia.
  - split; vm_compute; discriminate.
  - vm_compute. reflexivity.
  - vm_compute. reflexivity.
  - intros (out' & p & Hrun & Hp & Hred).
    vm_compute in Hrun. injection Hrun as <-.
    vm_compute in Hp. injection Hp as <-.
    destruct Hred as [Heq | Hle].
    + vm_compute in Heq. discriminate Heq.
    + vm_compute in Hle. apply Hle. reflexivity.
Qed.

(** The element at [col] of the row both functions of a variant leave. *)
Ltac element_of_both_rows rows_agree :=
  match goal with
  | T : args_typed ?args, Hrow : 0 <= ?row < n_rows ?args,
    V : valid_args _ ?args = true
    |- context [_ (Some ?bayer) (Some ?args) ?row (Some ?out)] =>
      destruct (rows_agree bayer args row T Hrow out V) as [-> ->];
      eexists _, _; refine (conj eq_refl (conj eq_refl (conj _ _)));
      [apply fill_range_at; assumption|]
  end.

(** C6.  For valid arguments and an input buffer of unsigned samples that
    holds the image and none of whose samples exceeds [max_val], every
    element the six row functions (and their unoptimized counterparts)
    write into the output row is bounded (for the narrowing variants, when
    [rshift < 32], where C defines the shift):
    each channel of a pixel of rgb16 and rgb8, and the luminance of mono16
    and mono8, lies in [0, max_val]; each channel of a pixel of rgb16to8 and
    the luminance of mono16to8 lies in [0, max_val >> rshift].  The
    luminance is the IEEE-754 binary64 value of
    [cr * r + cg * g + cb * b + 0.5] with the normalized coefficients,
    truncated to an integer. *)
Theorem outputs_within_bounds
    (bayer : list Z) (args : demosaic_args) (row col : Z) :
  args_typed args -> buffer16 bayer -> image_in_buffer bayer args ->
  samples_within_max bayer args ->
  0 <= row < n_rows args -> 0 <= col < n_cols args ->
  (valid_args rgb16 args = true ->
   forall out, n_cols args <= Z.of_nat (length out) ->
     exists out' p,
       demosaic_malvar_row_rgb16 (Some bayer) (Some args) row (Some out)
       = (Done tt, Some out') /\
       demosaic_malvar_row_rgb16_unoptimized (Some bayer) (Some args) row (Some out)
       = (Done tt, Some out') /\
       out' !! Z.to_nat col = Some p /\ pixel_within (max_val args) p) /\
  (valid_args rgb8 args = true ->
   forall out, n_cols args <= Z.of_nat (length out) ->
     exists out' p,
       demosaic_malvar_row_rgb8 (Some bayer) (Some args) row (Some out)
       = (Done tt, Some out') /\
       demosaic_malvar_row_rgb8_unoptimized (Some bayer) (Some args) row (Some out)
       = (Done tt, Some out') /\
       out' !! Z.to_nat col = Some p /\ pixel_within (max_val args) p) /\
  (rshift args < 32 -> valid_args rgb16to8 args = true ->
   forall out, n_cols args <= Z.of_nat (length out) ->
     exists out' p,
       demosaic_malvar_row_rgb16to8 (Some bayer) (Some args) row (Some out)
       = (Done tt, Some out') /\
       demosaic_malvar_row_rgb16to8_unoptimized (Some bayer) (Some args) row (Some out)
       = (Done tt, Some out') /\
       out' !! Z.to_nat col = Some p /\
       pixel_within (max_val args [>>] rshift args) p) /\
  (valid_args mono16 args = true ->
   forall out, n_cols args <= Z.of_nat (length out) ->
     exists out' v,
       demosaic_malvar_row_mono16 (Some bayer) (Some args) row (Some out)
       = (Done tt, Some out') /\
       demosaic_malvar_row_mono16_unoptimized (Some bayer) (Some args) row (Some out)
       = (Done tt, Some out') /\
       out' !! Z.to_nat col = Some v /\ 0 <= v <= max_val args) /\
  (valid_args mono8 args = true ->
   forall out, n_cols args <= Z.of_nat (length out) ->
     exists out' v,
       demosaic_malvar_row_mono8 (Some bayer) (Some args) row (Some out)
       = (Done tt, Some out') /\
       demosaic_malvar_row_mono8_unoptimized (Some bayer) (Some args) row (Some out)
       = (Done tt, Some out') /\
       out' !! Z.to_nat col = Some v /\ 0 <= v <= max_val args) /\
  (rshift args < 32 -> valid_args mono16to8 args = true ->
   forall out, n_cols args <= Z.of_nat (length out) ->
     exists out' v,
       demosaic_malvar_row_mono16to8 (Some bayer) (Some args) row (Some out)
       = (Done tt, Some out') /\
       demosaic_malvar_row_mono16to8_unoptimized (Some bayer) (Some args) row (Some out)
       = (Done tt, Some out') /\
       out' !! Z.to_nat col = Some v /\ 0 <= v <= max_val args [>>] rshift args).
Proof.
  intros T Hbuf _ Hmax Hrow Hcol.
  refine (conj _ (conj _ (conj (fun _ => _) (conj _ (conj _ (fun _ => _))))));
    intros V out Hlen;
    assert (Hl : col < Z.of_nat (length out)) by lia;
    pose proof V as V'; unfold valid_args in V'; rewrite ?andb_true_iff in V'.
  - element_of_both_rows rgb16_rows_agree. apply safe_rgb16_within; assumption.
  - element_of_both_rows rgb8_rows_agree. apply safe_rgb8_within; tauto.
  - element_of_both_rows rgb16to8_rows_agree. apply safe_rgb16to8_within; tauto.
  - element_of_both_rows mono16_rows_agree. apply safe_mono16_within; tauto.
  - element_of_both_rows mono8_rows_agree. apply safe_mono8_within; tauto.
  - assert (Hfit : samples_shift_to_8bit bayer args)
      by (apply samples_within_max_shift; tauto).
    destruct (mono16to8_rows_agree bayer args row T Hrow out V Hbuf Hfit) as [-> ->].
    eexists _, _. refine (conj eq_refl (conj eq_refl (conj _ _))).
    + apply fill_range_at; assumption.
    + apply safe_mono16to8_within; tauto.
Qed.

Lemma outputs_within_bounds_witness :
  exists out' v,
    demosaic_malvar_row_mono16 (Some sample_bayer) (Some sample_args) 2
      (Some (replicate 6 0))
    = (Done tt, Some out') /\
    demosaic_malvar_row_mono16_unoptimized (Some sample_bayer) (Some sample_args) 2
      (Some (replicate 6 0))
    = (Done tt, Some out') /\
    out' !! Z.to_nat 3 = Some v /\ 0 <= v <= 4095.
Proof.
  destruct (outputs_within_bounds sample_bayer sample_args 2 3)
    as (_ & _ & _ & H & _).
  - exact sample_args_typed.
  - exact sample_bayer_buffer16.
  - exact sample_image_in_buffer.
  - exact sample_bayer_within_max.
  - simpl. lia.
  - simpl. lia.
  - apply (H ltac:(vm_compute; reflexivity) (replicate 6 0)). simpl. lia.
Defined.

(** * Whole images *)

Section ImageLoop.

Context {P : Type}.
Implicit Types (out : list P) (pixel : Z -> Z -> P).

Lemma lookup_fill_rows pixel n_cols lo hi out (i : nat) :
  fill_rows pixel n_cols lo hi out !! i
  = (fun x => if (lo * n_cols <=? Z.of_nat i) && (Z.of_nat i <? hi * n_cols)
              then pixel (Z.of_nat i / n_cols) (Z.of_nat i mod n_cols) else x)
    <$> out !! i.
Proof. unfold fill_rows. apply list_lookup_imap. Qed.

Lemma length_fill_rows pixel n_cols lo hi out :
  length (fill_rows pixel n_cols lo hi out) = length out.
Proof. unfold fill_rows. apply length_imap. Qed.

Lemma fill_rows_empty pixel n_cols lo out : fill_rows pixel n_cols lo lo out = out.
Proof.
  apply list_eq. intros i. rewrite lookup_fill_rows.
  destruct (out !! i); simpl; [|done].
  destruct (Z.leb_spec (lo * n_cols) (Z.of_nat i)),
    (Z.ltb_spec (Z.of_nat i) (lo * n_cols)); simpl; try done; lia.
Qed.

Lemma row_of_index (n_cols row i : Z) :
  0 < n_cols -> row * n_cols <= i < (row + 1) * n_cols ->
  i / n_cols = row /\ i mod n_cols = i - row * n_cols.
Proof.
  intros Hn Hi.
  assert (Hq : row = i / n_cols)
    by (apply (Z.div_unique i n_cols row (i - row * n_cols)); lia).
  split; [lia|].
  symmetry. apply (Z.mod_unique i n_cols row (i - row * n_cols)); lia.
Qed.

(** One row written into the buffer at its offset. *)
Lemma fill_one_row pixel (n_cols row : Z) out :
  0 <= row -> 0 < n_cols ->
  take (Z.to_nat (row * n_cols)) out
  ++ fill_range (pixel row) 0 n_cols (drop (Z.to_nat (row * n_cols)) out)
  = fill_rows pixel n_cols row (row + 1) out.
Proof.
  intros Hrow Hn. assert (Hoff : 0 <= row * n_cols) by nia.
  set (k := Z.to_nat (row * n_cols)).
  apply list_eq. intros i. rewrite lookup_fill_rows.
  destruct (out !! i) as [x|] eqn:Ei; simpl.
  - pose proof (lookup_lt_Some _ _ _ Ei) as Hlen.
    destruct (decide (i < k)%nat) as [Hlt|Hge].
    + rewrite lookup_app_l by (rewrite length_take; lia).
      rewrite lookup_take_lt, Ei by assumption.
      destruct (Z.leb_spec (row * n_cols) (Z.of_nat i)); simpl; [lia|done].
    + rewrite lookup_app_r by (rewrite length_take; lia).
      rewrite length_take, Nat.min_l by lia.
      rewrite lookup_fill_range, lookup_drop.
      replace (k + (i - k))%nat with i by lia. rewrite Ei. simpl. f_equal.
      replace (Z.of_nat (i - k)) with (Z.of_nat i - row * n_cols) by lia.
      destruct (Z.leb_spec (row * n_cols) (Z.of_nat i)); [|lia].
      destruct (Z.leb_spec 0 (Z.of_nat i - row * n_cols)); [|lia].
      destruct (Z.ltb_spec (Z.of_nat i - row * n_cols) n_cols),
        (Z.ltb_spec (Z.of_nat i) ((row + 1) * n_cols)); simpl; try lia; [|done].
      destruct (row_of_index n_cols row (Z.of_nat i) Hn ltac:(lia)) as [-> ->].
      reflexivity.
  - apply lookup_ge_None_2. apply lookup_ge_None_1 in Ei.
    rewrite length_app, length_take, length_fill_range, length_drop. lia.
Qed.

Lemma fill_rows_next pixel (n_cols lo hi : Z) out :
  0 <= lo < hi -> 0 < n_cols ->
  fill_rows pixel n_cols (lo + 1) hi (fill_rows pixel n_cols lo (lo + 1) out)
  = fill_rows pixel n_cols lo hi out.
Proof.
  intros Hlo Hn. apply list_eq. intros i. rewrite !lookup_fill_rows.
  destruct (out !! i) as [x|]; simpl; [|done]. f_equal.
  assert ((lo + 1) * n_cols <= hi * n_cols) by nia.
  destruct (Z.leb_spec ((lo + 1) * n_cols) (Z.of_nat i)),
    (Z.ltb_spec (Z.of_nat i) (hi * n_cols)),
    (Z.leb_spec (lo * n_cols) (Z.of_nat i)),
    (Z.ltb_spec (Z.of_nat i) ((lo + 1) * n_cols)); simpl; try done; lia.
Qed.

(** What a filled buffer holds. *)
Lemma fill_rows_image pixel (n_rows n_cols : Z) out :
  0 <= n_rows -> 0 < n_cols -> n_rows * n_cols <= Z.of_nat (length out) ->
  image_written pixel n_rows n_cols out (fill_rows pixel n_cols 0 n_rows out).
Proof.
  intros Hr Hn Hlen. unfold image_written.
  split; [apply length_fill_rows|]. split.
  - intros row col Hrow Hcol.
    assert (Hi : row * n_cols <= row * n_cols + col < (row + 1) * n_cols) by lia.
    assert ((row + 1) * n_cols <= n_rows * n_cols) by nia.
    assert (0 <= row * n_cols) by nia.
    rewrite lookup_fill_rows.
    destruct (lookup_lt_is_Some_2 out (Z.to_nat (row * n_cols + col)) ltac:(lia))
      as [x ->].
    simpl. rewrite Z2Nat.id by lia.
    destruct (Z.leb_spec (0 * n_cols) (row * n_cols + col)); [|lia].
    destruct (Z.ltb_spec (row * n_cols + col) (n_rows * n_cols)); [|lia].
    simpl. destruct (row_of_index n_cols row _ Hn Hi) as [-> ->].
    do 2 f_equal. lia.
  - intros i Hi. rewrite lookup_fill_rows.
    destruct (out !! i) as [x|]; simpl; [|done].
    destruct (Z.ltb_spec (Z.of_nat i) (n_rows * n_cols)); [lia|].
    rewrite andb_false_r. reflexivity.
Qed.

(** The loop over the rows returns, with the fuel the whole-image functions
    give it, and has written every row from [lo] on, when the row function
    fills its row. *)
Lemma while_rows (f : Z -> M (P := P) unit) pixel (n_rows n_cols : Z) (fuel : nat) :
  (forall row w, 0 <= row < n_rows ->
     f row (Some w) = (Done tt, Some (fill_range (pixel row) 0 n_cols w))) ->
  0 < n_cols -> n_rows * n_cols <= I32_MAX ->
  forall lo out,
    0 <= lo <= n_rows -> (Z.to_nat (n_rows - lo) <= fuel)%nat ->
    while fuel (fun row => row <? n_rows)
      (fun row => with_row_at (row [*] n_cols) (f row) ;; ret (row [+] 1))
      lo (Some out)
    = (Done n_rows, Some (fill_rows pixel n_cols lo n_rows out)).
Proof.
  intros Hf Hn Hmax. unfold I32_MAX in Hmax.
  induction fuel as [|fuel IH]; intros lo out Hlo Hfuel.
  - assert (lo = n_rows) as -> by lia.
    rewrite while_done by (apply Z.ltb_irrefl). rewrite fill_rows_empty. reflexivity.
  - destruct (Z.ltb_spec lo n_rows) as [Hlt|Hge].
    + assert (Hoff : 0 <= lo * n_cols <= n_rows * n_cols) by nia.
      assert (Hn1 : n_rows <= n_rows * n_cols) by nia.
      cbn [while]. destruct (Z.ltb_spec lo n_rows); [|lia].
      unfold bind at 1. unfold bind at 1. unfold with_row_at, row_pointer.
      replace (lo [*] n_cols) with (lo * n_cols) by (wrap_off; reflexivity).
      replace (lo [+] 1) with (lo + 1) by (wrap_off; reflexivity).
      cbn [fmap option_fmap option_map].
      destruct (Z.leb_spec 0 (lo * n_cols)); [|lia].
      rewrite Hf by lia. unfold ret. rewrite fill_one_row by lia.
      rewrite IH by lia. rewrite fill_rows_next by lia. reflexivity.
    + assert (lo = n_rows) as -> by lia.
      rewrite while_done by (apply Z.ltb_irrefl). rewrite fill_rows_empty. reflexivity.
Qed.

End ImageLoop.

(** ** What the whole-image functions leave in the output buffer *)

Section ImageRun.

Variables (bayer : list Z) (args : demosaic_args).
Hypothesis args_ok : args_typed args.
Hypothesis fits : n_rows args * n_cols args <= I32_MAX.

Lemma image_loop_run {P : Type}
    (row_function : option (list Z) -> option demosaic_args -> Z -> M (P := P) unit)
    (pixel : Z -> Z -> P) (out : list P) :
  proper_dimensions args = true ->
  (forall row w, 0 <= row < n_rows args ->
     row_function (Some bayer) (Some args) row (Some w)
     = (Done tt, Some (fill_range (pixel row) 0 (n_cols args) w))) ->
  (while (Z.to_nat (n_rows args)) (fun row => row <? n_rows args)
     (fun row =>
        with_row_at (row [*] n_cols args) (row_function (Some bayer) (Some args) row) ;;
        ret (row [+] 1)) 0 ;;
   ret tt) (Some out)
  = (Done tt, Some (fill_rows pixel (n_cols args) 0 (n_rows args) out)).
Proof.
  intros Hd Hf. destruct (proper_dimensions_facts args Hd) as (Hc & Hr & _).
  unfold bind at 1.
  rewrite (while_rows (fun row => row_function (Some bayer) (Some args) row) pixel
             (n_rows args) (n_cols args)) by first [assumption | lia].
  reflexivity.
Qed.

Lemma rgb16_image_run out :
  valid_args rgb16 args = true ->
  demosaic_malvar_rgb16 (Some bayer) (Some args) (Some out)
  = (Done tt, Some (fill_rows (safe_rgb16 bayer args) (n_cols args) 0 (n_rows args) out)).
Proof.
  intros V. pose proof V as V'. split_valid V'.
  unfold demosaic_malvar_rgb16. pass_asserts.
  apply image_loop_run; [assumption|].
  intros row w Hrow. apply (rgb16_rows_agree bayer args row args_ok Hrow w V).
Qed.

Lemma rgb8_image_run out :
  valid_args rgb8 args = true ->
  demosaic_malvar_rgb8 (Some bayer) (Some args) (Some out)
  = (Done tt, Some (fill_rows (safe_rgb8 bayer args) (n_cols args) 0 (n_rows args) out)).
Proof.
  intros V. pose proof V as V'. split_valid V'.
  unfold demosaic_malvar_rgb8. pass_asserts.
  apply image_loop_run; [assumption|].
  intros row w Hrow. apply (rgb8_rows_agree bayer args row args_ok Hrow w V).
Qed.

Lemma rgb16to8_image_run out :
  valid_args rgb16to8 args = true ->
  demosaic_malvar_rgb16to8 (Some bayer) (Some args) (Some out)
  = (Done tt,
     Some (fill_rows (safe_rgb16to8 bayer args) (n_cols args) 0 (n_rows args) out)).
Proof.
  intros V. pose proof V as V'. split_valid V'.
  unfold demosaic_malvar_rgb16to8. pass_asserts.
  apply image_loop_run; [assumption|].
  intros row w Hrow. apply (rgb16to8_rows_agree bayer args row args_ok Hrow w V).
Qed.

Lemma mono16_image_run out :
  valid_args mono16 args = true ->
  demosaic_malvar_mono16 (Some bayer) (Some args) (Some out)
  = (Done tt, Some (fill_rows (safe_mono16 bayer args) (n_cols args) 0 (n_rows args) out)).
Proof.
  intros V. pose proof V as V'. split_valid V'.
  unfold demosaic_malvar_mono16. pass_asserts.
  apply image_loop_run; [assumption|].
  intros row w Hrow. apply (mono16_rows_agree bayer args row args_ok Hrow w V).
Qed.

Lemma mono8_image_run out :
  valid_args mono8 args = true ->
  demosaic_malvar_mono8 (Some bayer) (Some args) (Some out)
  = (Done tt, Some (fill_rows (safe_mono8 bayer args) (n_cols args) 0 (n_rows args) out)).
Proof.
  intros V. pose proof V as V'. split_valid V'.
  unfold demosaic_malvar_mono8. pass_asserts.
  apply image_loop_run; [assumption|].
  intros row w Hrow. apply (mono8_rows_agree bayer args row args_ok Hrow w V).
Qed.

Lemma mono16to8_image_run out :
  valid_args mono16to8 args = true ->
  buffer16 bayer -> samples_shift_to_8bit bayer args ->
  demosaic_malvar_mono16to8 (Some bayer) (Some args) (Some out)
  = (Done tt,
     Some (fill_rows (safe_mono16to8 bayer args) (n_cols args) 0 (n_rows args) out)).
Proof.
  intros V Hb Hfit. pose proof V as V'. split_valid V'.
  unfold demosaic_malvar_mono16to8. pass_asserts.
  apply image_loop_run; [assumption|].
  intros row w Hrow.
  apply (mono16to8_rows_agree bayer args row args_ok Hrow w V Hb Hfit).
Qed.

(** The loop of the test over an unoptimized row function. *)
Lemma unoptimized_rows_run {P : Type}
    (row_unoptimized : option (list Z) -> option demosaic_args -> Z -> M (P := P) unit)
    (pixel : Z -> Z -> P) (out : list P) :
  proper_dimensions args = true ->
  (forall row w, 0 <= row < n_rows args ->
     row_unoptimized (Some bayer) (Some args) row (Some w)
     = (Done tt, Some (fill_range (pixel row) 0 (n_cols args) w))) ->
  unoptimized_rows row_unoptimized bayer args (Some out)
  = (Done tt, Some (fill_rows pixel (n_cols args) 0 (n_rows args) out)).
Proof. intros Hd Hf. unfold unoptimized_rows. apply image_loop_run; assumption. Qed.

End ImageRun.

(** X1. [demosaic_malvar_rgb16], [demosaic_malvar_rgb8] and
    [demosaic_malvar_rgb16to8] (the last for [rshift < 32], where C defines
    the shift), given valid arguments, an image of at most [I32_MAX] pixels
    and an output buffer of at least [n_rows * n_cols] pixels, return; the output keeps its length, its element
    [row * n_cols + col] is the pixel the safe helpers give for
    ([row], [col]), for every row and column of the image, and the elements
    from [n_rows * n_cols] on are as before. *)
Theorem rgb_images_written (bayer : list Z) (args : demosaic_args)
    (out : list demosaic_pix_rgb) :
  args_typed args -> n_rows args * n_cols args <= I32_MAX ->
  n_rows args * n_cols args <= Z.of_nat (length out) ->
  (valid_args rgb16 args = true ->
   exists out',
     demosaic_malvar_rgb16 (Some bayer) (Some args) (Some out) = (Done tt, Some out') /\
     image_written (safe_rgb16 bayer args) (n_rows args) (n_cols args) out out') /\
  (valid_args rgb8 args = true ->
   exists out',
     demosaic_malvar_rgb8 (Some bayer) (Some args) (Some out) = (Done tt, Some out') /\
     image_written (safe_rgb8 bayer args) (n_rows args) (n_cols args) out out') /\
  (rshift args < 32 -> valid_args rgb16to8 args = true ->
   exists out',
     demosaic_malvar_rgb16to8 (Some bayer) (Some args) (Some out)
     = (Done tt, Some out') /\
     image_written (safe_rgb16to8 bayer args) (n_rows args) (n_cols args) out out').
Proof.
  intros T Hfit Hlen.
  refine (conj _ (conj _ (fun _ => _))); intros V;
    assert (Hd : proper_dimensions args = true)
      by (unfold valid_args in V; apply andb_true_iff in V; tauto);
    destruct (proper_dimensions_facts args Hd) as (Hc & Hr & _);
    eexists; (split; [|apply fill_rows_image; first [assumption | lia]]).
  - apply rgb16_image_run; assumption.
  - apply rgb8_image_run; assumption.
  - apply rgb16to8_image_run; assumption.
Qed.

Lemma rgb_images_written_witness :
  exists out',
    demosaic_malvar_rgb16 (Some sample_bayer) (Some sample_args)
      (Some (replicate 36 (mk_pix 0 0 0)))
    = (Done tt, Some out') /\
    image_written (safe_rgb16 sample_bayer sample_args) 6 6
      (replicate 36 (mk_pix 0 0 0)) out'.
Proof.
  destruct (rgb_images_written sample_bayer sample_args (replicate 36 (mk_pix 0 0 0)))
    as (H & _).
  - exact sample_args_typed.
  - vm_compute. discriminate.
  - vm_compute. discriminate.
  - apply H. vm_compute. reflexivity.
Defined.

(** X2. The same for [demosaic_malvar_mono16], [demosaic_malvar_mono8] and
    [demosaic_malvar_mono16to8] (the last for [rshift < 32], on 16-bit
    samples that fit 8 bits after the shift): they return, element [row * n_cols + col] of the
    output is the luma sample of ([row], [col]), and the elements from
    [n_rows * n_cols] on are as before. *)
Theorem mono_images_written (bayer : list Z) (args : demosaic_args) (out : list Z) :
  args_typed args -> n_rows args * n_cols args <= I32_MAX ->
  n_rows args * n_cols args <= Z.of_nat (length out) ->
  (valid_args mono16 args = true ->
   exists out',
     demosaic_malvar_mono16 (Some bayer) (Some args) (Some out) = (Done tt, Some out') /\
     image_written (safe_mono16 bayer args) (n_rows args) (n_cols args) out out') /\
  (valid_args mono8 args = true ->
   exists out',
     demosaic_malvar_mono8 (Some bayer) (Some args) (Some out) = (Done tt, Some out') /\
     image_written (safe_mono8 bayer args) (n_rows args) (n_cols args) out out') /\
  (rshift args < 32 -> valid_args mono16to8 args = true ->
   buffer16 bayer -> samples_shift_to_8bit bayer args ->
   exists out',
     demosaic_malvar_mono16to8 (Some bayer) (Some args) (Some out)
     = (Done tt, Some out') /\
     image_written (safe_mono16to8 bayer args) (n_rows args) (n_cols args) out out').
Proof.
  intros T Hfit Hlen.
  refine (conj _ (conj _ (fun _ => _))); intros V;
    assert (Hd : proper_dimensions args = true)
      by (unfold valid_args in V; apply andb_true_iff in V; tauto);
    destruct (proper_dimensions_facts args Hd) as (Hc & Hr & _).
  - eexists. split; [|apply fill_rows_image; first [assumption | lia]].
    apply mono16_image_run; assumption.
  - eexists. split; [|apply fill_rows_image; first [assumption | lia]].
    apply mono8_image_run; assumption.
  - intros Hb Hs. eexists. split; [|apply fill_rows_image; first [assumption | lia]].
    apply mono16to8_image_run; assumption.
Qed.

Lemma mono_images_written_witness :
  exists out',
    demosaic_malvar_mono16 (Some sample_bayer) (Some sample_args) (Some (replicate 36 0))
    = (Done tt, Some out') /\
    image_written (safe_mono16 sample_bayer sample_args) 6 6 (replicate 36 0) out'.
Proof.
  destruct (mono_images_written sample_bayer sample_args (replicate 36 0)) as (H & _).
  - exact sample_args_typed.
  - vm_compute. discriminate.
  - vm_compute. discriminate.
  - apply H. vm_compute. reflexivity.
Defined.

(** X3. Each whole-image function leaves the output and the outcome that
    the loop over the rows of the matching unoptimized row function leaves
    (the reference the test suite compares it with), for valid arguments
    and an image of at most [I32_MAX] pixels; for [mono16to8], when
    [rshift < 32], on 16-bit samples that fit 8 bits after the shift. *)
Theorem images_equal_unoptimized_rows (bayer : list Z) (args : demosaic_args) :
  args_typed args -> n_rows args * n_cols args <= I32_MAX ->
  (valid_args rgb16 args = true ->
   forall out,
     demosaic_malvar_rgb16 (Some bayer) (Some args) (Some out)
     = unoptimized_rows demosaic_malvar_row_rgb16_unoptimized bayer args (Some out)) /\
  (valid_args rgb8 args = true ->
   forall out,
     demosaic_malvar_rgb8 (Some bayer) (Some args) (Some out)
     = unoptimized_rows demosaic_malvar_row_rgb8_unoptimized bayer args (Some out)) /\
  (valid_args rgb16to8 args = true ->
   forall out,
     demosaic_malvar_rgb16to8 (Some bayer) (Some args) (Some out)
     = unoptimized_rows demosaic_malvar_row_rgb16to8_unoptimized bayer args (Some out)) /\
  (valid_args mono16 args = true ->
   forall out,
     demosaic_malvar_mono16 (Some bayer) (Some args) (Some out)
     = unoptimized_rows demosaic_malvar_row_mono16_unoptimized bayer args (Some out)) /\
  (valid_args mono8 args = true ->
   forall out,
     demosaic_malvar_mono8 (Some bayer) (Some args) (Some out)
     = unoptimized_rows demosaic_malvar_row_mono8_unoptimized bayer args (Some out)) /\
  (rshift args < 32 -> valid_args mono16to8 args = true ->
   buffer16 bayer -> samples_shift_to_8bit bayer args ->
   forall out,
     demosaic_malvar_mono16to8 (Some bayer) (Some args) (Some out)
     = unoptimized_rows demosaic_malvar_row_mono16to8_unoptimized bayer args (Some out)).
Proof.
  intros T Hfit.
  refine (conj _ (conj _ (conj _ (conj _ (conj _ (fun _ => _)))))); intros V;
    assert (Hd : proper_dimensions args = true)
      by (unfold valid_args in V; apply andb_true_iff in V; tauto).
  - intros out. rewrite rgb16_image_run by assumption. symmetry.
    apply unoptimized_rows_run; try assumption.
    intros row w Hrow. apply (rgb16_rows_agree bayer args row T Hrow w V).
  - intros out. rewrite rgb8_image_run by assumption. symmetry.
    apply unoptimized_rows_run; try assumption.
    intros row w Hrow. apply (rgb8_rows_agree bayer args row T Hrow w V).
  - intros out. rewrite rgb16to8_image_run by assumption. symmetry.
    apply unoptimized_rows_run; try assumption.
    intros row w Hrow. apply (rgb16to8_rows_agree bayer args row T Hrow w V).
  - intros out. rewrite mono16_image_run by assumption. symmetry.
    apply unoptimized_rows_run; try assumption.
    intros row w Hrow. apply (mono16_rows_agree bayer args row T Hrow w V).
  - intros out. rewrite mono8_image_run by assumption. symmetry.
    apply unoptimized_rows_run; try assumption.
    intros row w Hrow. apply (mono8_rows_agree bayer args row T Hrow w V).
  - intros Hb Hs out. rewrite mono16to8_image_run by assumption. symmetry.
    apply unoptimized_rows_run; try assumption.
    intros row w Hrow. apply (mono16to8_rows_agree bayer args row T Hrow w V Hb Hs).
Qed.

Lemma images_equal_unoptimized_rows_witness :
  demosaic_malvar_mono16to8 (Some sample_bayer) (Some sample_args) (Some (replicate 36 0))
  = unoptimized_rows demosaic_malvar_row_mono16to8_unoptimized sample_bayer sample_args
      (Some (replicate 36 0)).
Proof.
  destruct (images_equal_unoptimized_rows sample_bayer sample_args)
    as (_ & _ & _ & _ & _ & H).
  - exact sample_args_typed.
  - vm_compute. discriminate.
  - apply H.
    + simpl. lia.
    + vm_compute. reflexivity.
    + exact sample_bayer_buffer16.
    + apply samples_within_max_shift; [vm_compute; reflexivity|].
      exact sample_bayer_within_max.
Defined.

(** ** Rejected whole-image calls *)

Lemma rejected_not_accepted (v : variant) (bayer : option (list Z)) (a : demosaic_args)
    {P : Type} (output : option (list P)) :
  rejected v bayer (Some a) output ->
  ~ accepted v bayer (Some a) 0 (row_pointer output 0).
Proof.
  intros Hr (b & a' & out & Hb & Ha & Ho & V & _). injection Ha as <-.
  destruct Hr as [Hr | [Hr | [Hr | (a' & Ha' & Hv)]]].
  - congruence.
  - discriminate.
  - subst output. discriminate.
  - injection Ha' as <-. congruence.
Qed.

(** The loop over the rows ends in the fatal handler, with the buffer
    untouched, when the call for the first row does. *)
Lemma image_loop_fatal {P : Type} (row_function : Z -> M (P := P) unit)
    (a : demosaic_args) (output : option (list P)) :
  proper_dimensions a = true ->
  row_function 0 (row_pointer output 0) = (Fatal, row_pointer output 0) ->
  (while (Z.to_nat (n_rows a)) (fun row => row <? n_rows a)
     (fun row => with_row_at (row [*] n_cols a) (row_function row) ;; ret (row [+] 1))
     0 ;;
   ret tt) output
  = (Fatal, output).
Proof.
  intros Hd Hf. destruct (proper_dimensions_facts a Hd) as (_ & Hr & _).
  destruct (Z.to_nat (n_rows a)) as [|fuel] eqn:E; [lia|].
  cbn [while]. destruct (Z.ltb_spec 0 (n_rows a)); [|lia].
  unfold bind, with_row_at. change (0 [*] n_cols a) with 0. rewrite Hf.
  destruct output as [out|]; reflexivity.
Qed.

Ltac image_fatal row_fatal_or_accepted :=
  match goal with
  | Hr : rejected ?v ?bayer ?args ?output |- ?f ?bayer ?args ?output = _ =>
      destruct args as [a|]; [|reflexivity];
      unfold f; rewrite not_null_some;
      destruct (proper_dimensions a) eqn:Hd;
      [ rewrite assert_dimensions_true by exact Hd
      | apply assert_dimensions_false; exact Hd ];
      try match goal with
          | |- (DEMOSAIC_ASSERT ?t ;; _) _ = _ =>
              destruct t eqn:E8;
              [ rewrite assert_true by reflexivity
              | apply assert_false; reflexivity ]
          end;
      apply (image_loop_fatal (fun row => _ bayer (Some a) row) a output Hd);
      destruct (row_fatal_or_accepted bayer (Some a) 0 (row_pointer output 0)) as [H|H];
      [ exact H | destruct (rejected_not_accepted _ _ _ _ Hr H) ]
  end.

Section ImageFatal.

Variables (bayer : option (list Z)) (args : option demosaic_args).

Lemma rgb16_image_fatal (output : option (list demosaic_pix_rgb16)) :
  rejected rgb16 bayer args output ->
  demosaic_malvar_rgb16 bayer args output = (Fatal, output).
Proof. intros Hr. image_fatal rgb16_fatal_or_accepted. Qed.

Lemma rgb8_image_fatal (output : option (list demosaic_pix_rgb8)) :
  rejected rgb8 bayer args output ->
  demosaic_malvar_rgb8 bayer args output = (Fatal, output).
Proof. intros Hr. image_fatal rgb8_fatal_or_accepted. Qed.

Lemma rgb16to8_image_fatal (output : option (list demosaic_pix_rgb8)) :
  rejected rgb16to8 bayer args output ->
  demosaic_malvar_rgb16to8 bayer args output = (Fatal, output).
Proof. intros Hr. image_fatal rgb16to8_fatal_or_accepted. Qed.

Lemma mono16_image_fatal (output : option (list Z)) :
  rejected mono16 bayer args output ->
  demosaic_malvar_mono16 bayer args output = (Fatal, output).
Proof. intros Hr. image_fatal mono16_fatal_or_accepted. Qed.

Lemma mono8_image_fatal (output : option (list Z)) :
  rejected mono8 bayer args output ->
  demosaic_malvar_mono8 bayer args output = (Fatal, output).
Proof. intros Hr. image_fatal mono8_fatal_or_accepted. Qed.

Lemma mono16to8_image_fatal (output : option (list Z)) :
  rejected mono16to8 bayer args output ->
  demosaic_malvar_mono16to8 bayer args output = (Fatal, output).
Proof. intros Hr. image_fatal mono16to8_fatal_or_accepted. Qed.

End ImageFatal.

(** X4. A whole-image function given a [NULL] [bayer], [args] or output,
    or arguments its variant refuses (odd or too small dimensions,
    [max_val] above 255 for the 8-bit variants, a negative shift or a
    shifted [max_val] above 255 for the 16-to-8 variants, invalid
    coefficients for the mono variants), ends in the fatal handler and
    leaves the output as it was. *)
Theorem invalid_image_calls_are_fatal
    (bayer : option (list Z)) (args : option demosaic_args)
    (rgb_output : option (list demosaic_pix_rgb)) (mono_output : option (list Z)) :
  (rejected rgb16 bayer args rgb_output ->
   demosaic_malvar_rgb16 bayer args rgb_output = (Fatal, rgb_output)) /\
  (rejected rgb8 bayer args rgb_output ->
   demosaic_malvar_rgb8 bayer args rgb_output = (Fatal, rgb_output)) /\
  (rejected rgb16to8 bayer args rgb_output ->
   demosaic_malvar_rgb16to8 bayer args rgb_output = (Fatal, rgb_output)) /\
  (rejected mono16 bayer args mono_output ->
   demosaic_malvar_mono16 bayer args mono_output = (Fatal, mono_output)) /\
  (rejected mono8 bayer args mono_output ->
   demosaic_malvar_mono8 bayer args mono_output = (Fatal, mono_output)) /\
  (rejected mono16to8 bayer args mono_output ->
   demosaic_malvar_mono16to8 bayer args mono_output = (Fatal, mono_output)).
Proof.
  refine (conj _ (conj _ (conj _ (conj _ (conj _ _))))).
  - apply rgb16_image_fatal.
  - apply rgb8_image_fatal.
  - apply rgb16to8_image_fatal.
  - apply mono16_image_fatal.
  - apply mono8_image_fatal.
  - apply mono16to8_image_fatal.
Qed.

Lemma invalid_image_calls_are_fatal_witness :
  demosaic_malvar_rgb16to8 (Some sample_bayer)
    (Some (mk_args 6 6 4095 3 (coefs sample_args)))
    (Some (replicate 36 (mk_pix 0 0 0)))
  = (Fatal, Some (replicate 36 (mk_pix 0 0 0))).
Proof.
  apply (invalid_image_calls_are_fatal (Some sample_bayer)
           (Some (mk_args 6 6 4095 3 (coefs sample_args)))
           (Some (replicate 36 (mk_pix 0 0 0))) None).
  right. right. right. eexists. split; [reflexivity|]. vm_compute. reflexivity.
Defined.

(** ** Bounds and luminance of whole images *)

Lemma fill_rows_element {P : Type} (pixel : Z -> Z -> P) (n_rows n_cols : Z)
    (out : list P) (i : nat) :
  Z.of_nat i < n_rows * n_cols -> n_rows * n_cols <= Z.of_nat (length out) ->
  fill_rows pixel n_cols 0 n_rows out !! i
  = Some (pixel (Z.of_nat i / n_cols) (Z.of_nat i mod n_cols)).
Proof.
  intros Hi Hlen. rewrite lookup_fill_rows.
  destruct (lookup_lt_is_Some_2 out i ltac:(lia)) as [x ->]. simpl.
  destruct (Z.leb_spec (0 * n_cols) (Z.of_nat i)); [|lia].
  destruct (Z.ltb_spec (Z.of_nat i) (n_rows * n_cols)); [|lia]. reflexivity.
Qed.

(** X5. For valid arguments, an image of at most [I32_MAX] pixels and
    16-bit samples that do not exceed [max_val], every pixel a whole-image
    function writes has its channels (its sample, for the mono variants)
    between 0 and [max_val], or, for the 16-to-8 variants when
    [rshift < 32], between 0 and [max_val >> rshift]. *)
Theorem image_outputs_within_bounds (bayer : list Z) (args : demosaic_args) :
  args_typed args -> buffer16 bayer -> samples_within_max bayer args ->
  n_rows args * n_cols args <= I32_MAX ->
  let pixels := n_rows args * n_cols args in
  (valid_args rgb16 args = true ->
   forall out, pixels <= Z.of_nat (length out) ->
     exists out',
       demosaic_malvar_rgb16 (Some bayer) (Some args) (Some out) = (Done tt, Some out') /\
       forall i : nat, Z.of_nat i < pixels ->
         exists p, out' !! i = Some p /\ pixel_within (max_val args) p) /\
  (valid_args rgb8 args = true ->
   forall out, pixels <= Z.of_nat (length out) ->
     exists out',
       demosaic_malvar_rgb8 (Some bayer) (Some args) (Some out) = (Done tt, Some out') /\
       forall i : nat, Z.of_nat i < pixels ->
         exists p, out' !! i = Some p /\ pixel_within (max_val args) p) /\
  (rshift args < 32 -> valid_args rgb16to8 args = true ->
   forall out, pixels <= Z.of_nat (length out) ->
     exists out',
       demosaic_malvar_rgb16to8 (Some bayer) (Some args) (Some out)
       = (Done tt, Some out') /\
       forall i : nat, Z.of_nat i < pixels ->
         exists p, out' !! i = Some p /\
                   pixel_within (max_val args [>>] rshift args) p) /\
  (valid_args mono16 args = true ->
   forall out, pixels <= Z.of_nat (length out) ->
     exists out',
       demosaic_malvar_mono16 (Some bayer) (Some args) (Some out) = (Done tt, Some out') /\
       forall i : nat, Z.of_nat i < pixels ->
         exists v, out' !! i = Some v /\ 0 <= v <= max_val args) /\
  (valid_args mono8 args = true ->
   forall out, pixels <= Z.of_nat (length out) ->
     exists out',
       demosaic_malvar_mono8 (Some bayer) (Some args) (Some out) = (Done tt, Some out') /\
       forall i : nat, Z.of_nat i < pixels ->
         exists v, out' !! i = Some v /\ 0 <= v <= max_val args) /\
  (rshift args < 32 -> valid_args mono16to8 args = true ->
   forall out, pixels <= Z.of_nat (length out) ->
     exists out',
       demosaic_malvar_mono16to8 (Some bayer) (Some args) (Some out)
       = (Done tt, Some out') /\
       forall i : nat, Z.of_nat i < pixels ->
         exists v, out' !! i = Some v /\ 0 <= v <= max_val args [>>] rshift args).
Proof.
  intros T Hbuf Hmax Hfit pixels. subst pixels.
  refine (conj _ (conj _ (conj (fun _ => _) (conj _ (conj _ (fun _ => _))))));
    intros V out Hlen;
    pose proof V as V'; unfold valid_args in V'; rewrite ?andb_true_iff in V'.
  - rewrite rgb16_image_run by assumption. eexists. split; [reflexivity|].
    intros i Hi. eexists. split; [apply fill_rows_element; assumption|].
    apply safe_rgb16_within; assumption.
  - rewrite rgb8_image_run by assumption. eexists. split; [reflexivity|].
    intros i Hi. eexists. split; [apply fill_rows_element; assumption|].
    apply safe_rgb8_within; tauto.
  - rewrite rgb16to8_image_run by assumption. eexists. split; [reflexivity|].
    intros i Hi. eexists. split; [apply fill_rows_element; assumption|].
    apply safe_rgb16to8_within; tauto.
  - rewrite mono16_image_run by assumption. eexists. split; [reflexivity|].
    intros i Hi. eexists. split; [apply fill_rows_element; assumption|].
    apply safe_mono16_within; tauto.
  - rewrite mono8_image_run by assumption. eexists. split; [reflexivity|].
    intros i Hi. eexists. split; [apply fill_rows_element; assumption|].
    apply safe_mono8_within; tauto.
  - assert (Hs : samples_shift_to_8bit bayer args)
      by (apply samples_within_max_shift; tauto).
    rewrite mono16to8_image_run by assumption. eexists. split; [reflexivity|].
    intros i Hi. eexists. split; [apply fill_rows_element; assumption|].
    apply safe_mono16to8_within; tauto.
Qed.

Lemma image_outputs_within_bounds_witness :
  exists out',
    demosaic_malvar_mono16to8 (Some sample_bayer) (Some sample_args)
      (Some (replicate 36 0))
    = (Done tt, Some out') /\
    forall i : nat, Z.of_nat i < 36 ->
      exists v, out' !! i = Some v /\ 0 <= v <= 255.
Proof.
  destruct (image_outputs_within_bounds sample_bayer sample_args)
    as (_ & _ & _ & _ & _ & H).
  - exact sample_args_typed.
  - exact sample_bayer_buffer16.
  - exact sample_bayer_within_max.
  - vm_compute. discriminate.
  - apply (H ltac:(simpl; lia) ltac:(vm_compute; reflexivity) (replicate 36 0)).
    vm_compute. discriminate.
Defined.

(** X6. The mono image is the luma of the rgb image of the same variant:
    for valid arguments, an image of at most [I32_MAX] pixels and large
    enough outputs, element by element, the
    sample [demosaic_malvar_mono16] (or [mono8], [mono16to8]) stores is the
    normalized-coefficient luminance of the pixel [demosaic_malvar_rgb16]
    (or [rgb8], [rgb16to8]) stores; for [mono16to8], when [rshift < 32], on
    16-bit samples that fit 8 bits after the shift. *)
Theorem mono_image_is_luma_of_rgb_image
    (bayer : list Z) (args : demosaic_args)
    (rgb_out : list demosaic_pix_rgb) (mono_out : list Z) :
  args_typed args -> n_rows args * n_cols args <= I32_MAX ->
  n_rows args * n_cols args <= Z.of_nat (length rgb_out) ->
  n_rows args * n_cols args <= Z.of_nat (length mono_out) ->
  let coefs_normed := normalize_coefs (coefs args) in
  (valid_args mono16 args = true ->
   exists rgb mono,
     demosaic_malvar_rgb16 (Some bayer) (Some args) (Some rgb_out)
     = (Done tt, Some rgb) /\
     demosaic_malvar_mono16 (Some bayer) (Some args) (Some mono_out)
     = (Done tt, Some mono) /\
     forall i : nat, Z.of_nat i < n_rows args * n_cols args ->
       mono !! i = luma16 coefs_normed <$> rgb !! i) /\
  (valid_args mono8 args = true ->
   exists rgb mono,
     demosaic_malvar_rgb8 (Some bayer) (Some args) (Some rgb_out)
     = (Done tt, Some rgb) /\
     demosaic_malvar_mono8 (Some bayer) (Some args) (Some mono_out)
     = (Done tt, Some mono) /\
     forall i : nat, Z.of_nat i < n_rows args * n_cols args ->
       mono !! i = luma8 coefs_normed <$> rgb !! i) /\
  (rshift args < 32 -> valid_args mono16to8 args = true ->
   buffer16 bayer -> samples_shift_to_8bit bayer args ->
   exists rgb mono,
     demosaic_malvar_rgb16to8 (Some bayer) (Some args) (Some rgb_out)
     = (Done tt, Some rgb) /\
     demosaic_malvar_mono16to8 (Some bayer) (Some args) (Some mono_out)
     = (Done tt, Some mono) /\
     forall i : nat, Z.of_nat i < n_rows args * n_cols args ->
       mono !! i = luma8 coefs_normed <$> rgb !! i).
Proof.
  intros T Hfit Hrgb Hmono coefs_normed. subst coefs_normed.
  refine (conj _ (conj _ (fun _ => _))); intros V;
    pose proof V as V'; unfold valid_args in V'; rewrite ?andb_true_iff in V'.
  - assert (Vr : valid_args rgb16 args = true)
      by (unfold valid_args; rewrite andb_true_iff; tauto).
    eexists _, _. split; [apply rgb16_image_run; assumption|].
    split; [apply mono16_image_run; assumption|].
    intros i Hi. rewrite !fill_rows_element by assumption. simpl.
    rewrite safe_mono16_luma. reflexivity.
  - assert (Vr : valid_args rgb8 args = true)
      by (unfold valid_args; rewrite andb_true_iff; tauto).
    eexists _, _. split; [apply rgb8_image_run; assumption|].
    split; [apply mono8_image_run; assumption|].
    intros i Hi. rewrite !fill_rows_element by assumption. simpl.
    rewrite safe_mono8_luma. reflexivity.
  - intros Hb Hs.
    assert (Vr : valid_args rgb16to8 args = true)
      by (unfold valid_args; rewrite andb_true_iff; tauto).
    eexists _, _. split; [apply rgb16to8_image_run; assumption|].
    split; [apply mono16to8_image_run; assumption|].
    intros i Hi. rewrite !fill_rows_element by assumption. simpl.
    rewrite safe_mono16to8_luma. reflexivity.
Qed.

Lemma mono_image_is_luma_of_rgb_image_witness :
  exists rgb mono,
    demosaic_malvar_rgb16 (Some sample_bayer) (Some sample_args)
      (Some (replicate 36 (mk_pix 0 0 0)))
    = (Done tt, Some rgb) /\
    demosaic_malvar_mono16 (Some sample_bayer) (Some sample_args)
      (Some (replicate 36 0))
    = (Done tt, Some mono) /\
    forall i : nat, Z.of_nat i < 36 ->
      mono !! i = luma16 (normalize_coefs (coefs sample_args)) <$> rgb !! i.
Proof.
  destruct (mono_image_is_luma_of_rgb_image sample_bayer sample_args
              (replicate 36 (mk_pix 0 0 0)) (replicate 36 0)) as (H & _).
  - exact sample_args_typed.
  - vm_compute. discriminate.
  - vm_compute. discriminate.
  - vm_compute. discriminate.
  - apply H. vm_compute. reflexivity.
Defined.

(** ** Coefficients outside [0, 1] *)

Lemma SFleb_finite (m1 m2 : positive) (e1 e2 : Z) :
  SFleb (S754_finite false m1 e1) (S754_finite false m2 e2) = true ->
  e1 < e2 \/ (e1 = e2 /\ Z.pos m1 <= Z.pos m2).
Proof.
  unfold SFleb, SFcompare. destruct (Z.compare_spec e1 e2) as [He|He|He]; intros H.
  - right. split; [exact He|]. rewrite Pos.compare_cont_spec in H.
    unfold Pos.switch_Eq in H.
    destruct (Pos.compare_spec m1 m2) as [Hm|Hm|Hm]; try discriminate.
    + subst m2. apply Z.le_refl.
    + apply Z.lt_le_incl, Pos2Z.pos_lt_pos, Hm.
  - left. exact He.
  - discriminate.
Qed.

Lemma leb_one_value (m : positive) (e : Z) :
  Z.pos m < 2 ^ 53 ->
  F64ops.leb (S754_finite false m e) F64ops.one = true ->
  (value (S754_finite false m e) <= 1)%R.
Proof.
  intros Hb Hle. apply SFleb_finite in Hle. cbn [value cond_Zopp].
  destruct Hle as [Hlt | [-> Hm]].
  - pose proof (bpow_pos e) as He.
    apply Rle_trans with (bpow 53 * bpow e)%R.
    + rewrite <- (IZR_pow2 53) by lia.
      assert (IZR (Z.pos m) <= IZR (2 ^ 53))%R by (apply IZR_le; lia). nra.
    + rewrite <- bpow_add. change 1%R with (bpow 0). apply bpow_le. lia.
  - apply IZR_le in Hm. rewrite bpow_m52. lra.
Qed.

Lemma coef_out_of_unit_rejected (c : F64) :
  coef_out_of_unit c -> coef_in_unit c = false.
Proof.
  unfold coef_in_unit.
  destruct c as [s|[]| |[] m e]; cbn [coef_out_of_unit]; intros H;
    try contradiction; try reflexivity.
  destruct H as [Hb Hv]. cbn [bounded_mantissa] in Hb.
  destruct (F64ops.leb (S754_finite false m e) F64ops.one) eqn:E.
  - pose proof (leb_one_value m e Hb E). lra.
  - apply andb_false_r.
Qed.

Lemma coefs_out_of_unit_invalid (a : demosaic_args) (v : variant) :
  v = mono16 \/ v = mono8 \/ v = mono16to8 ->
  coef_out_of_unit (coef_red (coefs a)) \/ coef_out_of_unit (coef_green (coefs a)) \/
  coef_out_of_unit (coef_blue (coefs a)) ->
  valid_args v a = false.
Proof.
  intros Hv Hc.
  assert (E : valid_coefs a = false).
  { unfold valid_coefs.
    destruct Hc as [Hc | [Hc | Hc]]; apply coef_out_of_unit_rejected in Hc; rewrite Hc;
      rewrite ?andb_false_r; reflexivity. }
  unfold valid_args. destruct Hv as [-> | [-> | ->]]; rewrite E, ?andb_false_r; reflexivity.
Qed.

(** X7. A luma coefficient that is a NaN, an infinity, negative, or above
    1 makes every mono function (the three row functions, their
    unoptimized versions and the three whole-image functions) end in the
    fatal handler, the output untouched, whatever the other arguments
    are. *)
Theorem coefficients_outside_unit_are_fatal
    (bayer : option (list Z)) (args : option demosaic_args) (a : demosaic_args)
    (row : Z) (output_row output : option (list Z)) :
  args = Some a ->
  coef_out_of_unit (coef_red (coefs a)) \/ coef_out_of_unit (coef_green (coefs a)) \/
  coef_out_of_unit (coef_blue (coefs a)) ->
  (demosaic_malvar_row_mono16 bayer args row output_row = (Fatal, output_row) /\
   demosaic_malvar_row_mono8 bayer args row output_row = (Fatal, output_row) /\
   demosaic_malvar_row_mono16to8 bayer args row output_row = (Fatal, output_row)) /\
  (demosaic_malvar_row_mono16_unoptimized bayer args row output_row
   = (Fatal, output_row) /\
   demosaic_malvar_row_mono8_unoptimized bayer args row output_row
   = (Fatal, output_row) /\
   demosaic_malvar_row_mono16to8_unoptimized bayer args row output_row
   = (Fatal, output_row)) /\
  (demosaic_malvar_mono16 bayer args output = (Fatal, output) /\
   demosaic_malvar_mono8 bayer args output = (Fatal, output) /\
   demosaic_malvar_mono16to8 bayer args output = (Fatal, output)).
Proof.
  intros -> Hc.
  pose proof (fun v Hv => coefs_out_of_unit_invalid a v Hv Hc) as Hinv.
  assert (N : forall v, v = mono16 \/ v = mono8 \/ v = mono16to8 ->
                forall r (s : option (list Z)), ~ accepted v bayer (Some a) r s).
  { intros v Hv r s (b & a' & out & _ & Ha & _ & V & _). injection Ha as <-.
    rewrite (Hinv v Hv) in V. discriminate. }
  assert (R : forall v, v = mono16 \/ v = mono8 \/ v = mono16to8 ->
                rejected v bayer (Some a) output).
  { intros v Hv. right. right. right. exists a. split; [reflexivity|]. apply Hinv, Hv. }
  refine (conj (conj _ (conj _ _)) (conj (conj _ (conj _ _)) (conj _ (conj _ _)))).
  - destruct (mono16_fatal_or_accepted bayer (Some a) row output_row) as [H|H];
      [exact H | destruct (N mono16 ltac:(tauto) _ _ H)].
  - destruct (mono8_fatal_or_accepted bayer (Some a) row output_row) as [H|H];
      [exact H | destruct (N mono8 ltac:(tauto) _ _ H)].
  - destruct (mono16to8_fatal_or_accepted bayer (Some a) row output_row) as [H|H];
      [exact H | destruct (N mono16to8 ltac:(tauto) _ _ H)].
  - destruct (mono16_unoptimized_fatal_or_accepted bayer (Some a) row output_row)
      as [H|H]; [exact H | destruct (N mono16 ltac:(tauto) _ _ H)].
  - destruct (mono8_unoptimized_fatal_or_accepted bayer (Some a) row output_row)
      as [H|H]; [exact H | destruct (N mono8 ltac:(tauto) _ _ H)].
  - destruct (mono16to8_unoptimized_fatal_or_accepted bayer (Some a) row output_row)
      as [H|H]; [exact H | destruct (N mono16to8 ltac:(tauto) _ _ H)].
  - apply mono16_image_fatal, R. tauto.
  - apply mono8_image_fatal, R. tauto.
  - apply mono16to8_image_fatal, R. tauto.
Qed.

Lemma coefficients_outside_unit_are_fatal_witness :
  demosaic_malvar_row_mono16 (Some sample_bayer)
    (Some (mk_args 6 6 4095 4 (mk_coefs F64ops.half two F64ops.zero))) 2
    (Some (replicate 6 0))
  = (Fatal, Some (replicate 6 0)).
Proof.
  refine (proj1 (proj1
    (coefficients_outside_unit_are_fatal (Some sample_bayer) _ _ 2
       (Some (replicate 6 0)) None eq_refl _))).
  right. left. cbn [coefs coef_green coef_out_of_unit two bounded_mantissa].
  split; [lia|]. unfold value, cond_Zopp, bpow. simpl. lra.
Defined.

(** ** The rows a row function reads *)

(** The row the edge-safe accessor reads for a row at most two away from a
    row of the image is in the image and at most two away from it. *)
Lemma safe_coord_near (n x d : Z) :
  is_i32 n -> 2 <= n -> Z.rem n 2 = 0 -> 0 <= x < n -> -2 <= d <= 2 ->
  0 <= safe_coord n (x [+] d) < n /\ x - 2 <= safe_coord n (x [+] d) <= x + 2.
Proof.
  intros Hn H2 He Hx Hd. unfold is_i32, I32_MIN, I32_MAX in Hn.
  change (2 ^ 31) with 2147483648 in Hn.
  assert (Hn' : n <= 2147483646) by (Z.to_euclidean_division_equations; lia).
  replace (x [+] d) with (x + d) by (wrap_off; reflexivity).
  rewrite safe_coord_spec
    by first [assumption | unfold is_i32, I32_MIN, I32_MAX; lia].
  unfold remap_spec. rewrite Z.geb_leb.
  destruct (Z.ltb_spec (x + d) 0); [|destruct (Z.leb_spec n (x + d))];
    Z.to_euclidean_division_equations; lia.
Qed.

Section KernelLocality.

Variables (pix1 pix2 : Z -> Z -> Z) (row col : Z).
Hypothesis near :
  forall dr dc, -2 <= dr <= 2 -> -2 <= dc <= 2 ->
                pix1 (row [+] dr) (col [+] dc) = pix2 (row [+] dr) (col [+] dc).

Ltac same_kernel :=
  repeat match goal with
  | |- context [?x [-] 2] => change (x [-] 2) with (x [+] -2)
  | |- context [?x [-] 1] => change (x [-] 1) with (x [+] -1)
  end;
  rewrite !near by lia; reflexivity.

Lemma green_sum_same : green_sum pix1 row col = green_sum pix2 row col.
Proof. unfold green_sum. same_kernel. Qed.

Lemma row_sum_same : row_sum pix1 row col = row_sum pix2 row col.
Proof. unfold row_sum. same_kernel. Qed.

Lemma column_sum_same : column_sum pix1 row col = column_sum pix2 row col.
Proof. unfold column_sum. same_kernel. Qed.

Lemma opposite_sum_same : opposite_sum pix1 row col = opposite_sum pix2 row col.
Proof. unfold opposite_sum. same_kernel. Qed.

End KernelLocality.

Section Locality.

Variables (bayer1 bayer2 : list Z) (args : demosaic_args) (row : Z).
Hypothesis args_ok : args_typed args.
Hypothesis dimensions_ok : proper_dimensions args = true.
Hypothesis row_in_image : 0 <= row < n_rows args.
Hypothesis same_rows :
  forall r c, 0 <= r < n_rows args -> row - 2 <= r <= row + 2 ->
              0 <= c < n_cols args ->
              GET_PIX bayer1 (n_cols args) r c = GET_PIX bayer2 (n_cols args) r c.

Lemma safe_same (col : Z) :
  0 <= col < n_cols args ->
  forall dr dc, -2 <= dr <= 2 -> -2 <= dc <= 2 ->
  get_pixel16_safe bayer1 (n_rows args) (n_cols args) (row [+] dr) (col [+] dc)
  = get_pixel16_safe bayer2 (n_rows args) (n_cols args) (row [+] dr) (col [+] dc).
Proof.
  intros Hcol dr dc Hdr Hdc. destruct args_ok as [Tr Tc _ _].
  destruct (proper_dimensions_facts args dimensions_ok) as (Hc & Hr & _ & _ & Ec & Er).
  rewrite !get_pixel16_safe_index, safe_index_coord.
  destruct (safe_coord_near (n_rows args) row dr Tr Hr Er row_in_image Hdr).
  destruct (safe_coord_near (n_cols args) col dc Tc Hc Ec Hcol Hdc).
  apply same_rows; assumption.
Qed.

Lemma safe_same_own (col : Z) :
  0 <= col < n_cols args ->
  get_pixel16_safe bayer1 (n_rows args) (n_cols args) row col
  = get_pixel16_safe bayer2 (n_rows args) (n_cols args) row col.
Proof.
  intros Hcol. rewrite !get_pixel16_safe_inside by assumption.
  apply same_rows; first [assumption | lia].
Qed.

Lemma getters16_same (col : Z) :
  0 <= col < n_cols args ->
  get_green16 bayer1 args row col = get_green16 bayer2 args row col /\
  get_red_blue_from_row16 bayer1 args row col
  = get_red_blue_from_row16 bayer2 args row col /\
  get_red_blue_from_column16 bayer1 args row col
  = get_red_blue_from_column16 bayer2 args row col /\
  get_red_blue_from_opposite16 bayer1 args row col
  = get_red_blue_from_opposite16 bayer2 args row col.
Proof.
  intros Hcol.
  unfold get_green16, get_red_blue_from_row16, get_red_blue_from_column16,
    get_red_blue_from_opposite16. cbv zeta.
  rewrite (green_sum_same _ _ row col (safe_same col Hcol)),
    (row_sum_same _ _ row col (safe_same col Hcol)),
    (column_sum_same _ _ row col (safe_same col Hcol)),
    (opposite_sum_same _ _ row col (safe_same col Hcol)).
  repeat split.
Qed.

Lemma getters8_same (col : Z) :
  0 <= col < n_cols args ->
  get_green8 bayer1 args row col = get_green8 bayer2 args row col /\
  get_red_blue_from_row8 bayer1 args row col
  = get_red_blue_from_row8 bayer2 args row col /\
  get_red_blue_from_column8 bayer1 args row col
  = get_red_blue_from_column8 bayer2 args row col /\
  get_red_blue_from_opposite8 bayer1 args row col
  = get_red_blue_from_opposite8 bayer2 args row col.
Proof.
  intros Hcol.
  unfold get_green8, get_red_blue_from_row8, get_red_blue_from_column8,
    get_red_blue_from_opposite8. cbv zeta.
  change get_pixel8_safe with get_pixel16_safe.
  rewrite (green_sum_same _ _ row col (safe_same col Hcol)),
    (row_sum_same _ _ row col (safe_same col Hcol)),
    (column_sum_same _ _ row col (safe_same col Hcol)),
    (opposite_sum_same _ _ row col (safe_same col Hcol)).
  repeat split.
Qed.

Ltac same_pixel Hcol :=
  unfold safe_rgb16, safe_rgb8, safe_rgb16to8, by_phase, phase,
    get_rgb16_at_red16, get_rgb16_at_green_rg16, get_rgb16_at_green_gb16,
    get_rgb16_at_blue16, get_rgb8_at_red8, get_rgb8_at_green_rg8,
    get_rgb8_at_green_gb8, get_rgb8_at_blue8, get_rgb8_at_red16,
    get_rgb8_at_green_rg16, get_rgb8_at_green_gb16, get_rgb8_at_blue16;
  change get_pixel8_safe with get_pixel16_safe;
  let G := fresh "G" in
  let R := fresh "R" in
  let C := fresh "C" in
  let O := fresh "O" in
  let G8 := fresh "G" in
  let R8 := fresh "R" in
  let C8 := fresh "C" in
  let O8 := fresh "O" in
  destruct (getters16_same _ Hcol) as (G & R & C & O);
  destruct (getters8_same _ Hcol) as (G8 & R8 & C8 & O8);
  rewrite ?G, ?R, ?C, ?O, ?G8, ?R8, ?C8, ?O8, ?(safe_same_own _ Hcol);
  reflexivity.

Lemma safe_rgb16_same (col : Z) :
  0 <= col < n_cols args ->
  safe_rgb16 bayer1 args row col = safe_rgb16 bayer2 args row col.
Proof. intros Hcol. same_pixel Hcol. Qed.

Lemma safe_rgb8_same (col : Z) :
  0 <= col < n_cols args ->
  safe_rgb8 bayer1 args row col = safe_rgb8 bayer2 args row col.
Proof. intros Hcol. same_pixel Hcol. Qed.

Lemma safe_rgb16to8_same (col : Z) :
  0 <= col < n_cols args ->
  safe_rgb16to8 bayer1 args row col = safe_rgb16to8 bayer2 args row col.
Proof. intros Hcol. same_pixel Hcol. Qed.

End Locality.

(** X8. A row function reads the rows [row - 2 .. row + 2] of the image
    only: two buffers that agree on the rows of the image within two rows
    of [row] give the same output row, for each of the six row functions
    (for [mono16to8], both buffers hold 16-bit samples that fit 8 bits
    after the shift). *)
Theorem row_reads_five_rows (bayer1 bayer2 : list Z) (args : demosaic_args) (row : Z) :
  args_typed args -> 0 <= row < n_rows args ->
  (forall r c, 0 <= r < n_rows args -> row - 2 <= r <= row + 2 ->
               0 <= c < n_cols args ->
               GET_PIX bayer1 (n_cols args) r c = GET_PIX bayer2 (n_cols args) r c) ->
  (valid_args rgb16 args = true ->
   forall out,
     demosaic_malvar_row_rgb16 (Some bayer1) (Some args) row (Some out)
     = demosaic_malvar_row_rgb16 (Some bayer2) (Some args) row (Some out)) /\
  (valid_args rgb8 args = true ->
   forall out,
     demosaic_malvar_row_rgb8 (Some bayer1) (Some args) row (Some out)
     = demosaic_malvar_row_rgb8 (Some bayer2) (Some args) row (Some out)) /\
  (valid_args rgb16to8 args = true ->
   forall out,
     demosaic_malvar_row_rgb16to8 (Some bayer1) (Some args) row (Some out)
     = demosaic_malvar_row_rgb16to8 (Some bayer2) (Some args) row (Some out)) /\
  (valid_args mono16 args = true ->
   forall out,
     demosaic_malvar_row_mono16 (Some bayer1) (Some args) row (Some out)
     = demosaic_malvar_row_mono16 (Some bayer2) (Some args) row (Some out)) /\
  (valid_args mono8 args = true ->
   forall out,
     demosaic_malvar_row_mono8 (Some bayer1) (Some args) row (Some out)
     = demosaic_malvar_row_mono8 (Some bayer2) (Some args) row (Some out)) /\
  (valid_args mono16to8 args = true ->
   buffer16 bayer1 -> samples_shift_to_8bit bayer1 args ->
   buffer16 bayer2 -> samples_shift_to_8bit bayer2 args ->
   forall out,
     demosaic_malvar_row_mono16to8 (Some bayer1) (Some args) row (Some out)
     = demosaic_malvar_row_mono16to8 (Some bayer2) (Some args) row (Some out)).
Proof.
  intros T Hrow Hsame.
  refine (conj _ (conj _ (conj _ (conj _ (conj _ _))))); intros V;
    assert (Hd : proper_dimensions args = true)
      by (unfold valid_args in V; apply andb_true_iff in V; tauto).
  - intros out.
    destruct (rgb16_rows_agree bayer1 args row T Hrow out V) as [-> _].
    destruct (rgb16_rows_agree bayer2 args row T Hrow out V) as [-> _].
    do 2 f_equal. apply fill_range_ext. intros col Hcol.
    apply (safe_rgb16_same bayer1 bayer2 args row T Hd Hrow Hsame col Hcol).
  - intros out.
    destruct (rgb8_rows_agree bayer1 args row T Hrow out V) as [-> _].
    destruct (rgb8_rows_agree bayer2 args row T Hrow out V) as [-> _].
    do 2 f_equal. apply fill_range_ext. intros col Hcol.
    apply (safe_rgb8_same bayer1 bayer2 args row T Hd Hrow Hsame col Hcol).
  - intros out.
    destruct (rgb16to8_rows_agree bayer1 args row T Hrow out V) as [-> _].
    destruct (rgb16to8_rows_agree bayer2 args row T Hrow out V) as [-> _].
    do 2 f_equal. apply fill_range_ext. intros col Hcol.
    apply (safe_rgb16to8_same bayer1 bayer2 args row T Hd Hrow Hsame col Hcol).
  - intros out.
    destruct (mono16_rows_agree bayer1 args row T Hrow out V) as [-> _].
    destruct (mono16_rows_agree bayer2 args row T Hrow out V) as [-> _].
    do 2 f_equal. apply fill_range_ext. intros col Hcol.
    rewrite !safe_mono16_luma.
    rewrite (safe_rgb16_same bayer1 bayer2 args row T Hd Hrow Hsame col Hcol).
    reflexivity.
  - intros out.
    destruct (mono8_rows_agree bayer1 args row T Hrow out V) as [-> _].
    destruct (mono8_rows_agree bayer2 args row T Hrow out V) as [-> _].
    do 2 f_equal. apply fill_range_ext. intros col Hcol.
    rewrite !safe_mono8_luma.
    rewrite (safe_rgb8_same bayer1 bayer2 args row T Hd Hrow Hsame col Hcol).
    reflexivity.
  - intros Hb1 Hs1 Hb2 Hs2 out.
    destruct (mono16to8_rows_agree bayer1 args row T Hrow out V Hb1 Hs1) as [-> _].
    destruct (mono16to8_rows_agree bayer2 args row T Hrow out V Hb2 Hs2) as [-> _].
    do 2 f_equal. apply fill_range_ext. intros col Hcol.
    rewrite !safe_mono16to8_luma.
    rewrite (safe_rgb16to8_same bayer1 bayer2 args row T Hd Hrow Hsame col Hcol).
    reflexivity.
Qed.

Lemma row_reads_five_rows_witness :
  demosaic_malvar_row_rgb16 (Some sample_bayer) (Some sample_args) 2
    (Some (replicate 6 (mk_pix 0 0 0)))
  = demosaic_malvar_row_rgb16 (Some sample_bayer_other_last_row) (Some sample_args) 2
      (Some (replicate 6 (mk_pix 0 0 0))).
Proof.
  destruct (row_reads_five_rows sample_bayer sample_bayer_other_last_row sample_args 2)
    as (H & _).
  - exact sample_args_typed.
  - simpl. lia.
  - intros r c Hr Hw Hc. simpl in Hr, Hw, Hc.
    assert (Hr' : r = 0 \/ r = 1 \/ r = 2 \/ r = 3 \/ r = 4) by lia.
    assert (Hc' : c = 0 \/ c = 1 \/ c = 2 \/ c = 3 \/ c = 4 \/ c = 5) by lia.
    clear Hr Hw Hc.
    destruct Hr' as [-> | [-> | [-> | [-> | ->]]]];
      destruct Hc' as [-> | [-> | [-> | [-> | [-> | ->]]]]]; reflexivity.
  - apply H. vm_compute. reflexivity.
Defined.

(** ** Transposition

    The RGGB pattern is symmetric about the diagonal, and so are the
    kernels: the column kernel is the row kernel of the transposed image. *)

Section KernelTranspose.

Variables pix pixT : Z -> Z -> Z.
Hypothesis pix_u16 : forall r c : Z, is_u16 (pix r c).
Hypothesis pixT_u16 : forall r c : Z, is_u16 (pixT r c).
Hypothesis transposed : forall r c : Z, is_i32 r -> is_i32 c -> pixT c r = pix r c.

Ltac transpose_kernel :=
  unfold weighted_sum, green_taps, row_taps, column_taps, opposite_taps;
  cbn [foldr]; rewrite !transposed by apply i32_is_i32; lia.

Lemma green_sum_transposed (row col : Z) :
  green_sum pixT col row = green_sum pix row col.
Proof.
  rewrite (proj1 (green_sum_exact pixT pixT_u16 col row)).
  rewrite (proj1 (green_sum_exact pix pix_u16 row col)). transpose_kernel.
Qed.

Lemma row_sum_transposed (row col : Z) :
  row_sum pixT col row = column_sum pix row col.
Proof.
  rewrite (proj1 (row_sum_exact pixT pixT_u16 col row)).
  rewrite (proj1 (column_sum_exact pix pix_u16 row col)). transpose_kernel.
Qed.

Lemma column_sum_transposed (row col : Z) :
  column_sum pixT col row = row_sum pix row col.
Proof.
  rewrite (proj1 (column_sum_exact pixT pixT_u16 col row)).
  rewrite (proj1 (row_sum_exact pix pix_u16 row col)). transpose_kernel.
Qed.

Lemma opposite_sum_transposed (row col : Z) :
  opposite_sum pixT col row = opposite_sum pix row col.
Proof.
  rewrite (proj1 (opposite_sum_exact pixT pixT_u16 col row)).
  rewrite (proj1 (opposite_sum_exact pix pix_u16 row col)). transpose_kernel.
Qed.

End KernelTranspose.

Section ImageTranspose.

Variables (bayer bayerT : list Z) (args : demosaic_args).
Hypothesis args_ok : args_typed args.
Hypothesis dimensions_ok : proper_dimensions args = true.
Hypothesis samples_ok : buffer16 bayer.
Hypothesis samplesT_ok : buffer16 bayerT.
Hypothesis transposed_buffer :
  forall r c, 0 <= r < n_rows args -> 0 <= c < n_cols args ->
              GET_PIX bayerT (n_rows args) c r = GET_PIX bayer (n_cols args) r c.

Lemma safe_transposed (r c : Z) :
  is_i32 r -> is_i32 c ->
  get_pixel16_safe bayerT (n_cols args) (n_rows args) c r
  = get_pixel16_safe bayer (n_rows args) (n_cols args) r c.
Proof.
  intros Hr Hc. destruct args_ok as [Tr Tc _ _].
  destruct (proper_dimensions_facts args dimensions_ok) as (H2c & H2r & _).
  rewrite !get_pixel16_safe_index, !safe_index_coord.
  apply transposed_buffer; rewrite safe_coord_spec by assumption;
    apply remap_spec_in_range; assumption.
Qed.

Lemma pix_u16 (r c : Z) :
  is_u16 (get_pixel16_safe bayer (n_rows args) (n_cols args) r c).
Proof. apply get_pixel16_safe_u16, samples_ok. Qed.

Lemma pixT_u16 (r c : Z) :
  is_u16 (get_pixel16_safe bayerT (n_cols args) (n_rows args) r c).
Proof. apply get_pixel16_safe_u16, samplesT_ok. Qed.

Lemma in_image_i32 (r c : Z) :
  0 <= r < n_rows args -> 0 <= c < n_cols args -> is_i32 r /\ is_i32 c.
Proof.
  intros Hr Hc. destruct args_ok as [Tr Tc _ _].
  unfold is_i32, I32_MIN, I32_MAX in *. lia.
Qed.

Ltac transposed_pixel Hr Hc :=
  destruct (in_image_i32 _ _ Hr Hc) as [Ir Ic];
  unfold get_rgb16_at_red16, get_rgb16_at_green_rg16, get_rgb16_at_green_gb16,
    get_rgb16_at_blue16, get_rgb8_at_red8, get_rgb8_at_green_rg8,
    get_rgb8_at_green_gb8, get_rgb8_at_blue8, get_rgb8_at_red16,
    get_rgb8_at_green_rg16, get_rgb8_at_green_gb16, get_rgb8_at_blue16,
    get_green16, get_red_blue_from_row16, get_red_blue_from_column16,
    get_red_blue_from_opposite16, get_green8, get_red_blue_from_row8,
    get_red_blue_from_column8, get_red_blue_from_opposite8;
  cbn [n_rows n_cols max_val rshift transposed_args]; cbv zeta;
  change (get_pixel8_safe bayer (n_rows args) (n_cols args))
    with (get_pixel16_safe bayer (n_rows args) (n_cols args));
  change (get_pixel8_safe bayerT (n_cols args) (n_rows args))
    with (get_pixel16_safe bayerT (n_cols args) (n_rows args));
  rewrite ?(green_sum_transposed _ _ pix_u16 pixT_u16 safe_transposed),
    ?(row_sum_transposed _ _ pix_u16 pixT_u16 safe_transposed),
    ?(column_sum_transposed _ _ pix_u16 pixT_u16 safe_transposed),
    ?(opposite_sum_transposed _ _ pix_u16 pixT_u16 safe_transposed),
    ?(safe_transposed _ _ Ir Ic);
  reflexivity.

Ltac transposed_phases Hr Hc :=
  unfold safe_rgb16, safe_rgb8, safe_rgb16to8, by_phase, phase;
  rewrite !rem2_even; destruct (Z.even _), (Z.even _);
  transposed_pixel Hr Hc.

Lemma safe_rgb16_transposed (r c : Z) :
  0 <= r < n_rows args -> 0 <= c < n_cols args ->
  safe_rgb16 bayerT (transposed_args args) c r = safe_rgb16 bayer args r c.
Proof. intros Hr Hc. transposed_phases Hr Hc. Qed.

Lemma safe_rgb8_transposed (r c : Z) :
  0 <= r < n_rows args -> 0 <= c < n_cols args ->
  safe_rgb8 bayerT (transposed_args args) c r = safe_rgb8 bayer args r c.
Proof. intros Hr Hc. transposed_phases Hr Hc. Qed.

Lemma safe_rgb16to8_transposed (r c : Z) :
  0 <= r < n_rows args -> 0 <= c < n_cols args ->
  safe_rgb16to8 bayerT (transposed_args args) c r = safe_rgb16to8 bayer args r c.
Proof. intros Hr Hc. transposed_phases Hr Hc. Qed.

End ImageTranspose.

Lemma transposed_args_typed (args : demosaic_args) :
  args_typed args -> args_typed (transposed_args args).
Proof. intros [Tr Tc Tm Ts]. split; assumption. Qed.

Lemma valid_args_transposed (v : variant) (args : demosaic_args) :
  valid_args v (transposed_args args) = valid_args v args.
Proof.
  unfold valid_args, proper_dimensions, max_val_is_8bit, shift_to_8bit, valid_coefs.
  cbn [n_rows n_cols max_val rshift coefs transposed_args].
  destruct (n_cols args >=? 2), (n_rows args >=? 2), (n_cols args [%] 2 =? 0),
    (n_rows args [%] 2 =? 0); reflexivity.
Qed.

(** The element at [c] of the row [r] of the image against the element at
    [r] of the row [c] of the transposed image. *)
Ltac transposed_rows rows_agree safe_transposed :=
  match goal with
  | T : args_typed ?args, Hr : 0 <= ?r < n_rows ?args, Hc : 0 <= ?c < n_cols ?args,
    V : valid_args _ ?args = true
    |- context [_ (Some ?bayerT) (Some (transposed_args ?args)) ?c (Some ?outT)] =>
      match goal with
      | |- context [_ (Some ?bayer) (Some args) r (Some ?out)] =>
          let H1 := fresh "H" in
          let H2 := fresh "H" in
          pose proof (rows_agree bayer args r T Hr out V) as H1;
          pose proof (rows_agree bayerT (transposed_args args) c
                        (transposed_args_typed args T) Hc outT
                        (eq_trans (valid_args_transposed _ args) V)) as H2;
          cbv zeta in H1, H2; destruct H1 as [-> _]; destruct H2 as [-> _];
          eexists _, _; refine (conj eq_refl (conj eq_refl _));
          cbn [n_rows n_cols transposed_args];
          rewrite !fill_range_at by assumption; f_equal
      end
  end.

(** X9. Demosaicing commutes with transposition: when [bayerT] is the
    transpose of the image [bayer] (of 16-bit samples), the pixel at column
    [c] of the row [r] of the image is the pixel at column [r] of the row
    [c] of the transposed image, for the rgb16, rgb8, rgb16to8 (when
    [rshift < 32]), mono16 and mono8 row functions with valid arguments and
    long enough output rows. *)
Theorem demosaicing_commutes_with_transposition
    (bayer bayerT : list Z) (args : demosaic_args) (r c : Z) :
  args_typed args -> buffer16 bayer -> buffer16 bayerT ->
  (forall r c, 0 <= r < n_rows args -> 0 <= c < n_cols args ->
               GET_PIX bayerT (n_rows args) c r = GET_PIX bayer (n_cols args) r c) ->
  0 <= r < n_rows args -> 0 <= c < n_cols args ->
  let argsT := transposed_args args in
  (valid_args rgb16 args = true ->
   forall out outT : list demosaic_pix_rgb16,
     n_cols args <= Z.of_nat (length out) -> n_rows args <= Z.of_nat (length outT) ->
     exists row_out col_out,
       demosaic_malvar_row_rgb16 (Some bayer) (Some args) r (Some out)
       = (Done tt, Some row_out) /\
       demosaic_malvar_row_rgb16 (Some bayerT) (Some argsT) c (Some outT)
       = (Done tt, Some col_out) /\
       col_out !! Z.to_nat r = row_out !! Z.to_nat c) /\
  (valid_args rgb8 args = true ->
   forall out outT : list demosaic_pix_rgb8,
     n_cols args <= Z.of_nat (length out) -> n_rows args <= Z.of_nat (length outT) ->
     exists row_out col_out,
       demosaic_malvar_row_rgb8 (Some bayer) (Some args) r (Some out)
       = (Done tt, Some row_out) /\
       demosaic_malvar_row_rgb8 (Some bayerT) (Some argsT) c (Some outT)
       = (Done tt, Some col_out) /\
       col_out !! Z.to_nat r = row_out !! Z.to_nat c) /\
  (rshift args < 32 -> valid_args rgb16to8 args = true ->
   forall out outT : list demosaic_pix_rgb8,
     n_cols args <= Z.of_nat (length out) -> n_rows args <= Z.of_nat (length outT) ->
     exists row_out col_out,
       demosaic_malvar_row_rgb16to8 (Some bayer) (Some args) r (Some out)
       = (Done tt, Some row_out) /\
       demosaic_malvar_row_rgb16to8 (Some bayerT) (Some argsT) c (Some outT)
       = (Done tt, Some col_out) /\
       col_out !! Z.to_nat r = row_out !! Z.to_nat c) /\
  (valid_args mono16 args = true ->
   forall out outT : list Z,
     n_cols args <= Z.of_nat (length out) -> n_rows args <= Z.of_nat (length outT) ->
     exists row_out col_out,
       demosaic_malvar_row_mono16 (Some bayer) (Some args) r (Some out)
       = (Done tt, Some row_out) /\
       demosaic_malvar_row_mono16 (Some bayerT) (Some argsT) c (Some outT)
       = (Done tt, Some col_out) /\
       col_out !! Z.to_nat r = row_out !! Z.to_nat c) /\
  (valid_args mono8 args = true ->
   forall out outT : list Z,
     n_cols args <= Z.of_nat (length out) -> n_rows args <= Z.of_nat (length outT) ->
     exists row_out col_out,
       demosaic_malvar_row_mono8 (Some bayer) (Some args) r (Some out)
       = (Done tt, Some row_out) /\
       demosaic_malvar_row_mono8 (Some bayerT) (Some argsT) c (Some outT)
       = (Done tt, Some col_out) /\
       col_out !! Z.to_nat r = row_out !! Z.to_nat c).
Proof.
  intros T Hb HbT Htr Hr Hc argsT. subst argsT.
  refine (conj _ (conj _ (conj (fun _ => _) (conj _ _)))); intros V out outT Hlen HlenT;
    assert (Hd : proper_dimensions args = true)
      by (unfold valid_args in V; apply andb_true_iff in V; tauto);
    assert (Hl' : c < Z.of_nat (length out)) by lia;
    assert (HlT' : r < Z.of_nat (length outT)) by lia.
  - transposed_rows rgb16_rows_agree safe_rgb16_transposed.
    apply safe_rgb16_transposed; assumption.
  - transposed_rows rgb8_rows_agree safe_rgb8_transposed.
    apply safe_rgb8_transposed; assumption.
  - transposed_rows rgb16to8_rows_agree safe_rgb16to8_transposed.
    apply safe_rgb16to8_transposed; assumption.
  - transposed_rows mono16_rows_agree safe_rgb16_transposed.
    rewrite !safe_mono16_luma. cbn [coefs transposed_args]. f_equal.
    apply safe_rgb16_transposed; assumption.
  - transposed_rows mono8_rows_agree safe_rgb8_transposed.
    rewrite !safe_mono8_luma. cbn [coefs transposed_args]. f_equal.
    apply safe_rgb8_transposed; assumption.
Qed.

Lemma demosaicing_commutes_with_transposition_witness :
  exists row_out col_out,
    demosaic_malvar_row_rgb16 (Some sample_bayer) (Some sample_args) 2
      (Some (replicate 6 (mk_pix 0 0 0))) = (Done tt, Some row_out) /\
    demosaic_malvar_row_rgb16 (Some sample_bayer_transposed)
      (Some (transposed_args sample_args)) 3
      (Some (replicate 6 (mk_pix 0 0 0))) = (Done tt, Some col_out) /\
    col_out !! Z.to_nat 2 = row_out !! Z.to_nat 3.
Proof.
  destruct (demosaicing_commutes_with_transposition sample_bayer sample_bayer_transposed
              sample_args 2 3) as (H & _).
  - exact sample_args_typed.
  - exact sample_bayer_buffer16.
  - unfold buffer16, sample_bayer_transposed, is_u16, U16_MAX.
    repeat (apply Forall_cons; split; [lia|]). apply Forall_nil_2.
  - intros r c Hr Hc. simpl in Hr, Hc.
    assert (Hr' : r = 0 \/ r = 1 \/ r = 2 \/ r = 3 \/ r = 4 \/ r = 5) by lia.
    assert (Hc' : c = 0 \/ c = 1 \/ c = 2 \/ c = 3 \/ c = 4 \/ c = 5) by lia.
    clear Hr Hc.
    destruct Hr' as [-> | [-> | [-> | [-> | [-> | ->]]]]];
      destruct Hc' as [-> | [-> | [-> | [-> | [-> | ->]]]]]; reflexivity.
  - simpl. lia.
  - simpl. lia.
  - apply H; vm_compute; try reflexivity; discriminate.
Defined.

(** ** Coefficients that are all zero

    [0.000001] keeps [coef_sum] away from zero: the normalized coefficients
    are zeros, not NaNs, and the luminance is [0.5], stored as 0. *)

Lemma of_int_finite (x : Z) : 0 <= x <= 65535 -> finite_nonneg (F64ops.of_int x).
Proof.
  intros Hx. destruct (of_int_model x ltac:(lia)) as [Hr _].
  assert (HxR : (0 <= IZR x <= 65535)%R) by (split; apply IZR_le; lia).
  apply (rounds_to_small _ _ Hr). lra.
Qed.

Lemma zero_coefs_valid (sr sg sb : bool) (args : demosaic_args) :
  coefs args = mk_coefs (S754_zero sr) (S754_zero sg) (S754_zero sb) ->
  valid_coefs args = true.
Proof.
  intros E. unfold valid_coefs. rewrite E. destruct sr, sg, sb; vm_compute; reflexivity.
Qed.

Lemma luma_zero_coefs (sr sg sb : bool) (r g b : Z) :
  0 <= r <= 65535 -> 0 <= g <= 65535 -> 0 <= b <= 65535 ->
  F64ops.to_int
    (luma (normalize_coefs (mk_coefs (S754_zero sr) (S754_zero sg) (S754_zero sb))) r g b)
  = 0.
Proof.
  intros Hr Hg Hb.
  pose proof (of_int_finite r Hr) as Fr. pose proof (of_int_finite g Hg) as Fg.
  pose proof (of_int_finite b Hb) as Fb.
  unfold luma. revert Fr Fg Fb.
  generalize (F64ops.of_int r), (F64ops.of_int g), (F64ops.of_int b).
  intros [s1|s1| |[] m1 e1] [s2|s2| |[] m2 e2] [s3|s3| |[] m3 e3];
    try contradiction; intros _ _ _;
    destruct sr, sg, sb; try destruct s1; try destruct s2; try destruct s3; reflexivity.
Qed.

Lemma luma16_zero_coefs (sr sg sb : bool) (p : demosaic_pix_rgb) (M : Z) :
  pixel_within M p -> M <= U16_MAX ->
  luma16 (normalize_coefs (mk_coefs (S754_zero sr) (S754_zero sg) (S754_zero sb))) p = 0.
Proof.
  unfold U16_MAX. intros (Hr & Hg & Hb) HM. unfold luma16.
  rewrite luma_zero_coefs by lia. reflexivity.
Qed.

Lemma luma8_zero_coefs (sr sg sb : bool) (p : demosaic_pix_rgb) (M : Z) :
  pixel_within M p -> M <= U16_MAX ->
  luma8 (normalize_coefs (mk_coefs (S754_zero sr) (S754_zero sg) (S754_zero sb))) p = 0.
Proof.
  unfold U16_MAX. intros (Hr & Hg & Hb) HM. unfold luma8.
  rewrite luma_zero_coefs by lia. reflexivity.
Qed.

(** X10. Luma coefficients that are all zero (of either sign) are
    accepted: thanks to the [0.000001] added to their sum nothing is
    divided by zero, the three mono whole-image functions return
    ([demosaic_malvar_mono16to8] for [rshift < 32]), and every sample they
    write is 0, for an image of at most [I32_MAX] pixels and 16-bit samples
    that do not exceed [max_val]. *)
Theorem zero_coefficients_give_zero_image
    (bayer : list Z) (args : demosaic_args) (sr sg sb : bool) (out : list Z) :
  args_typed args -> buffer16 bayer -> samples_within_max bayer args ->
  n_rows args * n_cols args <= I32_MAX ->
  n_rows args * n_cols args <= Z.of_nat (length out) ->
  coefs args = mk_coefs (S754_zero sr) (S754_zero sg) (S754_zero sb) ->
  (valid_args rgb16 args = true ->
   exists out',
     demosaic_malvar_mono16 (Some bayer) (Some args) (Some out) = (Done tt, Some out') /\
     forall i : nat, Z.of_nat i < n_rows args * n_cols args -> out' !! i = Some 0) /\
  (valid_args rgb8 args = true ->
   exists out',
     demosaic_malvar_mono8 (Some bayer) (Some args) (Some out) = (Done tt, Some out') /\
     forall i : nat, Z.of_nat i < n_rows args * n_cols args -> out' !! i = Some 0) /\
  (rshift args < 32 -> valid_args rgb16to8 args = true ->
   exists out',
     demosaic_malvar_mono16to8 (Some bayer) (Some args) (Some out)
     = (Done tt, Some out') /\
     forall i : nat, Z.of_nat i < n_rows args * n_cols args -> out' !! i = Some 0).
Proof.
  intros T Hbuf Hmax Hfit Hlen E.
  pose proof (zero_coefs_valid sr sg sb args E) as Vc.
  pose proof (max_val_range args T) as [Hm0 Hm].
  refine (conj _ (conj _ (fun _ => _))); intros V;
    pose proof V as V'; unfold valid_args in V'; rewrite ?andb_true_iff in V'.
  - assert (Vm : valid_args mono16 args = true)
      by (unfold valid_args; rewrite andb_true_iff; tauto).
    rewrite mono16_image_run by assumption. eexists. split; [reflexivity|].
    intros i Hi. rewrite fill_rows_element by assumption. f_equal.
    rewrite safe_mono16_luma, E.
    apply (luma16_zero_coefs _ _ _ _ (max_val args)); [|exact Hm].
    apply safe_rgb16_within; assumption.
  - assert (Vm : valid_args mono8 args = true)
      by (unfold valid_args; rewrite !andb_true_iff; tauto).
    rewrite mono8_image_run by assumption. eexists. split; [reflexivity|].
    intros i Hi. rewrite fill_rows_element by assumption. f_equal.
    rewrite safe_mono8_luma, E.
    apply (luma8_zero_coefs _ _ _ _ (max_val args)); [|exact Hm].
    apply safe_rgb8_within; tauto.
  - assert (Vm : valid_args mono16to8 args = true)
      by (unfold valid_args; rewrite !andb_true_iff; tauto).
    assert (Hs : samples_shift_to_8bit bayer args)
      by (apply samples_within_max_shift; tauto).
    rewrite mono16to8_image_run by assumption. eexists. split; [reflexivity|].
    intros i Hi. rewrite fill_rows_element by assumption. f_equal.
    rewrite safe_mono16to8_luma, E.
    apply (luma8_zero_coefs _ _ _ _ (max_val args [>>] rshift args)).
    + apply safe_rgb16to8_within; tauto.
    + unfold shift_to_8bit in V'. rewrite andb_true_iff in V'.
      destruct V' as [_ [_ H8]]. apply Z.leb_le in H8. unfold U8_MAX in H8.
      unfold U16_MAX. lia.
Qed.

Lemma zero_coefficients_give_zero_image_witness :
  exists out',
    demosaic_malvar_mono16 (Some sample_bayer) (Some zero_coefs_args)
      (Some (replicate 36 7)) = (Done tt, Some out') /\
    forall i : nat, Z.of_nat i < 36 -> out' !! i = Some 0.
Proof.
  destruct (zero_coefficients_give_zero_image sample_bayer zero_coefs_args
              false false false (replicate 36 7)) as (H & _).
  - split; unfold is_i32, is_u16, I32_MIN, I32_MAX, U16_MAX; simpl; lia.
  - exact sample_bayer_buffer16.
  - unfold samples_within_max, sample_bayer. simpl. repeat constructor; lia.
  - vm_compute. discriminate.
  - vm_compute. discriminate.
  - reflexivity.
  - apply H. vm_compute. reflexivity.
Defined.

(** ** The variants on 8-bit data

    With [max_val <= 255] the 8-bit helpers clamp to the same values as the
    16-bit ones, and the narrowing casts keep them. *)

Lemma fill_rows_ext {P : Type} (pixel pixel' : Z -> Z -> P) (n_cols lo hi : Z)
    (out : list P) :
  (forall row col, pixel row col = pixel' row col) ->
  fill_rows pixel n_cols lo hi out = fill_rows pixel' n_cols lo hi out.
Proof.
  intros H. apply list_eq. intros i. rewrite !lookup_fill_rows.
  destruct (out !! i); simpl; [|done].
  rewrite H. reflexivity.
Qed.

Section EightBit.

Variables (bayer : list Z) (args : demosaic_args).
Hypothesis args_ok : args_typed args.
Hypothesis max_8bit : max_val_is_8bit args = true.

Lemma limit8_is_limit16 (v : Z) :
  u8 (DM_LIMIT v 0 (i32 (max_val args))) = u16 (DM_LIMIT v 0 (i32 (max_val args))).
Proof.
  pose proof (limit_within args args_ok v) as Hv.
  unfold max_val_is_8bit in max_8bit. apply Z.leb_le in max_8bit. unfold U8_MAX in max_8bit.
  rewrite u8_small, u16_small; [reflexivity| |]; unfold is_u16, is_u8, U16_MAX, U8_MAX; lia.
Qed.

Lemma safe_rgb8_is_safe_rgb16 (row col : Z) :
  safe_rgb8 bayer args row col = safe_rgb16 bayer args row col.
Proof.
  unfold safe_rgb8, safe_rgb16, by_phase, phase.
  destruct (row [%] 2 =? 0), (Z.even col);
    unfold get_rgb8_at_red8, get_rgb8_at_green_rg8, get_rgb8_at_green_gb8,
      get_rgb8_at_blue8, get_rgb16_at_red16, get_rgb16_at_green_rg16,
      get_rgb16_at_green_gb16, get_rgb16_at_blue16,
      get_green8, get_red_blue_from_row8, get_red_blue_from_column8,
      get_red_blue_from_opposite8, get_green16, get_red_blue_from_row16,
      get_red_blue_from_column16, get_red_blue_from_opposite16,
      get_pixel8_safe, get_pixel16_safe; cbv zeta;
    rewrite ?u8_u16, ?limit8_is_limit16; reflexivity.
Qed.

Hypothesis samples_ok : buffer16 bayer.
Hypothesis within : samples_within_max bayer args.

Lemma narrow_by_zero (x : Z) :
  0 <= x <= max_val args -> u8 (x [>>] 0) = x.
Proof.
  intros Hx. unfold max_val_is_8bit in max_8bit. apply Z.leb_le in max_8bit.
  unfold U8_MAX in max_8bit. unfold shr. rewrite Z.shiftr_0_r.
  apply u8_small. unfold is_u8, U8_MAX. lia.
Qed.

Lemma safe_rgb16to8_is_safe_rgb16 (row col : Z) :
  rshift args = 0 -> safe_rgb16to8 bayer args row col = safe_rgb16 bayer args row col.
Proof.
  intros Hs.
  destruct (assemblers16_within bayer args args_ok samples_ok within row col)
    as ((R1 & G1 & B1) & (R2 & G2 & B2) & (R3 & G3 & B3) & (R4 & G4 & B4)).
  unfold safe_rgb16to8, safe_rgb16, by_phase, phase.
  destruct (row [%] 2 =? 0), (Z.even col);
    unfold get_rgb8_at_red16, get_rgb8_at_green_rg16, get_rgb8_at_green_gb16,
      get_rgb8_at_blue16;
    rewrite Hs.
  - destruct (get_rgb16_at_red16 bayer args row col) as [r g b] eqn:E.
    cbn [red green blue] in *.
    assert (Er : get_pixel16_safe bayer (n_rows args) (n_cols args) row col = r)
      by (unfold get_rgb16_at_red16 in E; congruence).
    assert (Eg : get_green16 bayer args row col = g)
      by (unfold get_rgb16_at_red16 in E; congruence).
    assert (Eb : get_red_blue_from_opposite16 bayer args row col = b)
      by (unfold get_rgb16_at_red16 in E; congruence).
    rewrite Er, Eg, Eb, !narrow_by_zero by assumption. reflexivity.
  - destruct (get_rgb16_at_green_rg16 bayer args row col) as [r g b] eqn:E.
    cbn [red green blue] in *.
    assert (Er : get_red_blue_from_row16 bayer args row col = r)
      by (unfold get_rgb16_at_green_rg16 in E; congruence).
    assert (Eg : get_pixel16_safe bayer (n_rows args) (n_cols args) row col = g)
      by (unfold get_rgb16_at_green_rg16 in E; congruence).
    assert (Eb : get_red_blue_from_column16 bayer args row col = b)
      by (unfold get_rgb16_at_green_rg16 in E; congruence).
    rewrite Er, Eg, Eb, !narrow_by_zero by assumption. reflexivity.
  - destruct (get_rgb16_at_green_gb16 bayer args row col) as [r g b] eqn:E.
    cbn [red green blue] in *.
    assert (Er : get_red_blue_from_column16 bayer args row col = r)
      by (unfold get_rgb16_at_green_gb16 in E; congruence).
    assert (Eg : get_pixel16_safe bayer (n_rows args) (n_cols args) row col = g)
      by (unfold get_rgb16_at_green_gb16 in E; congruence).
    assert (Eb : get_red_blue_from_row16 bayer args row col = b)
      by (unfold get_rgb16_at_green_gb16 in E; congruence).
    rewrite Er, Eg, Eb, !narrow_by_zero by assumption. reflexivity.
  - destruct (get_rgb16_at_blue16 bayer args row col) as [r g b] eqn:E.
    cbn [red green blue] in *.
    assert (Er : get_red_blue_from_opposite16 bayer args row col = r)
      by (unfold get_rgb16_at_blue16 in E; congruence).
    assert (Eg : get_green16 bayer args row col = g)
      by (unfold get_rgb16_at_blue16 in E; congruence).
    assert (Eb : get_pixel16_safe bayer (n_rows args) (n_cols args) row col = b)
      by (unfold get_rgb16_at_blue16 in E; congruence).
    rewrite Er, Eg, Eb, !narrow_by_zero by assumption. reflexivity.
Qed.

Hypothesis coefs_ok : valid_coefs args = true.

Lemma luma8_is_luma16 (row col : Z) :
  luma8 (normalize_coefs (coefs args)) (safe_rgb16 bayer args row col)
  = luma16 (normalize_coefs (coefs args)) (safe_rgb16 bayer args row col).
Proof.
  destruct (normalized_coefs_facts args coefs_ok) as (Fr & Fg & Fb & Hsum).
  destruct (safe_rgb16_within bayer args args_ok samples_ok within row col)
    as (Hr & Hg & Hb).
  unfold max_val_is_8bit in max_8bit. apply Z.leb_le in max_8bit. unfold U8_MAX in max_8bit.
  pose proof (luma_bound _ _ _ _ (max_val args) Fr Fg Fb Hsum Hr Hg Hb ltac:(lia)) as H.
  unfold luma8, luma16.
  rewrite u8_small, u16_small; [reflexivity| |]; unfold is_u16, is_u8, U16_MAX, U8_MAX; lia.
Qed.

Lemma safe_mono8_is_safe_mono16 (row col : Z) :
  safe_mono8 bayer args row col = safe_mono16 bayer args row col.
Proof.
  rewrite safe_mono8_luma, safe_mono16_luma, safe_rgb8_is_safe_rgb16.
  apply luma8_is_luma16.
Qed.

Lemma safe_mono16to8_is_safe_mono16 (row col : Z) :
  rshift args = 0 -> safe_mono16to8 bayer args row col = safe_mono16 bayer args row col.
Proof.
  intros Hs.
  rewrite safe_mono16to8_luma, safe_mono16_luma, safe_rgb16to8_is_safe_rgb16 by exact Hs.
  apply luma8_is_luma16.
Qed.

End EightBit.

(** X11. On 8-bit data the variants agree.  With valid 8-bit arguments
    ([max_val <= 255]) [demosaic_malvar_rgb8] leaves the output and outcome
    of [demosaic_malvar_rgb16]; when the samples do not exceed [max_val],
    so does [demosaic_malvar_rgb16to8] with [rshift = 0], and, with valid
    coefficients, [demosaic_malvar_mono8] and [demosaic_malvar_mono16to8]
    with [rshift = 0] leave those of [demosaic_malvar_mono16]. *)
Theorem variants_agree_on_8bit_images (bayer : list Z) (args : demosaic_args) :
  args_typed args -> n_rows args * n_cols args <= I32_MAX ->
  valid_args rgb8 args = true ->
  (forall out,
     demosaic_malvar_rgb8 (Some bayer) (Some args) (Some out)
     = demosaic_malvar_rgb16 (Some bayer) (Some args) (Some out)) /\
  (buffer16 bayer -> samples_within_max bayer args ->
   (rshift args = 0 ->
    forall out,
      demosaic_malvar_rgb16to8 (Some bayer) (Some args) (Some out)
      = demosaic_malvar_rgb16 (Some bayer) (Some args) (Some out)) /\
   (valid_args mono16 args = true ->
    (forall out,
       demosaic_malvar_mono8 (Some bayer) (Some args) (Some out)
       = demosaic_malvar_mono16 (Some bayer) (Some args) (Some out)) /\
    (rshift args = 0 ->
     forall out,
       demosaic_malvar_mono16to8 (Some bayer) (Some args) (Some out)
       = demosaic_malvar_mono16 (Some bayer) (Some args) (Some out)))).
Proof.
  intros T Hfit V.
  pose proof V as V'. unfold valid_args in V'. rewrite andb_true_iff in V'.
  destruct V' as [Hd H8].
  assert (V16 : valid_args rgb16 args = true)
    by (unfold valid_args; rewrite andb_true_iff; tauto).
  split.
  - intros out. rewrite rgb8_image_run, rgb16_image_run by assumption.
    rewrite (fill_rows_ext (safe_rgb8 bayer args) (safe_rgb16 bayer args))
      by (intros row col; apply safe_rgb8_is_safe_rgb16; assumption).
    reflexivity.
  - intros Hbuf Hmax. split.
    + intros Hs out.
      assert (Vs : valid_args rgb16to8 args = true).
      { unfold valid_args, shift_to_8bit. rewrite Hs. unfold shr. rewrite Z.shiftr_0_r.
        rewrite Hd. exact H8. }
      rewrite rgb16to8_image_run, rgb16_image_run by assumption.
      rewrite (fill_rows_ext (safe_rgb16to8 bayer args) (safe_rgb16 bayer args))
        by (intros row col; apply safe_rgb16to8_is_safe_rgb16; assumption).
      reflexivity.
    + intros Vm. pose proof Vm as Vm'. unfold valid_args in Vm'.
      rewrite andb_true_iff in Vm'. destruct Vm' as [_ Hc].
      assert (Vm8 : valid_args mono8 args = true)
        by (unfold valid_args; rewrite !andb_true_iff; tauto).
      split.
      * intros out. rewrite mono8_image_run, mono16_image_run by assumption.
        rewrite (fill_rows_ext (safe_mono8 bayer args) (safe_mono16 bayer args))
          by (intros row col; apply safe_mono8_is_safe_mono16; assumption).
        reflexivity.
      * intros Hs out.
        assert (Hsh : shift_to_8bit args = true).
        { unfold shift_to_8bit. rewrite Hs. unfold shr. rewrite Z.shiftr_0_r. exact H8. }
        assert (Vms : valid_args mono16to8 args = true)
          by (unfold valid_args; rewrite !andb_true_iff; tauto).
        assert (Hss : samples_shift_to_8bit bayer args)
          by (apply samples_within_max_shift; assumption).
        rewrite mono16to8_image_run, mono16_image_run by assumption.
        rewrite (fill_rows_ext (safe_mono16to8 bayer args) (safe_mono16 bayer args))
          by (intros row col; apply safe_mono16to8_is_safe_mono16; assumption).
        reflexivity.
Qed.

Lemma variants_agree_on_8bit_images_witness :
  demosaic_malvar_mono16to8 (Some sample_bayer_8bit) (Some sample_args_8bit)
    (Some (replicate 36 0))
  = demosaic_malvar_mono16 (Some sample_bayer_8bit) (Some sample_args_8bit)
      (Some (replicate 36 0)).
Proof.
  destruct (variants_agree_on_8bit_images sample_bayer_8bit sample_args_8bit)
    as (_ & H).
  - split; unfold is_i32, is_u16, I32_MIN, I32_MAX, U16_MAX; simpl; lia.
  - vm_compute. discriminate.
  - vm_compute. reflexivity.
  - destruct H as (_ & H).
    + unfold buffer16, sample_bayer_8bit. repeat constructor; unfold U16_MAX; lia.
    + unfold samples_within_max, sample_bayer_8bit. simpl. repeat constructor; lia.
    + destruct H as (_ & H); [vm_compute; reflexivity|].
      apply H. reflexivity.
Defined.
